(** * KSEBL LT line dashboard: the controller logic of
      [src/components/ksebl-dashboard.tsx], embedded and verified.

    The component keeps two pieces of React state that matter here, the line
    list [lines] and the notification log [notifications], and three refs
    for the map widget.  Event handlers are modelled as functions on that
    state; the two sources of nondeterminism, [Date.now()] and
    [Math.random()], are explicit arguments.  JavaScript numbers that take
    part in arithmetic are IEEE-754 binary64 values ([spec_float] at
    precision 53), integers that only count or index are [Z] and [nat]. *)

From Stdlib Require Import ZArith QArith Qround Ascii String DecimalString.
From Stdlib Require Import Floats.SpecFloat.
From stdpp Require Import base decidable option list strings gmap.

Local Open Scope Z_scope.

(** ** JavaScript numbers *)

Module Num.

(** binary64: 53 bits of precision, exponents below 1024. *)
Definition prec : Z := 53.
Definition emax : Z := 1024.

Definition number := spec_float.

(** The number denoted by an integer (exact below 2^53). *)
Definition ofZ (z : Z) : number := binary_normalize prec emax z 0 false.

(** A decimal literal [m / 10^k], as the parser reads it: the binary64
    value nearest to the decimal. *)
Definition lit (m : Z) (k : nat) : number :=
  SFdiv prec emax (ofZ m) (ofZ (10 ^ Z.of_nat k)).

Definition mul : number -> number -> number := SFmul prec emax.
Definition add : number -> number -> number := SFadd prec emax.
Definition div : number -> number -> number := SFdiv prec emax.

Definition string_of_Z (z : Z) : string := NilZero.string_of_int (Z.to_int z).

(** [tenths m e] is the integer [n] for which [n / 10] is as close as
    possible to [m * 2^e], the larger one when two are equally close
    (the choice made by [Number.prototype.toFixed]). *)
Definition tenths (m e : Z) : Z :=
  if 0 <=? e then 10 * m * 2 ^ e
  else (20 * m + 2 ^ (- e)) / 2 ^ (1 - e).

(** Is [m * 2^e] at least [10^21]? *)
Definition huge (m e : Z) : bool :=
  if 0 <=? e then 10 ^ 21 <=? m * 2 ^ e else 10 ^ 21 * 2 ^ (- e) <=? m.

(** The digit string of [n >= 0] with a point before the last digit,
    zero-padded to two digits first. *)
Definition point1 (n : Z) : string :=
  let m := string_of_Z n in
  let m := if (String.length m <=? 1)%nat then "0" +:+ m else m in
  let k := String.length m in
  substring 0 (k - 1) m +:+ "." +:+ substring (k - 1) 1 m.

(** [x.toFixed(1)].  Above [10^21] the method hands over to the general
    number-to-string conversion, which is not modelled: [None]. *)
Definition toFixed1 (x : number) : option string :=
  match x with
  | S754_nan => Some "NaN"%string
  | S754_infinity s => Some (if s then "-Infinity" else "Infinity")%string
  | S754_zero _ => Some (point1 0)
  | S754_finite s m e =>
      if huge (Z.pos m) e then None
      else Some ((if s then "-" else EmptyString)
                 +:+ point1 (tenths (Z.pos m) e))
  end.

End Num.

Abbreviation number := Num.number.

(** ** Types *)

Module LineStatus.
Inductive t : Set := Healthy | Fault | Shutoff.
End LineStatus.
Import LineStatus.

Abbreviation LineStatus := LineStatus.t.

#[global] Instance LineStatus_eq_dec : EqDecision LineStatus.
Proof. solve_decision. Defined.

(** A status used as a string (in a template, in a CSV cell). *)
Definition status_text (s : LineStatus) : string :=
  match s with
  | Healthy => "Healthy"
  | Fault => "Fault"
  | Shutoff => "Shutoff"
  end.

Module LTLine.
Record t : Type := mk {
  id : string;
  name : string;
  coords : list (number * number);
  status : LineStatus
}.

(** [{ ...l, status }] *)
Definition with_status (l : t) (s : LineStatus) : t :=
  {| id := id l; name := name l; coords := coords l; status := s |}.
End LTLine.

Module NotificationItem.
Record t : Type := mk {
  id : string;
  ts : Z;
  lineId : string;
  message : string;
  status : LineStatus
}.
End NotificationItem.

Abbreviation LTLine := LTLine.t.
Abbreviation NotificationItem := NotificationItem.t.

(** ** Mock lines *)

Definition initialLines : list LTLine :=
  [ LTLine.mk "lt-1" "LT Line - Trivandrum North"
      [ (Num.lit 8508 3, Num.lit 76956 3);
        (Num.lit 8545 3, Num.lit 7698 2);
        (Num.lit 858 2, Num.lit 7699 2) ]
      Healthy;
    LTLine.mk "lt-2" "LT Line - Kochi Coastal"
      [ (Num.lit 994 2, Num.lit 7627 2);
        (Num.lit 997 2, Num.lit 7631 2);
        (Num.lit 1002 2, Num.lit 7632 2);
        (Num.lit 1006 2, Num.lit 7634 2) ]
      Healthy;
    LTLine.mk "lt-3" "LT Line - Kozhikode Rural"
      [ (Num.lit 1124 2, Num.lit 7577 2);
        (Num.lit 1128 2, Num.lit 758 1);
        (Num.lit 1131 2, Num.lit 7583 2) ]
      Shutoff ].

(** ** Reports *)

Module Counts.
(** [Record<LineStatus, number>]: one counter per status. *)
Record t : Set := mk { Healthy : Z; Fault : Z; Shutoff : Z }.

Definition zero : t := mk 0 0 0.

Definition get (c : t) (s : LineStatus) : Z :=
  match s with
  | LineStatus.Healthy => Healthy c
  | LineStatus.Fault => Fault c
  | LineStatus.Shutoff => Shutoff c
  end.

(** [counts[s]++] *)
Definition incr (c : t) (s : LineStatus) : t :=
  match s with
  | LineStatus.Healthy => mk (Healthy c + 1) (Fault c) (Shutoff c)
  | LineStatus.Fault => mk (Healthy c) (Fault c + 1) (Shutoff c)
  | LineStatus.Shutoff => mk (Healthy c) (Fault c) (Shutoff c + 1)
  end.
End Counts.

Module Report.
Record t : Type := mk {
  counts : Counts.t;
  total : Z;
  uptime : option string
}.
End Report.

(** [for (const l of lines) counts[l.status]++] *)
Definition count_lines (lines : list LTLine) : Counts.t :=
  fold_left (fun c l => Counts.incr c (LTLine.status l)) lines Counts.zero.

(** [(counts.Healthy * 99.5 + counts.Fault * 70) / total] *)
Definition uptime_value (c : Counts.t) (total : Z) : number :=
  Num.div
    (Num.add (Num.mul (Num.ofZ (Counts.Healthy c)) (Num.lit 995 1))
             (Num.mul (Num.ofZ (Counts.Fault c)) (Num.ofZ 70)))
    (Num.ofZ total).

Definition report (lines : list LTLine) : Report.t :=
  let counts := count_lines lines in
  let total := if Z.of_nat (length lines) =? 0 then 1 else Z.of_nat (length lines) in
  let uptime := Num.toFixed1 (uptime_value counts total) in
  Report.mk counts total uptime.

(** [{report.uptime}%], the text of the Estimated Uptime card. *)
Definition uptime_card (r : Report.t) : option string :=
  (fun u => u +:+ "%") <$> Report.uptime r.

(** *** The estimate as the specification words it

    [(Healthy_count * 99.5 + Fault_count * 70) / total_lines], rounded to
    one decimal: the arithmetic is exact here (rationals), and a value
    halfway between two decimals goes up. *)
Definition spec_quotient (h f n : Z) : Q :=
  ((inject_Z h * 99.5 + inject_Z f * 70) / inject_Z n)%Q.

Definition spec_tenths (h f n : Z) : Z :=
  Qfloor (spec_quotient h f n * 10 + (1 # 2))%Q.

(** Is the exact quotient halfway between two one-decimal values? *)
Definition spec_tie (h f n : Z) : bool :=
  let x := (spec_quotient h f n * 10 + (1 # 2))%Q in
  Qeq_bool (inject_Z (Qfloor x)) x.

Definition count_status (s : LineStatus) (ls : list LTLine) : Z :=
  Z.of_nat (length (filter (fun l => LTLine.status l = s) ls)).

Definition spec_uptime (ls : list LTLine) : string :=
  Num.point1 (spec_tenths (count_status Healthy ls) (count_status Fault ls)
                          (Z.of_nat (length ls))).

(** ** Component state *)

(** The two [useState] cells the handlers below write.  ([selectedLineId],
    [mapError] and [mapLoaded] are not touched by them.)  A handler runs
    inside the render whose state it sees, so the [lines] it closes over are
    the [lines] of the state it updates. *)
Record State : Type := mkState {
  lines : list LTLine;
  notifications : list NotificationItem
}.

(** What one [addNotification] call reads from the outside: the clock for
    the id, [Math.random()] as printed in the id, the clock for [ts]. *)
Record Stamp : Type := mkStamp {
  id_now : Z;
  id_random : string;
  ts_now : Z
}.

(** ** Notifications *)

Definition new_item (e : Stamp) (lineId message : string) (status : LineStatus)
  : NotificationItem :=
  NotificationItem.mk
    (Num.string_of_Z (id_now e) +:+ "-" +:+ id_random e)
    (ts_now e) lineId message status.

(** [setNotifications((prev) => [item, ...prev].slice(0, 20))] *)
Definition addNotification (e : Stamp) (lineId message : string)
    (status : LineStatus) (st : State) : State :=
  mkState (lines st)
          (take 20 (new_item e lineId message status :: notifications st)).

(** The [Clear All] button: [setNotifications([])]. *)
Definition clearNotifications (st : State) : State :=
  mkState (lines st) [].

(** ** Update status *)

(** [lines.find((l) => l.id === lineId)?.name ?? "Line"] *)
Definition lineName (ls : list LTLine) (lineId : string) : string :=
  match list_find (fun l => LTLine.id l = lineId) ls with
  | Some (_, l) => LTLine.name l
  | None => "Line"
  end.

(** [prev.map((l) => (l.id === lineId ? { ...l, status } : l))] *)
Definition set_status (lineId : string) (status : LineStatus)
    (prev : list LTLine) : list LTLine :=
  (fun l => if decide (LTLine.id l = lineId)
            then LTLine.with_status l status else l) <$> prev.

Definition change_message (nm : string) (status : LineStatus) : string :=
  nm +:+ " status changed to " +:+ status_text status.

Definition updateLineStatus (e : Stamp) (lineId : string) (status : LineStatus)
    (st : State) : State :=
  let nm := lineName (lines st) lineId in
  let st1 := mkState (set_status lineId status (lines st)) (notifications st) in
  addNotification e lineId (change_message nm status) status st1.

(** ** Simulate a random fault *)

(** [lines.filter((l) => l.status !== "Fault")] *)
Definition candidates (ls : list LTLine) : list LTLine :=
  filter (fun l => LTLine.status l <> Fault) ls.

(** [Math.floor(x)] used as an array index: the element position it names,
    if it names one ([NaN], infinities and negative numbers name none). *)
Definition floor_index (x : number) : option nat :=
  match x with
  | S754_zero _ => Some 0%nat
  | S754_finite false m e =>
      Some (Z.to_nat (if 0 <=? e then Z.pos m * 2 ^ e else Z.pos m / 2 ^ (- e)))
  | _ => None
  end.

(** [candidates[Math.floor(Math.random() * candidates.length)]], with [r]
    the value [Math.random()] returned. *)
Definition pick (r : number) (ls : list LTLine) : option LTLine :=
  let cs := candidates ls in
  floor_index (Num.mul r (Num.ofZ (Z.of_nat (length cs)))) ≫= (cs !!.).

Definition simulateFault (r : number) (e : Stamp) (st : State) : State :=
  match pick r (lines st) with
  | Some p => updateLineStatus e (LTLine.id p) Fault st
  | None => st
  end.

(** ** Download CSV *)

Definition dquote : string := String "034"%char EmptyString.
Definition newline : string := String "010"%char EmptyString.

(** [`"${c}"`] *)
Definition quoted (c : string) : string :=
  dquote +:+ c +:+ dquote.

Definition headers : list string := ["Line ID"; "Name"; "Status"]%string.

(** [lines.map((l) => [l.id, l.name, l.status])] *)
Definition rows (ls : list LTLine) : list (list string) :=
  (fun l => [LTLine.id l; LTLine.name l; status_text (LTLine.status l)]) <$> ls.

(** [[headers, ...rows].map((r) => r.map((c) => `"${c}"`).join(",")).join("\n")] *)
Definition csv (ls : list LTLine) : string :=
  String.concat newline
    ((fun r => String.concat "," (quoted <$> r)) <$> (headers :: rows ls)).

(** The file handed to the browser; [iso] is [new Date().toISOString()]. *)
Record Download : Type := mkDownload {
  download : string;
  mime : string;
  content : string
}.

Definition downloadCSV (iso : string) (st : State) : Download :=
  mkDownload
    ("ksebl-lt-report-" +:+ substring 0 10 iso +:+ ".csv")
    "text/csv;charset=utf-8;"
    (csv (lines st)).

(** ** Where a line's marker sits *)

(** [Math.floor(line.coords.length / 2)] *)
Definition midIdx (line : LTLine) : nat := (length (LTLine.coords line) / 2)%nat.

(** [line.coords[midIdx]], [None] for [undefined]. *)
Definition mid (line : LTLine) : option (number * number) :=
  LTLine.coords line !! midIdx line.

(** ** Map refs *)

Module Leaflet.
(** A layer object (a polyline or a circle marker), known by its
    identity; its style and popup play no part below. *)
Definition layer := nat.

(** The map widget, seen as the set of line layers registered on it
    ([map.hasLayer]).  [layer.addTo(map)] registers a layer, and has no
    effect when it is registered already; [map.removeLayer(layer)] and
    [layer.remove()] take it off.  A layer is registered before the
    library tries to place it, so one that cannot be placed is on the map
    when the exception leaves [addTo]. *)
Definition map := gset layer.

Definition addTo (l : layer) (m : map) : map := {[l]} ∪ m.
Definition removeLayer (m : map) (l : layer) : map := m ∖ {[l]}.

(** [new LatLng(lat, lng)], which [L.polyline] runs on every point, throws
    [Invalid LatLng object] for a NaN. *)
Definition latLng (p : Num.number * Num.number) : bool :=
  match p with
  | (S754_nan, _) | (_, S754_nan) => false
  | _ => true
  end.
End Leaflet.

(** How a call ends, by returning or by an exception, with what it leaves
    behind.  The refs are mutated in place: what a call wrote before it
    threw stays written. *)
Inductive Outcome (A : Type) : Type :=
  | Returns (a : A)
  | Throws (a : A).

Arguments Returns {A} a.
Arguments Throws {A} a.

Definition after {A} (o : Outcome A) : A :=
  match o with Returns a | Throws a => a end.

Definition throws {A} (o : Outcome A) : bool :=
  match o with Returns _ => false | Throws _ => true end.

Definition lift {A B} (f : A -> B) (o : Outcome A) : Outcome B :=
  match o with Returns a => Returns (f a) | Throws a => Throws (f a) end.

(** [for (const x of xs) f(x)] and [xs.forEach(f)]: the first exception
    ends the loop. *)
Fixpoint forEach {S A} (f : S -> A -> Outcome S) (s : S) (xs : list A)
  : Outcome S :=
  match xs with
  | [] => Returns s
  | x :: xs' =>
      match f s x with
      | Returns s' => forEach f s' xs'
      | Throws s' => Throws s'
      end
  end.

(** An entry of the layer table.  [positioned] tells whether the marker
    was made with a point: [L.circleMarker(undefined)] makes a marker the
    library cannot place. *)
Record LineLayers : Set := mkLayers {
  polyline : Leaflet.layer;
  marker : Leaflet.layer;
  positioned : bool
}.

(** The layer table is a plain object, [{}].  What [table[key]] finds is
    the entry stored under the key or, where none is stored, what every
    object inherits from [Object.prototype]: a function or object without
    [polyline] and [marker], under one of the names below. *)
Definition inherited : list string :=
  [ "constructor"; "hasOwnProperty"; "isPrototypeOf"; "propertyIsEnumerable";
    "toLocaleString"; "toString"; "valueOf"; "__proto__";
    "__defineGetter__"; "__defineSetter__"; "__lookupGetter__";
    "__lookupSetter__" ]%string.

Inductive Slot : Set :=
  | Own (layers : LineLayers)
  | Inherited
  | Undefined.

Definition slot (table : gmap string LineLayers) (key : string) : Slot :=
  match table !! key with
  | Some layers => Own layers
  | None => if decide (key ∈ inherited) then Inherited else Undefined
  end.

(** The refs of the component.  [mapRef] is [None] for [null];
    [leafletRef] records whether the library has been loaded; [created]
    counts the layer objects made so far and gives the next one its
    identity. *)
Record Refs : Type := mkRefs {
  mapRef : option Leaflet.map;
  leafletRef : bool;
  layersRef : gmap string LineLayers;
  hiddenLinesRef : gset string;
  created : nat
}.

Definition initialRefs : Refs := mkRefs None false ∅ ∅ 0.

(** [addOrUpdateLineLayer(line)].  The call throws
    - at [existing.polyline.remove], when the table only inherits something
      under the identifier: nothing has been touched;
    - in [L.polyline(line.coords)], when a coordinate is NaN: the old
      layers are off the map, the table still holds them;
    - in [marker.addTo(map)], when the line has no point and is not
      hidden: both new layers are registered on the map, the table has
      not been written. *)
Definition addOrUpdateLineLayer (r : Refs) (line : LTLine) : Outcome Refs :=
  match leafletRef r, mapRef r with
  | true, Some map =>
      match slot (layersRef r) (LTLine.id line) with
      | Inherited => Throws r
      | existing =>
          let map :=
            match existing with
            | Own ex =>
                Leaflet.removeLayer (Leaflet.removeLayer map (polyline ex))
                                    (marker ex)
            | _ => map
            end in
          if forallb Leaflet.latLng (LTLine.coords line) then
            let layers :=
              mkLayers (created r) (S (created r))
                       (bool_decide (is_Some (mid line))) in
            let made := S (S (created r)) in
            if decide (LTLine.id line ∈ hiddenLinesRef r) then
              Returns (mkRefs (Some map) true
                         (<[LTLine.id line := layers]> (layersRef r))
                         (hiddenLinesRef r) made)
            else
              let map :=
                Leaflet.addTo (marker layers)
                              (Leaflet.addTo (polyline layers) map) in
              if positioned layers then
                Returns (mkRefs (Some map) true
                           (<[LTLine.id line := layers]> (layersRef r))
                           (hiddenLinesRef r) made)
              else
                Throws (mkRefs (Some map) true (layersRef r)
                          (hiddenLinesRef r) made)
          else
            Throws (mkRefs (Some map) true (layersRef r) (hiddenLinesRef r)
                      (created r))
      end
  | _, _ => Returns r
  end.

(** [leafletRef.current = L], once the library has arrived. *)
Definition setLeaflet (r : Refs) : Refs :=
  mkRefs (mapRef r) true (layersRef r) (hiddenLinesRef r) (created r).

(** [initMap(L)]: nothing if a map exists, else a new map and the lines
    drawn one after the other.  [Throws] stands for a [try] block left by
    an exception: the [catch] block raises the error banner, and the rest
    of the block (the remaining lines, the [focus] handler) is skipped.
    ([L.map] is taken to succeed; the tile layer, the viewport fit and
    the banner itself are left out.) *)
Definition initMap (ls : list LTLine) (r : Refs) : Outcome Refs :=
  match mapRef r with
  | Some _ => Returns r
  | None =>
      forEach addOrUpdateLineLayer
        (mkRefs (Some ∅) (leafletRef r) (layersRef r) (hiddenLinesRef r)
                (created r)) ls
  end.

(** The effect that runs whenever [lines] changes; nothing catches what
    it throws. *)
Definition syncLayers (ls : list LTLine) (r : Refs) : Outcome Refs :=
  match mapRef r, leafletRef r with
  | Some _, true => forEach addOrUpdateLineLayer r ls
  | _, _ => Returns r
  end.

(** [toggleLineVisibility(lineId, visible)].  The guard [!layers] lets an
    inherited name through: the hidden set is written, and the call
    throws on [layers.polyline], which is [undefined].  With an entry of
    its own the call throws only in [marker.addTo(map)], for a marker
    without a point that is not on the map yet. *)
Definition toggleLineVisibility (lineId : string) (visible : bool) (r : Refs)
  : Outcome Refs :=
  match mapRef r with
  | None => Returns r
  | Some map =>
      match slot (layersRef r) lineId with
      | Undefined => Returns r
      | Inherited =>
          Throws (mkRefs (Some map) (leafletRef r) (layersRef r)
                    (if visible then hiddenLinesRef r ∖ {[lineId]}
                     else {[lineId]} ∪ hiddenLinesRef r)
                    (created r))
      | Own layers =>
          if visible then
            let shown := Leaflet.addTo (polyline layers) map in
            let r' :=
              mkRefs (Some (Leaflet.addTo (marker layers) shown))
                     (leafletRef r) (layersRef r)
                     (hiddenLinesRef r ∖ {[lineId]}) (created r) in
            if positioned layers || bool_decide (marker layers ∈ shown)
            then Returns r' else Throws r'
          else
            Returns (mkRefs (Some (Leaflet.removeLayer
                                     (Leaflet.removeLayer map (polyline layers))
                                     (marker layers)))
                            (leafletRef r) (layersRef r)
                            ({[lineId]} ∪ hiddenLinesRef r) (created r))
      end
  end.

(** A line the drawing code gets through whatever the refs: its
    identifier is none of the inherited names, it has a point, and no
    coordinate is NaN. *)
Definition drawable (line : LTLine) : bool :=
  bool_decide (LTLine.id line ∉ inherited)
  && bool_decide (is_Some (mid line))
  && forallb Leaflet.latLng (LTLine.coords line).

(** The states the refs can be in while every line handed to the drawing
    code is [drawable]: what the writers above make of the initial refs,
    the calls of [toggleLineVisibility] that throw included. *)
Inductive reachable : Refs -> Prop :=
  | reach_init : reachable initialRefs
  | reach_leaflet r : reachable r -> reachable (setLeaflet r)
  | reach_initMap ls r :
      Forall (fun l => drawable l = true) ls -> reachable r ->
      reachable (after (initMap ls r))
  | reach_sync ls r :
      Forall (fun l => drawable l = true) ls -> reachable r ->
      reachable (after (syncLayers ls r))
  | reach_toggle lineId visible r :
      reachable r -> reachable (after (toggleLineVisibility lineId visible r)).

(** ** Normal form of a binary64 value *)

(** The binary64 value [N * 2^E], its mantissa brought to 53 bits. *)
Definition canon (N : positive) (E : Z) : number :=
  let d := Z.pos (digits2_pos N) in
  S754_finite false (Z.to_pos (Z.pos N * 2 ^ (53 - d))) (E + d - 53).

(** ** Vocabulary of the statements *)

(** The arguments of one [addNotification] call, with what it read. *)
Record Call : Type := mkCall {
  call_stamp : Stamp;
  call_lineId : string;
  call_message : string;
  call_status : LineStatus
}.

Definition call_item (c : Call) : NotificationItem :=
  new_item (call_stamp c) (call_lineId c) (call_message c) (call_status c).

Definition call (c : Call) (st : State) : State :=
  addNotification (call_stamp c) (call_lineId c) (call_message c)
                  (call_status c) st.

(** A sequence of calls, first call first. *)
Definition addNotifications (cs : list Call) (st : State) : State :=
  foldl (fun st c => call c st) st cs.

(** [s] occurs in [t]. *)
Definition contains (s t : string) : Prop :=
  exists a b, t = a +:+ s +:+ b.

(** The rows the export is expected to consist of. *)
Definition header_row : string :=
  quoted "Line ID" +:+ "," +:+ quoted "Name" +:+ "," +:+ quoted "Status".

Definition line_row (l : LTLine) : string :=
  quoted (LTLine.id l) +:+ "," +:+ quoted (LTLine.name l) +:+ ","
  +:+ quoted (status_text (LTLine.status l)).

(** [s.split("\n")] *)
Fixpoint split_rows (s : string) : list string :=
  match s with
  | EmptyString => [EmptyString]
  | String c s' =>
      if Ascii.eqb c "010"%char then EmptyString :: split_rows s'
      else match split_rows s' with
           | r :: rs => String c r :: rs
           | [] => [String c EmptyString]
           end
  end.

Fixpoint no_newline (s : string) : bool :=
  match s with
  | EmptyString => true
  | String c s' => negb (Ascii.eqb c "010"%char) && no_newline s'
  end.

(** Writes a text with ['] where the file has a double quote. *)
Fixpoint primed (s : string) : string :=
  match s with
  | EmptyString => EmptyString
  | String c s' =>
      String (if Ascii.eqb c "'"%char then "034"%char else c) (primed s')
  end.

(** The export of the seed lines, character by character. *)
Definition seed_csv : string :=
  primed "'Line ID','Name','Status'
'lt-1','LT Line - Trivandrum North','Healthy'
'lt-2','LT Line - Kochi Coastal','Healthy'
'lt-3','LT Line - Kozhikode Rural','Shutoff'".

(** ** Sample inputs *)

Definition all_fault_state : State :=
  mkState ((fun l => LTLine.with_status l Fault) <$> initialLines) [].

(** The refs once the library is loaded and the map drawn. *)
Definition drawn_refs : Refs :=
  after (initMap initialLines (setLeaflet initialRefs)).

Definition sample_stamp : Stamp := mkStamp 1730534400000 "0.25" 1730534400001.

Definition seed_state : State := mkState initialLines [].

(** One Healthy line among nine Shutoff ones: the exact quotient is 9.95. *)
Definition tie_lines : list LTLine :=
  LTLine.mk "lt-1" "Feeder 1" [] Healthy
  :: ((fun k => LTLine.mk ("lt-" +:+ Num.string_of_Z (Z.of_nat k))
                          "Feeder" [] Shutoff) <$> seq 2 9).

(** Twenty-five status changes of the first seed line, one per second. *)
Definition sample_calls : list Call :=
  (fun k => mkCall (mkStamp (Z.of_nat k * 1000) "0.5" (Z.of_nat k * 1000))
                   "lt-1" "LT Line - Trivandrum North status changed to Fault"
                   Fault) <$> seq 0 25.

(** * Further parts of the component *)

(** ** Rendering a notification *)

(** The heading of a log entry:
    [lines.find((l) => l.id === n.lineId)?.name || "System"]. *)
Definition notificationTitle (ls : list LTLine) (n : NotificationItem) : string :=
  match list_find (fun l => LTLine.id l = NotificationItem.lineId n) ls with
  | Some (_, l) =>
      if decide (LTLine.name l = EmptyString) then "System" else LTLine.name l
  | None => "System"
  end.

(** ** Fields the export can carry unharmed *)

(** A text without newline and without double quote. *)
Fixpoint plain (s : string) : bool :=
  match s with
  | EmptyString => true
  | String c s' =>
      negb (Ascii.eqb c "010"%char) && negb (Ascii.eqb c "034"%char) && plain s'
  end.

(** What the export writes of a line. *)
Definition exported (l : LTLine) : string * string * LineStatus :=
  (LTLine.id l, LTLine.name l, LTLine.status l).

(** ** The map and the layer table in step *)

(** The two layer objects of a line. *)
Definition layer_set (ly : LineLayers) : gset Leaflet.layer :=
  {[polyline ly; marker ly]}.

(** Layer objects are older than the counter and belong to one line each;
    without a map there are no layers; the map shows the layers of the
    lines that are not hidden, and nothing else; no entry is stored under
    an inherited name, and every marker has its point. *)
Definition in_step (r : Refs) : Prop :=
  (forall id ly x, layersRef r !! id = Some ly -> x ∈ layer_set ly ->
                   (x < created r)%nat)
  /\ (forall id id' ly ly',
        layersRef r !! id = Some ly -> layersRef r !! id' = Some ly' ->
        id <> id' -> layer_set ly ## layer_set ly')
  /\ (mapRef r = None -> layersRef r = ∅)
  /\ (forall map, mapRef r = Some map ->
        (forall id ly x, layersRef r !! id = Some ly -> x ∈ layer_set ly ->
                         (x ∈ map <-> id ∉ hiddenLinesRef r))
        /\ (forall x, x ∈ map ->
              exists id ly, layersRef r !! id = Some ly /\ x ∈ layer_set ly))
  /\ (forall id ly, layersRef r !! id = Some ly ->
        (id ∉ inherited) /\ positioned ly = true).


(** The refs a call of [toggleLineVisibility] leaves when the table holds
    [layers] for the line, whether the call returns or throws. *)
Definition turned (lineId : string) (visible : bool) (layers : LineLayers)
    (map : Leaflet.map) (r : Refs) : Refs :=
  mkRefs
    (Some (if visible
           then Leaflet.addTo (marker layers)
                  (Leaflet.addTo (polyline layers) map)
           else Leaflet.removeLayer (Leaflet.removeLayer map (polyline layers))
                                    (marker layers)))
    (leafletRef r) (layersRef r)
    (if visible then hiddenLinesRef r ∖ {[lineId]}
     else {[lineId]} ∪ hiddenLinesRef r)
    (created r).

(** ** The component as a whole *)

(** What the handlers reach: the [useState] cells [lines],
    [notifications] and [selectedLineId], the refs, and whether the
    one-shot [focus] handler of the map is still waiting.  ([mapError]
    and [mapLoaded] only feed the banner and the connection label.) *)
Record App : Type := mkApp {
  app_state : State;
  selectedLineId : string;
  app_refs : Refs;
  focus_waiting : bool
}.

(** The first render: [useState(initialLines)],
    [useState(initialLines[0].id)], [useState([])] and the empty refs. *)
Definition initialApp : App :=
  mkApp (mkState initialLines [])
        (default EmptyString (LTLine.id <$> head initialLines))
        initialRefs false.

(** What can happen to the mounted component.  [SelectLine i] is the
    choice of the [i]-th option of the select, whose options are the
    lines. *)
Inductive Event : Type :=
  | LibraryLoaded
  | RetryMap
  | MapFocus (e : Stamp)
  | SelectLine (i : nat)
  | SetStatus (s : LineStatus) (e : Stamp)
  | ShowLine
  | HideLine
  | Simulate (r : number) (e : Stamp)
  | ClearAll.

Definition hint_message : string := "Map ready. Use + and - to zoom.".

(** [leafletRef.current = L; initMap(L)] with the lines [initMap] closes
    over; a map that is made, and drawn without an exception, registers
    the [focus] handler. *)
Definition load_map (ls : list LTLine) (a : App) : App :=
  let r := setLeaflet (app_refs a) in
  mkApp (app_state a) (selectedLineId a) (after (initMap ls r))
        (match mapRef r, initMap ls r with
         | None, Returns _ => true
         | _, _ => focus_waiting a
         end).

(** A new [lines] array, and the effect that follows it. *)
Definition after_lines (a : App) (st' : State) : Outcome App :=
  lift (fun r => mkApp st' (selectedLineId a) r (focus_waiting a))
       (syncLayers (lines st') (app_refs a)).

(** The Show and Hide buttons. *)
Definition toggle_selected (visible : bool) (a : App) : Outcome App :=
  lift (fun r => mkApp (app_state a) (selectedLineId a) r (focus_waiting a))
       (toggleLineVisibility (selectedLineId a) visible (app_refs a)).

(** The handler (and the effect it triggers) of each event, and whether
    one of the two throws.  The lazy import runs [initMap] of the first
    render, which sees [initialLines]; [retryMap] only adds tiles when
    library and map are there, and loads both otherwise. *)
Definition step (a : App) (ev : Event) : Outcome App :=
  match ev with
  | LibraryLoaded => Returns (load_map initialLines a)
  | RetryMap =>
      match leafletRef (app_refs a), mapRef (app_refs a) with
      | true, Some _ => Returns a
      | _, _ => Returns (load_map (lines (app_state a)) a)
      end
  | MapFocus e =>
      if focus_waiting a then
        Returns
          (mkApp (addNotification e "system" hint_message Healthy (app_state a))
                 (selectedLineId a) (app_refs a) false)
      else Returns a
  | SelectLine i =>
      match lines (app_state a) !! i with
      | Some l => Returns (mkApp (app_state a) (LTLine.id l) (app_refs a)
                                 (focus_waiting a))
      | None => Returns a
      end
  | SetStatus s e =>
      after_lines a (updateLineStatus e (selectedLineId a) s (app_state a))
  | ShowLine => toggle_selected true a
  | HideLine => toggle_selected false a
  | Simulate r e =>
      match pick r (lines (app_state a)) with
      | Some _ => after_lines a (simulateFault r e (app_state a))
      | None => Returns a
      end
  | ClearAll =>
      Returns (mkApp (clearNotifications (app_state a)) (selectedLineId a)
                     (app_refs a) (focus_waiting a))
  end.

(** The component when the handler and its effect have ended. *)
Definition handle (a : App) (ev : Event) : App := after (step a ev).

(** The component after a sequence of events. *)
Definition run (evs : list Event) : App := foldl handle initialApp evs.

(** What no handler changes of a line. *)
Definition fields (l : LTLine) : string * string * list (number * number) :=
  (LTLine.id l, LTLine.name l, LTLine.coords l).

(** The two kinds of log entry: the hint logged when the map takes the
    focus, and the record of a status change of one of the lines. *)
Definition is_hint (n : NotificationItem) : Prop :=
  NotificationItem.lineId n = "system"%string
  /\ NotificationItem.message n = hint_message
  /\ NotificationItem.status n = Healthy.

Definition is_change (n : NotificationItem) : Prop :=
  NotificationItem.lineId n ∈ LTLine.id <$> initialLines
  /\ NotificationItem.message n
     = change_message (lineName initialLines (NotificationItem.lineId n))
                      (NotificationItem.status n).

Definition hints (ns : list NotificationItem) : nat :=
  length (filter (fun n => NotificationItem.lineId n = "system"%string) ns).

(** What holds of the component after every sequence of events. *)
Definition app_ok (a : App) : Prop :=
  let st := app_state a in
  let r := app_refs a in
  fields <$> lines st = fields <$> initialLines
  /\ selectedLineId a ∈ LTLine.id <$> initialLines
  /\ (length (notifications st) <= 20)%nat
  /\ Forall (fun n => is_hint n \/ is_change n) (notifications st)
  /\ (forall l i n,
        l ∈ lines st ->
        list_find (fun n => NotificationItem.lineId n = LTLine.id l)
                  (notifications st) = Some (i, n) ->
        NotificationItem.status n = LTLine.status l)
  /\ reachable r
  /\ (is_Some (mapRef r) ->
      leafletRef r = true
      /\ forall id, id ∈ LTLine.id <$> initialLines ->
                    is_Some (layersRef r !! id))
  /\ (hints (notifications st) + (if focus_waiting a then 1 else 0) <= 1)%nat
  /\ (mapRef r = None ->
      hints (notifications st) = 0%nat /\ focus_waiting a = false).

(** ** What [Math.random()] returns *)

(** A binary64 value in the interval from 0 (included) to 1 (excluded):
    a zero, or a positive value [m * 2^e] below 1 with a mantissa of at
    most 53 bits and an exponent a binary64 can have. *)
Definition unit_interval (r : number) : bool :=
  match r with
  | S754_zero _ => true
  | S754_finite false m e =>
      (Z.pos m <? 2 ^ 53) && (-1074 <=? e) && (Z.pos m <? 2 ^ (- e))
  | _ => false
  end.

(** The button pressed once for every pair of a random value and a
    stamp, in order. *)
Definition simulateFaults (rs : list (number * Stamp)) (st : State) : State :=
  foldl (fun st p => simulateFault p.1 p.2 st) st rs.

(** * Properties *)

Implicit Types (ls : list LTLine) (l : LTLine) (st : State).

(** ** Binary64 arithmetic

    What [SFmul], [SFadd] and [SFdiv] compute on the numbers of the
    report: products and sums that fit in 53 bits are exact, a quotient
    is within half a unit in the last place of the exact one. *)

Section Binary64.

(** [digits2_pos] counts the bits of a positive number. *)
Lemma digits_size p : digits2_pos p = Pos.size p.
Proof. induction p; simpl; congruence. Qed.

Lemma digits_log2 p : Z.pos (digits2_pos p) = Z.log2 (Z.pos p) + 1.
Proof. destruct p; simpl; rewrite ?digits_size; lia. Qed.

Lemma digits_spec p :
  2 ^ (Z.pos (digits2_pos p) - 1) <= Z.pos p < 2 ^ Z.pos (digits2_pos p).
Proof.
  rewrite digits_log2. replace (Z.log2 (Z.pos p) + 1 - 1) with (Z.log2 (Z.pos p)) by lia.
  apply Z.log2_spec. lia.
Qed.

Lemma digits_unique p d :
  2 ^ (d - 1) <= Z.pos p < 2 ^ d -> Z.pos (digits2_pos p) = d.
Proof.
  intros H. rewrite digits_log2.
  assert (0 <= d - 1).
  { destruct (Z.le_gt_cases 0 (d - 1)) as [|Hn]; [assumption|].
    assert (2 ^ d <= 1); [|lia].
    destruct (Z.eq_dec d 0) as [->|]; [simpl; lia|].
    rewrite Z.pow_neg_r by lia. lia. }
  rewrite (Z.log2_unique (Z.pos p) (d - 1)); [lia|lia|].
  replace (Z.succ (d - 1)) with d by lia. exact H.
Qed.

Lemma digits_shift p k :
  0 <= k -> Z.log2 (Z.pos p * 2 ^ k) + 1 = Z.pos (digits2_pos p) + k.
Proof.
  intros Hk. rewrite Z.log2_mul_pow2 by lia. rewrite digits_log2. lia.
Qed.

(** Dropping a zero bit loses nothing. *)
Lemma shr_1_even m :
  0 <= m -> shr_1 (Build_shr_record (2 * m) false false) = Build_shr_record m false false.
Proof. intros H. destruct m; [reflexivity|reflexivity|lia]. Qed.

Lemma pow2_xI k : 2 ^ Z.pos k~1 = 2 * (2 ^ Z.pos k * 2 ^ Z.pos k).
Proof.
  replace (Z.pos k~1) with (Z.pos k + Z.pos k + 1) by lia.
  rewrite !Z.pow_add_r by lia. change (2 ^ 1) with 2. ring.
Qed.

Lemma pow2_xO k : 2 ^ Z.pos k~0 = 2 ^ Z.pos k * 2 ^ Z.pos k.
Proof.
  replace (Z.pos k~0) with (Z.pos k + Z.pos k) by lia.
  now rewrite Z.pow_add_r by lia.
Qed.

(** Dropping [k] zero bits loses nothing. *)
Lemma shr_exact k : forall m, 0 <= m ->
  SpecFloat.iter_pos shr_1 k (Build_shr_record (m * 2 ^ Z.pos k) false false)
  = Build_shr_record m false false.
Proof.
  induction k as [k IH|k IH|]; intros m Hm.
  - replace (m * 2 ^ Z.pos k~1) with (2 * ((m * 2 ^ Z.pos k) * 2 ^ Z.pos k))
      by (rewrite pow2_xI; ring).
    change (SpecFloat.iter_pos shr_1 k~1 ?x)
      with (SpecFloat.iter_pos shr_1 k (SpecFloat.iter_pos shr_1 k (shr_1 x))).
    rewrite shr_1_even by lia. rewrite IH by lia. now rewrite IH.
  - replace (m * 2 ^ Z.pos k~0) with ((m * 2 ^ Z.pos k) * 2 ^ Z.pos k)
      by (rewrite pow2_xO; ring).
    change (SpecFloat.iter_pos shr_1 k~0 ?x)
      with (SpecFloat.iter_pos shr_1 k (SpecFloat.iter_pos shr_1 k x)).
    rewrite IH by lia. now rewrite IH.
  - rewrite Z.mul_comm. apply shr_1_even; lia.
Qed.

(** Away from the subnormal range the exponent of a [d]-bit number leaves
    53 bits of mantissa. *)
Lemma fexp_normal d : -1074 <= d - 53 -> fexp Num.prec Num.emax d = d - 53.
Proof. unfold fexp, emin, Num.prec, Num.emax. lia. Qed.

(** Shifting down to 53 bits a mantissa whose low bits are zero. *)
Lemma shr_fexp_exact (M : Z) (k e : Z) :
  0 <= k -> 2 ^ 52 <= M < 2 ^ 53 -> -1074 <= e + k ->
  shr_fexp Num.prec Num.emax (M * 2 ^ k) e loc_Exact
  = (Build_shr_record M false false, e + k).
Proof.
  intros Hk HM He.
  assert (Hpos : 0 < M * 2 ^ k) by (apply Z.mul_pos_pos; [lia | apply Z.pow_pos_nonneg; lia]).
  assert (Hd : Zdigits2 (M * 2 ^ k) = 53 + k).
  { destruct (M * 2 ^ k) as [|p|p] eqn:E; try lia.
    simpl Zdigits2. rewrite digits_log2, <- E.
    rewrite Z.log2_mul_pow2 by lia.
    rewrite (Z.log2_unique M 52); lia. }
  unfold shr_fexp. rewrite Hd, fexp_normal by lia.
  replace (53 + k + e - 53 - e) with k by lia.
  unfold shr, shr_record_of_loc.
  destruct k as [|p|p]; [|rewrite shr_exact by lia; reflexivity|lia].
  now rewrite Z.mul_1_r, Z.add_0_r.
Qed.

Lemma canon_eq (N : positive) (E : Z) (M : positive) :
  Z.pos M = Z.pos N * 2 ^ (53 - Z.pos (digits2_pos N)) ->
  canon N E = S754_finite false M (E + Z.pos (digits2_pos N) - 53).
Proof. intros H. unfold canon. now rewrite <- H, Pos2Z.id. Qed.

Lemma canon_mantissa (N : positive) :
  Z.pos (digits2_pos N) <= 53 ->
  2 ^ 52 <= Z.pos N * 2 ^ (53 - Z.pos (digits2_pos N)) < 2 ^ 53.
Proof.
  intros Hd. pose proof (digits_spec N) as [Hlo Hhi].
  set (d := Z.pos (digits2_pos N)) in *.
  assert (Hd1 : 0 < d) by (unfold d; lia).
  assert (E52 : 2 ^ 52 = 2 ^ (d - 1) * 2 ^ (53 - d))
    by (rewrite <- Z.pow_add_r by lia; f_equal; lia).
  assert (E53 : 2 ^ 53 = 2 ^ d * 2 ^ (53 - d))
    by (rewrite <- Z.pow_add_r by lia; f_equal; lia).
  assert (0 < 2 ^ (53 - d)) by (apply Z.pow_pos_nonneg; lia).
  rewrite E52, E53.
  split; [apply Z.mul_le_mono_nonneg_r | apply Z.mul_lt_mono_pos_r]; lia.
Qed.

(** Rounding a value that fits in 53 bits: [Sg = N * 2^(E - e)]. *)
Lemma round_exact (Sg N : positive) (e E : Z) :
  Z.pos Sg = Z.pos N * 2 ^ (E - e) ->
  Z.pos (digits2_pos N) <= 53 <= Z.pos (digits2_pos N) + (E - e) ->
  0 <= E - e ->
  -1074 <= E + Z.pos (digits2_pos N) - 53 <= 971 ->
  binary_round_aux Num.prec Num.emax false (Z.pos Sg) e loc_Exact = canon N E.
Proof.
  intros HS Hd HeE Hr.
  pose proof (canon_mantissa N ltac:(lia)) as HM.
  set (dN := Z.pos (digits2_pos N)) in *.
  set (M := Z.pos N * 2 ^ (53 - dN)) in *.
  set (k := dN + (E - e) - 53).
  assert (HSM : Z.pos Sg = M * 2 ^ k).
  { rewrite HS. unfold M, k. rewrite <- Z.mul_assoc, <- Z.pow_add_r by lia.
    do 2 f_equal. lia. }
  unfold binary_round_aux. rewrite HSM, (shr_fexp_exact M k e) by lia.
  cbn [shr_m loc_of_shr_record round_nearest_even].
  rewrite <- (Z.mul_1_r M) at 1. change 1 with (2 ^ 0) at 1.
  rewrite (shr_fexp_exact M 0 (e + k)) by lia.
  cbn [shr_m].
  destruct M as [|m|m] eqn:EM; try lia.
  rewrite (canon_eq N E m) by (fold dN; lia).
  replace (e + k + 0) with (E + dN - 53) by (unfold k; lia).
  destruct (Z.leb_spec (E + dN - 53) (Num.emax - Num.prec)) as [_|Hbad]; [reflexivity|].
  unfold Num.emax, Num.prec in Hbad. lia.
Qed.

Lemma digits_lower (p : positive) (x : Z) :
  2 ^ x <= Z.pos p -> x < Z.pos (digits2_pos p).
Proof.
  intros H. pose proof (digits_spec p) as [_ Hhi].
  destruct (Z.lt_ge_cases x (Z.pos (digits2_pos p))) as [|Hge]; [assumption|].
  assert (2 ^ Z.pos (digits2_pos p) <= 2 ^ x) by (apply Z.pow_le_mono_r; lia).
  lia.
Qed.

Lemma digits_upper (p : positive) (x : Z) :
  0 <= x -> Z.pos p < 2 ^ x -> Z.pos (digits2_pos p) <= x.
Proof.
  intros Hx H. pose proof (digits_spec p) as [Hlo _].
  destruct (Z.le_gt_cases (Z.pos (digits2_pos p)) x) as [|Hgt]; [assumption|].
  assert (2 ^ x <= 2 ^ (Z.pos (digits2_pos p) - 1)) by (apply Z.pow_le_mono_r; lia).
  lia.
Qed.

Lemma iter_xO (s p : positive) :
  Z.pos (Pos.iter xO p s) = Z.pos p * 2 ^ Z.pos s.
Proof.
  change (Pos.iter xO p s) with (shift_pos s p).
  rewrite shift_pos_correct. rewrite Zpower_pos_nat, Zpower_nat_Z.
  rewrite positive_nat_Z. ring.
Qed.

Lemma shl_align_fst (mx : positive) (ex ez : Z) :
  ez <= ex -> Z.pos (fst (shl_align mx ex ez)) = Z.pos mx * 2 ^ (ex - ez).
Proof.
  intros H. unfold shl_align.
  destruct (ez - ex) as [|d|d] eqn:E; try lia.
  - replace (ex - ez) with 0 by lia. simpl fst. lia.
  - simpl fst. rewrite iter_xO. do 2 f_equal. lia.
Qed.

Lemma shl_align_snd (mx : positive) (ex ez : Z) :
  ez <= ex -> snd (shl_align mx ex ez) = ez.
Proof.
  intros H. unfold shl_align.
  destruct (ez - ex) as [|d|d] eqn:E; simpl; lia.
Qed.

Lemma shl_align_keep (mx : positive) (ex ez : Z) :
  ex <= ez -> shl_align mx ex ez = (mx, ex).
Proof.
  intros H. unfold shl_align.
  destruct (ez - ex) as [|d|d] eqn:E; try reflexivity; lia.
Qed.

(** The same for [binary_round], which first brings short mantissas up to
    53 bits. *)
Lemma binary_round_canon (Sg N : positive) (e E : Z) :
  Z.pos Sg = Z.pos N * 2 ^ (E - e) ->
  0 <= E - e ->
  Z.pos (digits2_pos N) <= 53 ->
  -1074 <= E + Z.pos (digits2_pos N) - 53 <= 971 ->
  binary_round Num.prec Num.emax false Sg e = canon N E.
Proof.
  intros HS HeE Hd Hr.
  assert (HdS : Z.pos (digits2_pos Sg) = Z.pos (digits2_pos N) + (E - e)).
  { rewrite digits_log2, HS. apply digits_shift. lia. }
  unfold binary_round.
  rewrite fexp_normal by lia.
  destruct (Z.le_gt_cases e (Z.pos (digits2_pos Sg) + e - 53)) as [Hle|Hgt].
  - rewrite shl_align_keep by lia. apply round_exact; lia.
  - pose proof (shl_align_fst Sg e (Z.pos (digits2_pos Sg) + e - 53) ltac:(lia)) as Hf.
    pose proof (shl_align_snd Sg e (Z.pos (digits2_pos Sg) + e - 53) ltac:(lia)) as Hs.
    destruct (shl_align Sg e (Z.pos (digits2_pos Sg) + e - 53)) as [mz ez].
    simpl in Hf, Hs. subst ez.
    apply round_exact; try lia.
    rewrite Hf, HS, <- Z.mul_assoc, <- Z.pow_add_r by lia.
    do 2 f_equal. lia.
Qed.

(** An integer of at most 53 bits is represented exactly. *)
Lemma ofZ_canon (p : positive) :
  Z.pos (digits2_pos p) <= 53 -> Num.ofZ (Z.pos p) = canon p 0.
Proof.
  intros Hd. unfold Num.ofZ, binary_normalize.
  pose proof (Pos2Z.is_pos (digits2_pos p)).
  apply binary_round_canon; lia.
Qed.

Lemma canon_pos_mantissa (N : positive) (E : Z) :
  Z.pos (digits2_pos N) <= 53 ->
  exists m, canon N E = S754_finite false m (E + Z.pos (digits2_pos N) - 53)
            /\ Z.pos m = Z.pos N * 2 ^ (53 - Z.pos (digits2_pos N))
            /\ 2 ^ 52 <= Z.pos m < 2 ^ 53.
Proof.
  intros Hd. pose proof (canon_mantissa N Hd) as HM.
  exists (Z.to_pos (Z.pos N * 2 ^ (53 - Z.pos (digits2_pos N)))).
  split; [reflexivity|]. rewrite Z2Pos.id by lia. split; [reflexivity|exact HM].
Qed.

(** A product that fits in 53 bits is exact. *)
Lemma mul_canon (a b : positive) (ea eb : Z) :
  Z.pos (digits2_pos (a * b)) <= 53 ->
  -1074 <= ea + eb + Z.pos (digits2_pos (a * b)) - 53 <= 971 ->
  Num.mul (canon a ea) (canon b eb) = canon (a * b) (ea + eb).
Proof.
  intros Hd Hr.
  pose proof (digits_spec a) as [Hla Hha]. pose proof (digits_spec b) as [Hlb Hhb].
  pose proof (digits_spec (a * b)) as [Hlab Hhab].
  set (da := Z.pos (digits2_pos a)) in *. set (db := Z.pos (digits2_pos b)) in *.
  assert (Hda0 : 0 < da) by (unfold da; lia).
  assert (Hdb0 : 0 < db) by (unfold db; lia).
  assert (Hlow : da + db - 2 < Z.pos (digits2_pos (a * b))).
  { apply digits_lower. rewrite Pos2Z.inj_mul.
    replace (da + db - 2) with ((da - 1) + (db - 1)) by lia.
    rewrite Z.pow_add_r by lia.
    apply Z.mul_le_mono_nonneg; try lia; apply Z.pow_nonneg; lia. }
  assert (Hda : da <= 53).
  { apply digits_upper; [lia|].
    apply Z.lt_le_trans with (2 ^ Z.pos (digits2_pos (a * b))).
    - rewrite Pos2Z.inj_mul in Hhab. nia.
    - apply Z.pow_le_mono_r; lia. }
  assert (Hdb : db <= 53).
  { apply digits_upper; [lia|].
    apply Z.lt_le_trans with (2 ^ Z.pos (digits2_pos (a * b))).
    - rewrite Pos2Z.inj_mul in Hhab. nia.
    - apply Z.pow_le_mono_r; lia. }
  destruct (canon_pos_mantissa a ea Hda) as (ma & -> & Hma & _).
  destruct (canon_pos_mantissa b eb Hdb) as (mb & -> & Hmb & _).
  fold da db in Hma, Hmb |- *.
  unfold Num.mul, SFmul. simpl xorb.
  apply round_exact; try lia.
  rewrite !Pos2Z.inj_mul, Hma, Hmb.
  replace (ea + eb - (ea + da - 53 + (eb + db - 53))) with ((53 - da) + (53 - db)) by lia.
  rewrite Z.pow_add_r by lia. ring.
Qed.

(** A sum that fits in 53 bits is exact. *)
Lemma add_canon (a b c : positive) (ea eb ec : Z) :
  ec <= ea -> ec <= eb ->
  Z.pos c = Z.pos a * 2 ^ (ea - ec) + Z.pos b * 2 ^ (eb - ec) ->
  Z.pos (digits2_pos c) <= 53 ->
  -1074 <= ec + Z.pos (digits2_pos c) - 53 <= 971 ->
  Num.add (canon a ea) (canon b eb) = canon c ec.
Proof.
  intros Hea Heb Hc Hd Hr.
  pose proof (digits_spec a) as [Hla _]. pose proof (digits_spec b) as [Hlb _].
  set (da := Z.pos (digits2_pos a)) in *. set (db := Z.pos (digits2_pos b)) in *.
  set (dc := Z.pos (digits2_pos c)) in *.
  assert (Hda0 : 0 < da) by (unfold da; lia).
  assert (Hdb0 : 0 < db) by (unfold db; lia).
  assert (Hpa : 0 < 2 ^ (ea - ec)) by (apply Z.pow_pos_nonneg; lia).
  assert (Hpb : 0 < 2 ^ (eb - ec)) by (apply Z.pow_pos_nonneg; lia).
  assert (Ha : da + ea - ec <= 53).
  { assert (da - 1 + (ea - ec) < dc); [|lia].
    apply digits_lower. rewrite Z.pow_add_r by lia. nia. }
  assert (Hb : db + eb - ec <= 53).
  { assert (db - 1 + (eb - ec) < dc); [|lia].
    apply digits_lower. rewrite Z.pow_add_r by lia. nia. }
  destruct (canon_pos_mantissa a ea ltac:(fold da; lia)) as (ma & -> & Hma & _).
  destruct (canon_pos_mantissa b eb ltac:(fold db; lia)) as (mb & -> & Hmb & _).
  fold da db in Hma, Hmb |- *.
  set (ex := ea + da - 53). set (ey := eb + db - 53).
  unfold Num.add, SFadd. set (ez := Z.min ex ey).
  assert (Hzx : ez <= ex) by (unfold ez; lia).
  assert (Hzy : ez <= ey) by (unfold ez; lia).
  assert (Hzc : ez <= ec) by (unfold ez, ex; lia).
  pose proof (shl_align_fst ma ex ez Hzx) as Hfa.
  pose proof (shl_align_fst mb ey ez Hzy) as Hfb.
  unfold cond_Zopp.
  change (Z.pos (fst (shl_align ma ex ez)) + Z.pos (fst (shl_align mb ey ez)))
    with (Z.pos (fst (shl_align ma ex ez) + fst (shl_align mb ey ez))).
  unfold binary_normalize.
  apply binary_round_canon; try (fold dc; lia).
  rewrite Pos2Z.inj_add, Hfa, Hfb, Hma, Hmb, Hc.
  rewrite Z.mul_add_distr_r, <- !Z.mul_assoc, <- !Z.pow_add_r by (unfold ex, ey; lia).
  f_equal; do 2 f_equal; unfold ex, ey; lia.
Qed.

(** *** Division *)

(** The location of a remainder [r] of a division by [d] says how [2 * r]
    compares with [d]. *)
Lemma new_location_spec (d r : Z) :
  0 < d -> 0 <= r < d ->
  new_location d r = if r =? 0 then loc_Exact else loc_Inexact (2 * r ?= d).
Proof.
  intros Hd Hr. unfold new_location, new_location_even, new_location_odd.
  destruct (Z.even d) eqn:Ev; [reflexivity|].
  destruct (r =? 0); [reflexivity|]. f_equal.
  assert (Hodd : Z.odd d = true) by (rewrite <- Z.negb_even, Ev; reflexivity).
  apply Z.odd_spec in Hodd as [k Hk].
  destruct (Z.compare_spec (2 * r + 1) d), (Z.compare_spec (2 * r) d);
    try reflexivity; lia.
Qed.

(** Rounding to the nearest integer, read off a location. *)
Lemma round_nearest_even_spec (q d r : Z) :
  0 < d -> 0 <= r < d ->
  let m := round_nearest_even q (new_location d r) in
  (m = q \/ m = q + 1)
  /\ 2 * (m * d) - d <= 2 * (q * d + r) <= 2 * (m * d) + d.
Proof.
  intros Hd Hr m. subst m. rewrite new_location_spec by lia.
  destruct (Z.eqb_spec r 0) as [->|Hr0]; cbn [round_nearest_even]; [lia|].
  destruct (Z.compare_spec (2 * r) d); cbn [round_nearest_even]; [|lia|lia].
  destruct (Z.even q); lia.
Qed.

(** The same after dropping one bit of the quotient. *)
Lemma round_nearest_even_shr (q : positive) (d r : Z) :
  0 < d -> 0 <= r < d -> 2 <= Z.pos q ->
  let mrs := shr_1 (shr_record_of_loc (Z.pos q) (new_location d r)) in
  let m := round_nearest_even (shr_m mrs) (loc_of_shr_record mrs) in
  Z.pos q - 1 <= 2 * m <= Z.pos q + 1
  /\ 2 * (m * d) - d <= Z.pos q * d + r <= 2 * (m * d) + d.
Proof.
  intros Hd Hr Hq mrs m. subst m mrs. rewrite new_location_spec by lia.
  destruct (Z.eqb_spec r 0) as [->|Hr0].
  - destruct q as [p|p|];
      cbn [shr_record_of_loc shr_1 orb shr_m loc_of_shr_record round_nearest_even];
      [|lia|lia].
    destruct (Z.even (Z.pos p)); lia.
  - destruct (Z.compare_spec (2 * r) d); destruct q as [p|p|];
      cbn [shr_record_of_loc shr_1 orb shr_m loc_of_shr_record round_nearest_even];
      lia.
Qed.

Lemma shr_record_of_loc_m m (lc : location) :
  shr_m (shr_record_of_loc m lc) = m.
Proof. destruct lc as [|[ | | ]]; reflexivity. Qed.

Lemma loc_of_shr_record_of_loc m (lc : location) :
  loc_of_shr_record (shr_record_of_loc m lc) = lc.
Proof. destruct lc as [|[ | | ]]; reflexivity. Qed.

(** The last step of a rounding: a rounded mantissa of 53 bits is kept, the
    one that reached [2^53] is halved. *)
Lemma round_finish (m1 e1 : Z) :
  2 ^ 52 <= m1 <= 2 ^ 53 -> -1074 <= e1 <= 970 ->
  exists m2 e2,
    (let '(mrs, e) := shr_fexp Num.prec Num.emax m1 e1 loc_Exact in
     match shr_m mrs with
     | Z0 => S754_zero false
     | Zpos m => if e <=? Num.emax - Num.prec then S754_finite false m e
                 else S754_infinity false
     | Zneg _ => S754_nan
     end) = S754_finite false m2 e2
    /\ e1 <= e2 <= e1 + 1
    /\ 2 ^ 52 <= Z.pos m2 < 2 ^ 53
    /\ Z.pos m2 * 2 ^ (e2 - e1) = m1.
Proof.
  intros Hm He.
  destruct (Z.eq_dec m1 (2 ^ 53)) as [->|Hne].
  - exists (Z.to_pos (2 ^ 52)), (e1 + 1).
    change (2 ^ 53) with (2 ^ 52 * 2 ^ 1) at 1.
    rewrite (shr_fexp_exact (2 ^ 52) 1 e1) by lia.
    cbn [shr_m]. change (2 ^ 52) with (Z.pos (Z.to_pos (2 ^ 52))) at 1.
    cbv iota.
    destruct (Z.leb_spec (e1 + 1) (Num.emax - Num.prec)) as [_|Hbad];
      [|unfold Num.emax, Num.prec in Hbad; lia].
    split; [reflexivity|]. split; [lia|].
    replace (e1 + 1 - e1) with 1 by lia. split; [|reflexivity].
    rewrite Z2Pos.id by lia. lia.
  - exists (Z.to_pos m1), e1.
    rewrite <- (Z.mul_1_r m1) at 1. change 1 with (2 ^ 0) at 1.
    rewrite (shr_fexp_exact m1 0 e1) by lia.
    cbn [shr_m]. rewrite Z.add_0_r.
    destruct m1 as [|p|p] eqn:E; try lia.
    destruct (Z.leb_spec e1 (Num.emax - Num.prec)) as [_|Hbad];
      [|unfold Num.emax, Num.prec in Hbad; lia].
    split; [reflexivity|]. split; [lia|].
    rewrite Z.sub_diag, Z.mul_1_r. simpl Z.to_pos. split; [lia|reflexivity].
Qed.

Lemma digits_53 (q : positive) :
  2 ^ 52 <= Z.pos q < 2 ^ 53 -> Z.pos (digits2_pos q) = 53.
Proof. intros H. now apply digits_unique. Qed.

Lemma digits_54 (q : positive) :
  2 ^ 53 <= Z.pos q < 2 ^ 54 -> Z.pos (digits2_pos q) = 54.
Proof. intros H. now apply digits_unique. Qed.

(** Rounding a quotient [q + r/d] of 53 or 54 bits. *)
Lemma round_quotient (q : positive) (d r e : Z) :
  0 < d -> 0 <= r < d -> 2 ^ 52 <= Z.pos q < 2 ^ 54 ->
  -1074 <= e <= 960 ->
  exists m2 e2,
    binary_round_aux Num.prec Num.emax false (Z.pos q) e (new_location d r)
    = S754_finite false m2 e2
    /\ e <= e2 <= e + 2
    /\ 2 ^ 52 <= Z.pos m2 < 2 ^ 53
    /\ 2 * (Z.pos m2 * 2 ^ (e2 - e) * d) - 2 ^ (e2 - e) * d
       <= 2 * (Z.pos q * d + r)
       <= 2 * (Z.pos m2 * 2 ^ (e2 - e) * d) + 2 ^ (e2 - e) * d.
Proof.
  intros Hd Hr Hq He. unfold binary_round_aux.
  destruct (Z.lt_ge_cases (Z.pos q) (2 ^ 53)) as [Hlt|Hge].
  - unfold shr_fexp at 1. cbn [Zdigits2].
    rewrite digits_53, fexp_normal by lia.
    replace (53 + e - 53 - e) with 0 by lia. cbn [shr].
    rewrite shr_record_of_loc_m, loc_of_shr_record_of_loc.
    destruct (round_nearest_even_spec (Z.pos q) d r Hd Hr) as [Hm Hb].
    set (m1 := round_nearest_even (Z.pos q) (new_location d r)) in *.
    destruct (round_finish m1 e ltac:(lia) ltac:(lia))
      as (m2 & e2 & -> & He2 & Hm2 & Hv).
    exists m2, e2. split; [reflexivity|]. split; [lia|]. split; [exact Hm2|].
    rewrite Hv.
    assert (0 < 2 ^ (e2 - e)) by (apply Z.pow_pos_nonneg; lia).
    assert (d <= 2 ^ (e2 - e) * d) by nia.
    lia.
  - unfold shr_fexp at 1. cbn [Zdigits2].
    rewrite digits_54, fexp_normal by lia.
    replace (54 + e - 53 - e) with 1 by lia. cbn [shr SpecFloat.iter_pos].
    destruct (round_nearest_even_shr q d r Hd Hr ltac:(lia)) as [Hm Hb].
    set (mrs := shr_1 (shr_record_of_loc (Z.pos q) (new_location d r))) in *.
    set (m1 := round_nearest_even (shr_m mrs) (loc_of_shr_record mrs)) in *.
    destruct (round_finish m1 (e + 1) ltac:(lia) ltac:(lia))
      as (m2 & e2 & -> & He2 & Hm2 & Hv).
    exists m2, e2. split; [reflexivity|]. split; [lia|]. split; [exact Hm2|].
    replace (e2 - e) with ((e2 - (e + 1)) + 1) by lia.
    rewrite Z.pow_add_r by lia. change (2 ^ 1) with 2.
    rewrite (Z.mul_assoc (Z.pos m2)), Hv.
    assert (0 < 2 ^ (e2 - (e + 1))) by (apply Z.pow_pos_nonneg; lia).
    assert (2 ^ (e2 - (e + 1)) <= 2 ^ 1) by (apply Z.pow_le_mono_r; lia).
    change (2 ^ 1) with 2 in *.
    nia.
Qed.

(** The quotient of two normal numbers: a 53-bit mantissa [m2] at an
    exponent [e2] with [m2 * 2^e2] within half a unit in the last place of
    the exact quotient (the inequality is that bound, times the divisor
    and a power of two). *)
Lemma div_canon (a b : positive) (ea eb : Z) :
  let da := Z.pos (digits2_pos a) in
  let db := Z.pos (digits2_pos b) in
  let e' := ea - eb + da - db - 53 in
  da <= 53 -> db <= 53 -> -1074 <= e' <= 960 ->
  exists m2 e2,
    Num.div (canon a ea) (canon b eb) = S754_finite false m2 e2
    /\ e' <= e2 <= e' + 2
    /\ 2 ^ 52 <= Z.pos m2 < 2 ^ 53
    /\ 2 * (Z.pos m2 * 2 ^ (e2 - e') * Z.pos b) - 2 ^ (e2 - e') * Z.pos b
       <= 2 * (Z.pos a * 2 ^ (53 - da + db))
       <= 2 * (Z.pos m2 * 2 ^ (e2 - e') * Z.pos b) + 2 ^ (e2 - e') * Z.pos b.
Proof.
  intros da db e' Hda Hdb He.
  destruct (canon_pos_mantissa a ea Hda) as (ma & -> & Hma & Hra).
  destruct (canon_pos_mantissa b eb Hdb) as (mb & -> & Hmb & Hrb).
  fold da db in Hma, Hmb |- *.
  unfold Num.div, SFdiv, SFdiv_core_binary. cbn [Zdigits2 xorb].
  rewrite !digits_53 by assumption.
  rewrite fexp_normal by (fold e'; lia).
  replace (Z.min (53 + (ea + da - 53) - (53 + (eb + db - 53)) - 53)
                 (ea + da - 53 - (eb + db - 53))) with e' by (unfold e'; lia).
  replace (ea + da - 53 - (eb + db - 53) - e') with 53 by (unfold e'; lia).
  cbv iota. rewrite Z.shiftl_mul_pow2 by lia.
  pose proof (Z_div_mod (Z.pos ma * 2 ^ 53) (Z.pos mb) ltac:(lia)) as Hdm.
  destruct (Z.div_eucl (Z.pos ma * 2 ^ 53) (Z.pos mb)) as [q r].
  destruct Hdm as [Hq Hr].
  assert (Hqr : 2 ^ 52 <= q < 2 ^ 54).
  { change (2 ^ 54) with (2 * 2 ^ 53). change (2 ^ 53) with (2 * 2 ^ 52) in *.
    set (B := 2 ^ 52) in *. assert (0 < B) by (unfold B; lia). clearbody B.
    split.
    - destruct (Z.le_gt_cases B q) as [|Hlt]; [assumption|exfalso].
      assert (Z.pos mb * q <= Z.pos mb * (B - 1)) by (apply Z.mul_le_mono_nonneg_l; lia).
      nia.
    - destruct (Z.lt_ge_cases q (2 * (2 * B))) as [|Hge]; [assumption|exfalso].
      assert (Z.pos mb * (2 * (2 * B)) <= Z.pos mb * q) by (apply Z.mul_le_mono_nonneg_l; lia).
      nia. }
  destruct q as [|q|q]; try lia.
  destruct (round_quotient q (Z.pos mb) r e' ltac:(lia) Hr Hqr He)
    as (m2 & e2 & -> & He2 & Hm2 & Hb).
  exists m2, e2. split; [reflexivity|]. split; [exact He2|]. split; [exact Hm2|].
  set (P := 2 ^ (e2 - e')) in *.
  assert (HP : 0 < P) by (apply Z.pow_pos_nonneg; lia).
  set (sb := 2 ^ (53 - db)) in *.
  assert (Hsb : 0 < sb) by (apply Z.pow_pos_nonneg; lia).
  assert (Hnum : Z.pos mb * Z.pos q + r = Z.pos a * 2 ^ (53 - da + db) * sb).
  { rewrite <- Hq, Hma. unfold sb.
    rewrite <- !Z.mul_assoc, <- !Z.pow_add_r by lia. do 2 f_equal. lia. }
  rewrite (Z.mul_comm (Z.pos q)), Hnum, Hmb in Hb.
  split.
  - apply (Z.mul_le_mono_pos_r _ _ sb Hsb). lia.
  - apply (Z.mul_le_mono_pos_r _ _ sb Hsb). lia.
Qed.
Lemma tenths_close (m W N n : Z) :
  0 < n -> 0 <= N -> 10 * n < W ->
  2 * (m * n) - n <= N * W <= 2 * (m * n) + n ->
  let T := (20 * m + W) / (2 * W) in
  let K := (10 * N + n) / (2 * n) in
  T = K \/ ((10 * N + n) mod (2 * n) = 0 /\ T = K - 1).
Proof.
  intros Hn HN HW Herr T K.
  assert (HT : 2 * W * T <= 20 * m + W < 2 * W * (T + 1)).
  { pose proof (Z.div_mod (20 * m + W) (2 * W) ltac:(lia)) as E.
    pose proof (Z.mod_pos_bound (20 * m + W) (2 * W) ltac:(lia)).
    fold T in E. lia. }
  pose proof (Z.div_mod (10 * N + n) (2 * n) ltac:(lia)) as EK.
  pose proof (Z.mod_pos_bound (10 * N + n) (2 * n) ltac:(lia)) as HR.
  fold K in EK. set (R := (10 * N + n) mod (2 * n)) in *.
  clearbody T K R.
  assert (Hle : T <= K).
  { destruct (Z.le_gt_cases T K) as [|Hgt]; [assumption|exfalso].
    assert (H1 : 2 * W * (K + 1) <= 2 * W * T) by (apply Z.mul_le_mono_nonneg_l; lia).
    assert (H2 : n * (2 * W * (K + 1)) <= n * (20 * m + W)) by (apply Z.mul_le_mono_nonneg_l; lia).
    assert (H3 : W * (2 * n * (K + 1) - (10 * N + n)) <= 10 * n) by nia.
    assert (H4 : W * 1 <= W * (2 * n * (K + 1) - (10 * N + n))) by (apply Z.mul_le_mono_nonneg_l; lia).
    lia. }
  destruct (Z.eq_dec T K) as [|Hne]; [now left|right].
  assert (Hlt : T + 1 <= K) by lia.
  assert (H1 : 2 * W * (T + 1) <= 2 * W * K) by (apply Z.mul_le_mono_nonneg_l; lia).
  assert (H2 : n * (20 * m + W) < n * (2 * W * K)) by (apply Z.mul_lt_mono_pos_l; lia).
  assert (H3 : W * R < 10 * n) by nia.
  assert (HR0 : R = 0).
  { destruct (Z.eq_dec R 0) as [|HRn]; [assumption|exfalso].
    assert (W * 1 <= W * R) by (apply Z.mul_le_mono_nonneg_l; lia). lia. }
  split; [exact HR0|].
  destruct (Z.le_gt_cases (K - 1) T) as [|Hgt]; [lia|exfalso].
  assert (H5 : 2 * W * (T + 1) <= 2 * W * (K - 1)) by (apply Z.mul_le_mono_nonneg_l; lia).
  assert (H6 : n * (20 * m + W) < n * (2 * W * (K - 1)))
    by (apply Z.mul_lt_mono_pos_l; lia).
  nia.
Qed.

(** *** The numerator *)

(** The literals of the formula. *)
Lemma lit_995 : Num.lit 995 1 = canon 199 (-1).
Proof. vm_compute. reflexivity. Qed.

Lemma ofZ_70 : Num.ofZ 70 = canon 70 0.
Proof. vm_compute. reflexivity. Qed.

Lemma canon_double (p : positive) (E : Z) :
  Z.pos (digits2_pos p) <= 52 -> canon (xO p) (E - 1) = canon p E.
Proof.
  intros Hd. unfold canon. cbn [digits2_pos]. rewrite Pos2Z.inj_succ.
  f_equal; [|lia]. f_equal.
  replace (53 - Z.pos (digits2_pos p)) with (1 + (53 - Z.succ (Z.pos (digits2_pos p)))) by lia.
  rewrite Z.pow_add_r by lia. change (2 ^ 1) with 2. lia.
Qed.

Lemma numerator_zero :
  Num.add (Num.mul (Num.ofZ 0) (Num.lit 995 1)) (Num.mul (Num.ofZ 0) (Num.ofZ 70))
  = S754_zero false.
Proof. vm_compute. reflexivity. Qed.

Lemma mul_zero_l (p : positive) (E : Z) :
  Num.mul (Num.ofZ 0) (canon p E) = S754_zero false.
Proof. reflexivity. Qed.

Lemma add_zero_l (p : positive) (E : Z) :
  Num.add (S754_zero false) (canon p E) = canon p E.
Proof. reflexivity. Qed.

Lemma add_zero_r (p : positive) (E : Z) :
  Num.add (canon p E) (S754_zero false) = canon p E.
Proof. reflexivity. Qed.

(** [counts.Healthy * 99.5 + counts.Fault * 70] is computed exactly: it is
    [(199 * h + 140 * f) / 2]. *)
Lemma numerator_canon (h f : Z) :
  0 <= h -> 0 <= f -> 0 < 199 * h + 140 * f < 2 ^ 52 ->
  Num.add (Num.mul (Num.ofZ h) (Num.lit 995 1)) (Num.mul (Num.ofZ f) (Num.ofZ 70))
  = canon (Z.to_pos (199 * h + 140 * f)) (-1).
Proof.
  intros Hh Hf HN. rewrite lit_995, ofZ_70.
  assert (Hmul : forall (p c : positive) (E : Z),
             Z.pos (p * c) < 2 ^ 52 -> -1000 <= E <= 900 ->
             Num.mul (Num.ofZ (Z.pos p)) (canon c E) = canon (p * c) E).
  { intros p c E Hpc HE.
    assert (Hd : Z.pos (digits2_pos (p * c)) <= 52) by (apply digits_upper; lia).
    assert (Hp : Z.pos (digits2_pos p) <= 53).
    { apply digits_upper; [lia|]. rewrite Pos2Z.inj_mul in Hpc. nia. }
    rewrite (ofZ_canon p Hp), mul_canon by lia. reflexivity. }
  destruct h as [|ph|ph], f as [|pf|pf]; try lia.
  - (* no Healthy line *)
    rewrite mul_zero_l, Hmul, add_zero_l by lia.
    assert (E : Z.to_pos (199 * 0 + 140 * Z.pos pf) = xO (pf * 70)) by lia.
    rewrite E. symmetry. apply (canon_double (pf * 70) 0).
    apply digits_upper; lia.
  - (* no Fault line *)
    rewrite mul_zero_l, Hmul, add_zero_r by lia.
    f_equal. lia.
  - rewrite !Hmul by lia.
    apply add_canon; try lia.
    + apply digits_upper; [lia|]. rewrite Z2Pos.id by lia. lia.
    + pose proof (Pos2Z.is_pos (digits2_pos (Z.to_pos (199 * Z.pos ph + 140 * Z.pos pf)))).
      assert (Z.pos (digits2_pos (Z.to_pos (199 * Z.pos ph + 140 * Z.pos pf))) <= 52).
      { apply digits_upper; [lia|]. rewrite Z2Pos.id by lia. lia. }
      lia.
Qed.

(** *** The quotient, shown with one decimal *)

(** The displayed tenths against the exactly rounded ones [K]: equal, or
    one less when the exact quotient is halfway between two decimals. *)
Lemma uptime_close (h f n : Z) :
  0 <= h -> 0 <= f -> h + f <= n -> 0 < n < 2 ^ 32 ->
  let N := 199 * h + 140 * f in
  exists T,
    Num.toFixed1 (uptime_value (Counts.mk h f 0) n) = Some (Num.point1 T)
    /\ (T = (10 * N + n) / (2 * n)
        \/ ((10 * N + n) mod (2 * n) = 0 /\ T = (10 * N + n) / (2 * n) - 1)).
Proof.
  intros Hh Hf Hhf Hn N.
  unfold uptime_value. cbn [Counts.Healthy Counts.Fault].
  destruct n as [|pn|pn]; try lia.
  assert (Hdn : Z.pos (digits2_pos pn) <= 32) by (apply digits_upper; lia).
  rewrite (ofZ_canon pn) by lia.
  destruct (Z.eq_dec N 0) as [HN0|HN0].
  - assert (h = 0) as -> by lia. assert (f = 0) as -> by lia.
    rewrite numerator_zero. exists 0. split; [reflexivity|]. left.
    subst N. symmetry. apply Z.div_small. lia.
  - assert (HN : 0 < N < 2 ^ 52).
    { change (2 ^ 32) with 4294967296 in Hn.
      change (2 ^ 52) with 4503599627370496. lia. }
    rewrite numerator_canon by (fold N; lia). fold N.
    set (pN := Z.to_pos N).
    assert (HpN : Z.pos pN = N) by (unfold pN; rewrite Z2Pos.id; lia).
    pose proof (digits_spec pn) as [Hln Hhn].
    set (dn := Z.pos (digits2_pos pn)) in *.
    assert (Hdn0 : 0 < dn) by (unfold dn; lia).
    assert (HdN : Z.pos (digits2_pos pN) <= dn + 8).
    { apply digits_upper; [lia|]. rewrite HpN, Z.pow_add_r by lia.
      change (2 ^ 8) with 256. lia. }
    assert (HdN0 : 0 < Z.pos (digits2_pos pN)) by lia.
    destruct (div_canon pN pn (-1) 0 ltac:(lia) ltac:(lia) ltac:(lia))
      as (m2 & e2 & -> & He2 & Hm2 & Hb).
    fold dn in He2, Hb.
    set (dN := Z.pos (digits2_pos pN)) in *.
    set (e' := -1 - 0 + dN - dn - 53) in *.
    assert (Hneg : e2 <= -44) by (unfold e'; lia).
    set (W := 2 ^ (- e2)).
    assert (HW : 2 ^ 44 <= W) by (apply Z.pow_le_mono_r; lia).
    assert (HW2 : 2 ^ (1 - e2) = 2 * W).
    { unfold W. replace (1 - e2) with (1 + - e2) by lia.
      rewrite Z.pow_add_r by lia. reflexivity. }
    exists ((20 * Z.pos m2 + W) / (2 * W)). split.
    + unfold Num.toFixed1, Num.huge, Num.tenths.
      destruct (Z.leb_spec 0 e2) as [Hbad|_]; [lia|]. fold W.
      destruct (Z.leb_spec (10 ^ 21 * W) (Z.pos m2)) as [Hbad|_].
      * exfalso. change (2 ^ 44) with 17592186044416 in HW.
        change (2 ^ 53) with 9007199254740992 in Hm2.
        change (10 ^ 21) with 1000000000000000000000 in Hbad. nia.
      * now rewrite HW2.
    + change (2 ^ 32) with 4294967296 in Hn.
      change (2 ^ 44) with 17592186044416 in HW.
      apply tenths_close; try lia.
      set (P := 2 ^ (e2 - e')) in *.
      assert (HP : 0 < P) by (apply Z.pow_pos_nonneg; lia).
      assert (HWP : 2 * 2 ^ (53 - dN + dn) = W * P).
      { unfold W, P. rewrite <- Z.pow_add_r by lia.
        change 2 with (2 ^ 1) at 1. rewrite <- Z.pow_add_r by lia.
        f_equal. unfold e'. lia. }
      rewrite HpN in Hb.
      assert (E : 2 * (N * 2 ^ (53 - dN + dn)) = N * W * P)
        by (rewrite <- Z.mul_assoc, <- HWP; ring).
      rewrite E in Hb. split.
      * apply (Z.mul_le_mono_pos_r _ _ P HP). lia.
      * apply (Z.mul_le_mono_pos_r _ _ P HP). lia.
Qed.

(** *** The specification's rounding, in integers *)

Lemma spec_arg_eq (h f : Z) (pn : positive) :
  (spec_quotient h f (Z.pos pn) * 10 + (1 # 2) ==
   (10 * (199 * h + 140 * f) + Z.pos pn) # (2 * pn))%Q.
Proof.
  unfold spec_quotient.
  rewrite (Qmake_Qdiv (10 * (199 * h + 140 * f) + Z.pos pn)).
  rewrite inject_Z_plus, !inject_Z_mult, inject_Z_plus, !inject_Z_mult.
  change (Zpos (2 * pn)) with (2 * Z.pos pn). rewrite inject_Z_mult.
  field. discriminate.
Qed.

Lemma spec_tenths_Z (h f n : Z) :
  0 < n ->
  spec_tenths h f n = (10 * (199 * h + 140 * f) + n) / (2 * n).
Proof.
  intros Hn. destruct n as [|pn|pn]; try lia.
  unfold spec_tenths. rewrite (Qfloor_comp _ _ (spec_arg_eq h f pn)).
  reflexivity.
Qed.

Lemma spec_tie_Z (h f n : Z) :
  0 < n -> (10 * (199 * h + 140 * f) + n) mod (2 * n) = 0 ->
  spec_tie h f n = true.
Proof.
  intros Hn Hmod. pose proof (spec_tenths_Z h f n Hn) as HK.
  unfold spec_tie, spec_tenths in *. cbv zeta. rewrite HK.
  apply Qeq_bool_iff.
  destruct n as [|pn|pn]; try lia.
  rewrite (spec_arg_eq h f pn).
  pose proof (Z.div_mod (10 * (199 * h + 140 * f) + Z.pos pn) (2 * Z.pos pn) ltac:(lia)) as E.
  rewrite Hmod, Z.add_0_r in E.
  unfold Qeq. simpl Qnum. simpl Qden. rewrite E at 2.
  rewrite Pos2Z.inj_mul. ring.
Qed.

End Binary64.

(** ** Reports *)

Section Counting.

Lemma count_status_cons s l ls :
  count_status s (l :: ls) =
  (if decide (LTLine.status l = s) then 1 else 0) + count_status s ls.
Proof.
  unfold count_status. rewrite filter_cons.
  destruct (decide (LTLine.status l = s)); simpl length; lia.
Qed.

Lemma count_status_nonneg s ls : 0 <= count_status s ls.
Proof. unfold count_status. lia. Qed.

(** The three counts partition the list. *)
Lemma count_status_total ls :
  count_status Healthy ls + count_status Fault ls + count_status Shutoff ls
  = Z.of_nat (length ls).
Proof.
  induction ls as [|l ls IH]; [reflexivity|].
  rewrite !count_status_cons, length_cons, Nat2Z.inj_succ.
  destruct (LTLine.status l); repeat case_decide; try congruence; lia.
Qed.

(** The counting loop, started from any counters. *)
Lemma count_loop ls : forall c0,
  fold_left (fun c l => Counts.incr c (LTLine.status l)) ls c0 =
  Counts.mk (Counts.Healthy c0 + count_status Healthy ls)
            (Counts.Fault c0 + count_status Fault ls)
            (Counts.Shutoff c0 + count_status Shutoff ls).
Proof.
  induction ls as [|l ls IH]; intros c0.
  - destruct c0; simpl. unfold count_status; simpl. f_equal; lia.
  - simpl fold_left. rewrite IH, !count_status_cons.
    destruct (LTLine.status l); simpl; repeat case_decide; try congruence;
      f_equal; lia.
Qed.

Lemma count_lines_spec ls :
  count_lines ls =
  Counts.mk (count_status Healthy ls) (count_status Fault ls)
            (count_status Shutoff ls).
Proof. unfold count_lines. now rewrite count_loop. Qed.

End Counting.

Section Reports.

Lemma report_counts ls :
  Report.counts (report ls) =
  Counts.mk (count_status Healthy ls) (count_status Fault ls)
            (count_status Shutoff ls).
Proof. unfold report. simpl. apply count_lines_spec. Qed.

Lemma report_total ls :
  Report.total (report ls) =
  if Z.of_nat (length ls) =? 0 then 1 else Z.of_nat (length ls).
Proof. reflexivity. Qed.

(** The quotient does not read the Shutoff counter. *)
Lemma uptime_value_shutoff h f s s' n :
  uptime_value (Counts.mk h f s) n = uptime_value (Counts.mk h f s') n.
Proof. reflexivity. Qed.

End Reports.

(** C6, as amended.  For every line list that is not empty, the report's
    three per-status counts (Healthy, Fault, Shutoff) add up to the
    report's total, which is the number of lines. *)
Theorem report_counts_sum (ls : list LTLine) :
  ls <> [] ->
  Counts.Healthy (Report.counts (report ls))
  + Counts.Fault (Report.counts (report ls))
  + Counts.Shutoff (Report.counts (report ls))
  = Report.total (report ls)
  /\ Report.total (report ls) = Z.of_nat (length ls).
Proof.
  intros Hne. rewrite report_counts, report_total. simpl.
  rewrite count_status_total.
  destruct ls as [|l ls]; [congruence|].
  rewrite length_cons. destruct (Z.eqb_spec (Z.of_nat (S (length ls))) 0); lia.
Qed.

Lemma report_counts_sum_witness :
  Counts.Healthy (Report.counts (report initialLines))
  + Counts.Fault (Report.counts (report initialLines))
  + Counts.Shutoff (Report.counts (report initialLines))
  = Report.total (report initialLines)
  /\ Report.total (report initialLines) = 3.
Proof. apply (report_counts_sum initialLines). discriminate. Defined.

(** C6 as stated fails for the empty list: the counts add up to 0 while the
    report's total is 1, the value the divisor guard puts in place of a zero
    length. *)
Lemma report_counts_sum_empty :
  Report.total (report []) = 1
  /\ Counts.Healthy (Report.counts (report []))
     + Counts.Fault (Report.counts (report []))
     + Counts.Shutoff (Report.counts (report []))
     <> Report.total (report []).
Proof. split; [reflexivity | discriminate]. Qed.

Lemma report_uptime_eq ls :
  Report.uptime (report ls) =
  Num.toFixed1
    (uptime_value (count_lines ls)
       (if Z.of_nat (length ls) =? 0 then 1 else Z.of_nat (length ls))).
Proof. reflexivity. Qed.

(** C1, as amended.  For every line list, with [h] Healthy and [f] Fault
    lines among [n], the uptime estimate is [toFixed(1)] of the binary64
    value of [(h * 99.5 + f * 70) / n] (divided by 1 when the list is empty);
    Shutoff lines add nothing to the numerator.  For a list of 1 to
    [2^32 - 1] lines (the most an array holds) this is the exact quotient
    rounded to one decimal, except that an exact quotient halfway between
    two one-decimal values may be shown as the lower of the two.  With 2
    Healthy, 1 Fault and no Shutoff line the card reads 89.7%. *)
Theorem report_uptime (ls : list LTLine) :
  let h := count_status Healthy ls in
  let f := count_status Fault ls in
  let n := Z.of_nat (length ls) in
  Report.uptime (report ls)
  = Num.toFixed1
      (Num.div (Num.add (Num.mul (Num.ofZ h) (Num.lit 995 1))
                        (Num.mul (Num.ofZ f) (Num.ofZ 70)))
               (Num.ofZ (if n =? 0 then 1 else n)))
  /\ (0 < n < 2 ^ 32 ->
      Report.uptime (report ls) = Some (spec_uptime ls)
      \/ (spec_tie h f n = true
          /\ Report.uptime (report ls)
             = Some (Num.point1 (spec_tenths h f n - 1))))
  /\ (h = 2 -> f = 1 -> n = 3 -> uptime_card (report ls) = Some "89.7%"%string).
Proof.
  intros h f n.
  assert (E : Report.uptime (report ls)
              = Num.toFixed1 (uptime_value (Counts.mk h f 0)
                                (if n =? 0 then 1 else n))).
  { rewrite report_uptime_eq, count_lines_spec. reflexivity. }
  split; [exact E|]. split.
  - intros Hn.
    assert (Hz : (n =? 0) = false) by (apply Z.eqb_neq; lia).
    rewrite E, Hz.
    pose proof (count_status_total ls) as Ht.
    pose proof (count_status_nonneg Healthy ls) as Hh.
    pose proof (count_status_nonneg Fault ls) as Hf.
    pose proof (count_status_nonneg Shutoff ls) as Hs.
    destruct (uptime_close h f n Hh Hf ltac:(subst h f n; lia) Hn)
      as (T & -> & [HT|[Hmod HT]]).
    + left. unfold spec_uptime. fold h f n.
      now rewrite spec_tenths_Z, HT by lia.
    + right. split; [now apply spec_tie_Z; lia|].
      now rewrite spec_tenths_Z, HT by lia.
  - intros Hh Hf Hn. unfold uptime_card. rewrite E, Hh, Hf, Hn.
    vm_compute. reflexivity.
Qed.

Lemma report_uptime_witness :
  Report.uptime (report initialLines) = Some (spec_uptime initialLines)
  \/ (spec_tie 2 0 3 = true
      /\ Report.uptime (report initialLines) = Some (Num.point1 (spec_tenths 2 0 3 - 1))).
Proof.
  apply (proj1 (proj2 (report_uptime initialLines))).
  simpl. lia.
Defined.

(** C1 as stated fails where the exact quotient is halfway between two
    one-decimal values and the binary64 quotient falls below it: for one
    Healthy line among ten the quotient is 9.95, which rounds to 10.0, and
    the report shows 9.9. *)
Lemma report_uptime_tie :
  (spec_quotient 1 0 10 == 9.95)%Q
  /\ spec_uptime tie_lines = "10.0"%string
  /\ Report.uptime (report tie_lines) = Some "9.9"%string
  /\ Report.uptime (report tie_lines) <> Some (spec_uptime tie_lines).
Proof.
  split; [reflexivity|]. split; [vm_compute; reflexivity|].
  split; [vm_compute; reflexivity|].
  vm_compute. intros H. discriminate H.
Qed.

(** ** Notifications *)

Section Log.

Context {A : Type}.
Implicit Types (x : A) (xs ys : list A).

(** Cutting twice at the capacity is cutting once. *)
Lemma take_app_take n ys xs : take n (ys ++ take n xs) = take n (ys ++ xs).
Proof.
  rewrite !take_app, take_take. do 2 f_equal. lia.
Qed.

(** A full list loses exactly its last element to a newcomer. *)
Lemma take_full_split n xs :
  length xs = S n ->
  exists kept oldest, xs = kept ++ [oldest] /\ take n xs = kept.
Proof.
  intros Hl. destruct (xs !! n) as [y|] eqn:Hy.
  - exists (take n xs), y. split; [|reflexivity].
    rewrite <- (take_drop n xs) at 1. f_equal.
    rewrite (drop_S xs y n Hy), drop_ge by lia. reflexivity.
  - apply lookup_ge_None in Hy. lia.
Qed.

End Log.

Lemma addNotification_notifications e lineId message status st :
  notifications (addNotification e lineId message status st)
  = new_item e lineId message status :: take 19 (notifications st).
Proof. reflexivity. Qed.

Lemma addNotification_length e lineId message status st :
  (length (notifications (addNotification e lineId message status st)) <= 20)%nat.
Proof. rewrite addNotification_notifications, length_cons, length_take. lia. Qed.

Lemma addNotifications_notifications cs : forall st,
  (length (notifications st) <= 20)%nat ->
  notifications (addNotifications cs st)
  = take 20 (reverse (call_item <$> cs) ++ notifications st).
Proof.
  induction cs as [|c cs IH]; intros st Hst.
  - simpl. now rewrite take_ge.
  - change (addNotifications (c :: cs) st) with (addNotifications cs (call c st)).
    rewrite IH by apply addNotification_length.
    change (notifications (call c st))
      with (take 20 (call_item c :: notifications st)).
    rewrite take_app_take, fmap_cons, reverse_cons, <- app_assoc. reflexivity.
Qed.

(** C3.  Start from a log of at most 20 entries and make any sequence of
    [addNotification] calls.  The log then holds at most 20 entries: the
    entries of the calls, newest first, followed by the old ones, cut
    after the twentieth.  One more call puts its entry first and keeps the
    first 19 of the others in their order; when the log is full, the entry
    that goes is its last, oldest one. *)
Theorem addNotification_log (cs : list Call) (st : State) :
  (length (notifications st) <= 20)%nat ->
  let st' := addNotifications cs st in
  (length (notifications st') <= 20)%nat
  /\ notifications st'
     = take 20 (reverse (call_item <$> cs) ++ notifications st)
  /\ (forall c, notifications (call c st')
                = call_item c :: take 19 (notifications st'))
  /\ (forall c, length (notifications st') = 20%nat ->
        exists kept oldest,
          notifications st' = kept ++ [oldest]
          /\ notifications (call c st') = call_item c :: kept).
Proof.
  intros Hst st'. subst st'.
  rewrite addNotifications_notifications by exact Hst.
  split; [rewrite length_take; lia|]. split; [reflexivity|]. split.
  - intros c. unfold call. rewrite addNotification_notifications.
    now rewrite addNotifications_notifications by exact Hst.
  - intros c Hfull.
    destruct (take_full_split 19 _ Hfull) as (kept & oldest & Hsplit & Hkept).
    exists kept, oldest. split; [exact Hsplit|].
    unfold call. rewrite addNotification_notifications.
    rewrite addNotifications_notifications by exact Hst.
    now rewrite Hkept.
Qed.

Lemma addNotification_log_witness :
  (length (notifications (addNotifications sample_calls seed_state)) <= 20)%nat.
Proof.
  apply (proj1 (addNotification_log sample_calls seed_state
                  ltac:(simpl; lia))).
Defined.

(** C8.  The Clear All button leaves an empty notification log, whatever
    the log held, and leaves the lines alone. *)
Theorem clearNotifications_empty (st : State) :
  notifications (clearNotifications st) = []
  /\ lines (clearNotifications st) = lines st
  /\ forall cs, notifications (clearNotifications (addNotifications cs st)) = [].
Proof. repeat split. Qed.

(** ** Update status *)

Section UpdateStatus.

Variables (lineId : string) (status : LineStatus).

Lemma set_status_lookup ls i :
  set_status lineId status ls !! i
  = (fun l => if decide (LTLine.id l = lineId)
              then LTLine.with_status l status else l) <$> ls !! i.
Proof. unfold set_status. apply list_lookup_fmap. Qed.

Lemma set_status_length ls :
  length (set_status lineId status ls) = length ls.
Proof. unfold set_status. apply length_fmap. Qed.

(** A projection that does not read the status sees no change. *)
Lemma set_status_frame {B} (proj : LTLine -> B) ls :
  (forall l s, proj (LTLine.with_status l s) = proj l) ->
  proj <$> set_status lineId status ls = proj <$> ls.
Proof.
  intros Hproj. unfold set_status. rewrite <- list_fmap_compose.
  apply list_fmap_ext. intros i l _. simpl.
  destruct (decide (LTLine.id l = lineId)); [apply Hproj | reflexivity].
Qed.

Lemma set_status_absent ls :
  (forall l, l ∈ ls -> LTLine.id l <> lineId) ->
  set_status lineId status ls = ls.
Proof.
  intros Habs. unfold set_status.
  rewrite <- (list_fmap_id ls) at 2.
  apply list_fmap_ext. intros i l Hl. simpl.
  destruct (decide (LTLine.id l = lineId)) as [E|]; [|reflexivity].
  exfalso. apply (Habs l); [|exact E]. apply list_elem_of_lookup. eauto.
Qed.

Lemma lineName_first ls i l :
  ls !! i = Some l -> LTLine.id l = lineId ->
  (forall j l', (j < i)%nat -> ls !! j = Some l' -> LTLine.id l' <> lineId) ->
  lineName ls lineId = LTLine.name l.
Proof.
  intros Hi Hid Hfirst. unfold lineName.
  assert (list_find (fun l => LTLine.id l = lineId) ls = Some (i, l)) as ->;
    [|reflexivity].
  apply list_find_Some. split; [exact Hi|]. split; [exact Hid|].
  intros j y Hj Hlt. now apply (Hfirst j y).
Qed.

Lemma lineName_absent ls :
  (forall l, l ∈ ls -> LTLine.id l <> lineId) ->
  lineName ls lineId = "Line"%string.
Proof.
  intros Habs. unfold lineName.
  assert (list_find (fun l => LTLine.id l = lineId) ls = None) as ->;
    [|reflexivity].
  apply list_find_None, Forall_forall. exact Habs.
Qed.

(** A present identifier has a first line carrying it. *)
Lemma first_with_id ls :
  (exists l, l ∈ ls /\ LTLine.id l = lineId) ->
  exists i l, ls !! i = Some l /\ LTLine.id l = lineId
    /\ forall j l', (j < i)%nat -> ls !! j = Some l' -> LTLine.id l' <> lineId.
Proof.
  intros (l & Hl & Hid).
  destruct (list_find (fun l => LTLine.id l = lineId) ls) as [[i x]|] eqn:F.
  - apply list_find_Some in F as (Hi & Hx & Hfirst).
    exists i, x. split; [exact Hi|]. split; [exact Hx|].
    intros j y Hlt Hj. now apply (Hfirst j y).
  - apply list_find_None in F. rewrite Forall_forall in F.
    exfalso. now apply (F l).
Qed.

Lemma updateLineStatus_lines e st :
  lines (updateLineStatus e lineId status st)
  = set_status lineId status (lines st).
Proof. reflexivity. Qed.

Lemma updateLineStatus_notifications e st :
  notifications (updateLineStatus e lineId status st)
  = take 20 (new_item e lineId
               (change_message (lineName (lines st) lineId) status) status
             :: notifications st).
Proof. reflexivity. Qed.

End UpdateStatus.

Lemma append_empty_r (t : string) : t +:+ EmptyString = t.
Proof.
  induction t as [|c t IH]; [reflexivity | exact (f_equal (String c) IH)].
Qed.

Lemma append_assoc (s t u : string) :
  (s +:+ t) +:+ u = s +:+ t +:+ u.
Proof.
  induction s as [|c s IH]; [reflexivity | exact (f_equal (String c) IH)].
Qed.

Lemma contains_prefix s t : contains s (s +:+ t).
Proof. exists EmptyString, t. reflexivity. Qed.

Lemma contains_suffix s t : contains t (s +:+ t).
Proof. exists s, EmptyString. now rewrite append_empty_r. Qed.

Lemma contains_append_r s t u : contains s u -> contains s (t +:+ u).
Proof.
  intros (a & b & ->). exists (t +:+ a), b.
  now rewrite append_assoc.
Qed.

Lemma change_message_contains nm status :
  contains nm (change_message nm status)
  /\ contains (status_text status) (change_message nm status).
Proof.
  unfold change_message. split; [apply contains_prefix|].
  apply contains_append_r, contains_suffix.
Qed.

(** C4.  A call of [updateLineStatus] whose [lineId] is carried by some
    line puts exactly one entry in front of the log (the log is then cut
    at 20).  The entry's message is the display name of that line, the
    first with this identifier, followed by the new status; its status
    field is the new status, its line identifier the given one.  Below
    the cap the log grows by one. *)
Theorem updateLineStatus_notification (e : Stamp) (lineId : string)
    (status : LineStatus) (st : State) :
  (exists l, l ∈ lines st /\ LTLine.id l = lineId) ->
  exists i l item,
    lines st !! i = Some l /\ LTLine.id l = lineId
    /\ (forall j l', (j < i)%nat -> lines st !! j = Some l' ->
                     LTLine.id l' <> lineId)
    /\ notifications (updateLineStatus e lineId status st)
       = take 20 (item :: notifications st)
    /\ NotificationItem.message item
       = LTLine.name l +:+ " status changed to " +:+ status_text status
    /\ contains (LTLine.name l) (NotificationItem.message item)
    /\ contains (status_text status) (NotificationItem.message item)
    /\ NotificationItem.status item = status
    /\ NotificationItem.lineId item = lineId
    /\ ((length (notifications st) < 20)%nat ->
        length (notifications (updateLineStatus e lineId status st))
        = S (length (notifications st))).
Proof.
  intros Hpresent.
  destruct (first_with_id lineId (lines st) Hpresent) as (i & l & Hi & Hid & Hfirst).
  exists i, l,
    (new_item e lineId (change_message (LTLine.name l) status) status).
  rewrite updateLineStatus_notifications,
    (lineName_first lineId (lines st) i l Hi Hid Hfirst).
  repeat (split; [first [assumption | reflexivity
                        | apply change_message_contains]|]).
  intros Hlt. rewrite length_take, length_cons. lia.
Qed.

Lemma updateLineStatus_notification_witness :
  exists i l item,
    lines seed_state !! i = Some l /\ LTLine.id l = "lt-2"%string
    /\ (forall j l', (j < i)%nat -> lines seed_state !! j = Some l' ->
                     LTLine.id l' <> "lt-2"%string)
    /\ notifications (updateLineStatus sample_stamp "lt-2" Fault seed_state)
       = take 20 (item :: notifications seed_state)
    /\ NotificationItem.message item
       = LTLine.name l +:+ " status changed to " +:+ status_text Fault
    /\ contains (LTLine.name l) (NotificationItem.message item)
    /\ contains (status_text Fault) (NotificationItem.message item)
    /\ NotificationItem.status item = Fault
    /\ NotificationItem.lineId item = "lt-2"%string
    /\ ((length (notifications seed_state) < 20)%nat ->
        length (notifications (updateLineStatus sample_stamp "lt-2" Fault seed_state))
        = S (length (notifications seed_state))).
Proof.
  apply (updateLineStatus_notification sample_stamp "lt-2" Fault seed_state).
  eexists. split.
  - apply list_elem_of_lookup. exists 1%nat. reflexivity.
  - reflexivity.
Defined.

(** C9.  A call of [updateLineStatus] leaves every line's identifier,
    display name and coordinate sequence as they were, and the list's
    length and order; a line whose identifier is not [lineId] keeps its
    status (it is the same record at the same position), a line whose
    identifier is [lineId] differs from before in its status only. *)
Theorem updateLineStatus_frame (e : Stamp) (lineId : string)
    (status : LineStatus) (st : State) :
  let st' := updateLineStatus e lineId status st in
  LTLine.id <$> lines st' = LTLine.id <$> lines st
  /\ LTLine.name <$> lines st' = LTLine.name <$> lines st
  /\ LTLine.coords <$> lines st' = LTLine.coords <$> lines st
  /\ length (lines st') = length (lines st)
  /\ (forall i l, lines st !! i = Some l -> LTLine.id l <> lineId ->
        lines st' !! i = Some l)
  /\ (forall i l, lines st !! i = Some l -> LTLine.id l = lineId ->
        lines st' !! i = Some (LTLine.with_status l status)).
Proof.
  intros st'. subst st'. rewrite updateLineStatus_lines.
  repeat (split; [first [now apply set_status_frame
                        | apply set_status_length]|]).
  split; intros i l Hi Hid; rewrite set_status_lookup, Hi; simpl;
    destruct (decide (LTLine.id l = lineId)); congruence.
Qed.

Lemma updateLineStatus_frame_witness :
  lines (updateLineStatus sample_stamp "lt-2" Fault seed_state) !! 0%nat
  = initialLines !! 0%nat.
Proof.
  destruct (initialLines !! 0%nat) as [l|] eqn:E; [|discriminate E].
  injection E as <-.
  apply (proj1 (proj2 (proj2 (proj2 (proj2
           (updateLineStatus_frame sample_stamp "lt-2" Fault seed_state)))))).
  - reflexivity.
  - discriminate.
Defined.

(** C10.  A call of [updateLineStatus] whose [lineId] no line carries
    leaves the line list as it is and still puts exactly one entry in front
    of the log, with the fallback name: its message is
    [Line status changed to] followed by the requested status, its status
    field the requested status. *)
Theorem updateLineStatus_unknown (e : Stamp) (lineId : string)
    (status : LineStatus) (st : State) :
  (forall l, l ∈ lines st -> LTLine.id l <> lineId) ->
  lines (updateLineStatus e lineId status st) = lines st
  /\ exists item,
       notifications (updateLineStatus e lineId status st)
       = take 20 (item :: notifications st)
       /\ NotificationItem.message item
          = "Line status changed to " +:+ status_text status
       /\ contains "Line" (NotificationItem.message item)
       /\ contains (status_text status) (NotificationItem.message item)
       /\ NotificationItem.status item = status
       /\ NotificationItem.lineId item = lineId
       /\ ((length (notifications st) < 20)%nat ->
           length (notifications (updateLineStatus e lineId status st))
           = S (length (notifications st))).
Proof.
  intros Habs. split.
  - rewrite updateLineStatus_lines. now apply set_status_absent.
  - exists (new_item e lineId (change_message "Line" status) status).
    rewrite updateLineStatus_notifications, (lineName_absent _ _ Habs).
    repeat (split; [first [reflexivity | apply change_message_contains]|]).
    intros Hlt. rewrite length_take, length_cons. lia.
Qed.

Lemma updateLineStatus_unknown_witness :
  lines (updateLineStatus sample_stamp "lt-9" Shutoff seed_state)
  = lines seed_state.
Proof.
  apply (updateLineStatus_unknown sample_stamp "lt-9" Shutoff seed_state).
  intros l Hl. apply list_elem_of_lookup in Hl as [i Hi].
  do 3 (destruct i as [|i]; [injection Hi as <-; discriminate|]).
  discriminate Hi.
Defined.

(** ** Simulate a random fault *)

Section SimulateFault.

Lemma pick_candidate r ls p :
  pick r ls = Some p -> p ∈ ls /\ LTLine.status p <> Fault.
Proof.
  unfold pick, candidates. intros H.
  destruct (floor_index _) as [k|]; [|discriminate H]. simpl in H.
  apply list_elem_of_lookup_2, list_elem_of_filter in H. tauto.
Qed.

Lemma candidates_none ls :
  (forall l, l ∈ ls -> LTLine.status l = Fault) -> candidates ls = [].
Proof.
  intros Hall. unfold candidates.
  destruct (filter _ ls) as [|c cs] eqn:E; [reflexivity|].
  assert (Hc : c ∈ filter (fun l => LTLine.status l <> Fault) ls)
    by (rewrite E; apply list_elem_of_here).
  apply list_elem_of_filter in Hc as [Hne Hin]. now apply Hall in Hin.
Qed.

Lemma pick_none r ls :
  (forall l, l ∈ ls -> LTLine.status l = Fault) -> pick r ls = None.
Proof.
  intros Hall. unfold pick. rewrite (candidates_none ls Hall).
  destruct (floor_index _); reflexivity.
Qed.

(** Setting Fault on lines that are in Fault is no change. *)
Lemma set_status_same lineId ls i l :
  ls !! i = Some l -> LTLine.status l = Fault ->
  set_status lineId Fault ls !! i = Some l.
Proof.
  intros Hi Hs. rewrite set_status_lookup, Hi. simpl.
  destruct (decide (LTLine.id l = lineId)); [|reflexivity].
  destruct l; simpl in Hs; subst; reflexivity.
Qed.

Lemma unique_id ls l l' :
  NoDup (LTLine.id <$> ls) -> l ∈ ls -> l' ∈ ls ->
  LTLine.id l = LTLine.id l' -> l = l'.
Proof.
  intros Hnd Hl Hl' Hid.
  apply list_elem_of_lookup in Hl as [i Hi].
  apply list_elem_of_lookup in Hl' as [j Hj].
  assert (i = j) as ->; [|congruence].
  apply (NoDup_lookup _ i j (LTLine.id l) Hnd).
  - now rewrite list_lookup_fmap, Hi.
  - now rewrite list_lookup_fmap, Hj, Hid.
Qed.

End SimulateFault.

(** C2.  Whatever [Math.random()] returns: the line [simulateFault]
    selects is a line of the list whose status is not Fault, and the call is
    [updateLineStatus] of its identifier to Fault; a line in Fault is left
    as it is, and with unique identifiers no line in Fault carries the
    selected identifier.  When every line is in Fault, and whenever no line
    is selected, the call changes nothing: no status and no notification. *)
Theorem simulateFault_spec (r : number) (e : Stamp) (st : State) :
  (forall p, pick r (lines st) = Some p ->
     p ∈ lines st /\ LTLine.status p <> Fault
     /\ simulateFault r e st = updateLineStatus e (LTLine.id p) Fault st
     /\ (NoDup (LTLine.id <$> lines st) ->
         forall l, l ∈ lines st -> LTLine.status l = Fault ->
                   LTLine.id l <> LTLine.id p))
  /\ (forall i l, lines st !! i = Some l -> LTLine.status l = Fault ->
        lines (simulateFault r e st) !! i = Some l)
  /\ (pick r (lines st) = None -> simulateFault r e st = st)
  /\ ((forall l, l ∈ lines st -> LTLine.status l = Fault) ->
      simulateFault r e st = st).
Proof.
  split; [|split; [|split]].
  - intros p Hp. destruct (pick_candidate _ _ _ Hp) as [Hin Hs].
    split; [exact Hin|]. split; [exact Hs|]. split.
    + unfold simulateFault. now rewrite Hp.
    + intros Hnd l Hl Hf Hid.
      apply Hs. now rewrite <- (unique_id _ _ _ Hnd Hl Hin Hid).
  - intros i l Hi Hs. unfold simulateFault.
    destruct (pick r (lines st)) as [p|]; [|exact Hi].
    rewrite updateLineStatus_lines. now apply set_status_same.
  - intros Hp. unfold simulateFault. now rewrite Hp.
  - intros Hall. unfold simulateFault. now rewrite pick_none.
Qed.

Lemma simulateFault_spec_witness :
  simulateFault (Num.lit 5 1) sample_stamp all_fault_state = all_fault_state
  /\ simulateFault (Num.lit 5 1) sample_stamp seed_state
     = updateLineStatus sample_stamp "lt-2" Fault seed_state.
Proof.
  split.
  - apply (simulateFault_spec (Num.lit 5 1) sample_stamp all_fault_state).
    intros l Hl. apply list_elem_of_lookup in Hl as [i Hi].
    do 3 (destruct i as [|i]; [injection Hi as <-; reflexivity|]).
    discriminate Hi.
  - destruct (pick (Num.lit 5 1) (lines seed_state)) as [p|] eqn:Hp;
      [|vm_compute in Hp; discriminate Hp].
    destruct (proj1 (simulateFault_spec (Num.lit 5 1) sample_stamp seed_state)
                p Hp) as (_ & _ & Hcall & _).
    rewrite Hcall. vm_compute in Hp. injection Hp as <-. reflexivity.
Defined.

(** ** Download CSV *)

Section Csv.

Lemma quoted_row a b c :
  String.concat "," (quoted <$> [a; b; c])
  = quoted a +:+ "," +:+ quoted b +:+ "," +:+ quoted c.
Proof. reflexivity. Qed.

Lemma csv_rows ls :
  csv ls = String.concat newline (header_row :: (line_row <$> ls)).
Proof.
  unfold csv, rows. rewrite fmap_cons, <- list_fmap_compose. reflexivity.
Qed.

Lemma split_rows_nonempty s : split_rows s <> [].
Proof.
  destruct s as [|c s]; simpl; [discriminate|].
  destruct (Ascii.eqb c "010"); [discriminate|].
  destruct (split_rows s); discriminate.
Qed.

(** A text without newline is one row. *)
Lemma split_rows_one s : no_newline s = true -> split_rows s = [s].
Proof.
  induction s as [|c s IH]; simpl; [reflexivity|].
  destruct (Ascii.eqb c "010"); simpl; [discriminate|].
  intros H. now rewrite IH.
Qed.

Lemma split_rows_cons r s :
  no_newline r = true ->
  split_rows (r +:+ newline +:+ s) = r :: split_rows s.
Proof.
  induction r as [|c r IH]; intros H.
  - reflexivity.
  - simpl in H. change (String c r +:+ newline +:+ s)
      with (String c (r +:+ newline +:+ s)).
    simpl. destruct (Ascii.eqb c "010"); simpl in H; [discriminate|].
    now rewrite IH.
Qed.

Lemma split_rows_concat r rs :
  no_newline r = true -> Forall (fun x => no_newline x = true) rs ->
  split_rows (String.concat newline (r :: rs)) = r :: rs.
Proof.
  revert r. induction rs as [|r' rs IH]; intros r Hr Hrs.
  - now apply split_rows_one.
  - change (String.concat newline (r :: r' :: rs))
      with (r +:+ newline +:+ String.concat newline (r' :: rs)).
    inversion Hrs; subst. rewrite split_rows_cons by exact Hr.
    now rewrite IH.
Qed.

Lemma no_newline_app s t :
  no_newline (s +:+ t) = no_newline s && no_newline t.
Proof.
  induction s as [|c s IH]; [reflexivity|].
  change (String c s +:+ t) with (String c (s +:+ t)). simpl.
  now rewrite IH, andb_assoc.
Qed.

Lemma no_newline_line_row l :
  no_newline (LTLine.id l) = true -> no_newline (LTLine.name l) = true ->
  no_newline (line_row l) = true.
Proof.
  intros Hi Hn. unfold line_row, quoted.
  rewrite !no_newline_app, Hi, Hn. now destruct (LTLine.status l).
Qed.

End Csv.

(** C5.  For every line list the CSV text is the header row
    [Line ID,Name,Status] followed by one row of identifier, name and
    status per line, in the order of the list, every field between double
    quotes, the fields joined by commas and the rows by newlines; when no
    identifier or name contains a newline, splitting the text at newlines
    gives back these rows, one more than there are lines.  For the three
    seed lines the text is [seed_csv] and has exactly 4 rows. *)
Theorem csv_export (ls : list LTLine) :
  csv ls = String.concat newline (header_row :: (line_row <$> ls))
  /\ length (header_row :: (line_row <$> ls)) = S (length ls)
  /\ (Forall (fun l => no_newline (LTLine.id l) = true
                       /\ no_newline (LTLine.name l) = true) ls ->
      split_rows (csv ls) = header_row :: (line_row <$> ls)
      /\ length (split_rows (csv ls)) = S (length ls))
  /\ csv initialLines = seed_csv
  /\ length (split_rows (csv initialLines)) = 4%nat.
Proof.
  split; [apply csv_rows|]. split; [simpl; now rewrite length_fmap|].
  split; [|split; vm_compute; reflexivity].
  intros Hls.
  assert (E : split_rows (csv ls) = header_row :: (line_row <$> ls)).
  { rewrite csv_rows. apply split_rows_concat; [reflexivity|].
    apply Forall_fmap. eapply Forall_impl; [exact Hls|].
    intros l [Hi Hn]. now apply no_newline_line_row. }
  split; [exact E|]. rewrite E. simpl. now rewrite length_fmap.
Qed.

Lemma csv_export_witness :
  split_rows (csv initialLines) = header_row :: (line_row <$> initialLines)
  /\ length (split_rows (csv initialLines)) = 4%nat.
Proof.
  apply (proj1 (proj2 (proj2 (csv_export initialLines)))).
  repeat constructor.
Defined.

(** ** Show/Hide line *)

Section Visibility.


End Visibility.


(** * Further properties *)

(** ** Reports, continued *)

Section ReportsMore.

Lemma count_status_app s ls ls' :
  count_status s (ls ++ ls') = count_status s ls + count_status s ls'.
Proof. unfold count_status. rewrite filter_app, length_app. lia. Qed.

(** Counting lines by status is counting statuses. *)
Lemma count_status_fmap s ls :
  count_status s ls
  = Z.of_nat (length (filter (fun t => t = s) (LTLine.status <$> ls))).
Proof.
  induction ls as [|l ls IH]; [reflexivity|].
  rewrite count_status_cons, IH, fmap_cons, filter_cons.
  destruct (decide (LTLine.status l = s)); simpl length; lia.
Qed.

Lemma count_status_statuses s ls ls' :
  LTLine.status <$> ls ≡ₚ LTLine.status <$> ls' ->
  count_status s ls = count_status s ls'.
Proof. intros H. rewrite !count_status_fmap. now rewrite H. Qed.

Lemma report_by_counts ls :
  report ls
  = Report.mk
      (Counts.mk (count_status Healthy ls) (count_status Fault ls)
                 (count_status Shutoff ls))
      (if Z.of_nat (length ls) =? 0 then 1 else Z.of_nat (length ls))
      (Num.toFixed1
         (uptime_value
            (Counts.mk (count_status Healthy ls) (count_status Fault ls)
                       (count_status Shutoff ls))
            (if Z.of_nat (length ls) =? 0 then 1 else Z.of_nat (length ls)))).
Proof. unfold report. now rewrite count_lines_spec. Qed.

(** The tenths the card shows, for a list an array can hold (the empty one
    included). *)
Lemma report_uptime_tenths ls :
  Z.of_nat (length ls) < 2 ^ 32 ->
  let h := count_status Healthy ls in
  let f := count_status Fault ls in
  let n := if Z.of_nat (length ls) =? 0 then 1 else Z.of_nat (length ls) in
  let N := 199 * h + 140 * f in
  exists T,
    Report.uptime (report ls) = Some (Num.point1 T)
    /\ (T = (10 * N + n) / (2 * n)
        \/ ((10 * N + n) mod (2 * n) = 0 /\ T = (10 * N + n) / (2 * n) - 1)).
Proof.
  intros Hlen h f n N.
  pose proof (count_status_total ls) as Ht.
  pose proof (count_status_nonneg Healthy ls) as Hh.
  pose proof (count_status_nonneg Fault ls) as Hf.
  pose proof (count_status_nonneg Shutoff ls) as Hs.
  rewrite report_by_counts. cbn [Report.uptime]. fold h f n.
  rewrite (uptime_value_shutoff h f _ 0).
  apply uptime_close; try assumption; subst h f n;
    destruct (Z.eqb_spec (Z.of_nat (length ls)) 0); lia.
Qed.

End ReportsMore.

(** X1.  The report depends on the statuses only, and not on their order:
    two line lists whose statuses are the same up to order have the same
    report (counts, total and uptime). *)
Theorem report_statuses (ls ls' : list LTLine) :
  LTLine.status <$> ls ≡ₚ LTLine.status <$> ls' ->
  report ls = report ls'.
Proof.
  intros H. rewrite !report_by_counts.
  assert (Hlen : length ls = length ls').
  { rewrite <- (length_fmap LTLine.status ls), <- (length_fmap LTLine.status ls').
    now rewrite H. }
  rewrite !(count_status_statuses _ ls ls' H), Hlen. reflexivity.
Qed.

Lemma report_statuses_witness :
  report (reverse initialLines) = report initialLines.
Proof.
  apply (report_statuses (reverse initialLines) initialLines).
  rewrite fmap_reverse. apply reverse_Permutation.
Defined.

(** X2.  For every list an array can hold, the empty one included, the
    uptime estimate is a number with one decimal between 0.0 and 99.5:
    never [NaN], never negative, never above the weight of a Healthy
    line. *)
Theorem report_uptime_range (ls : list LTLine) :
  Z.of_nat (length ls) < 2 ^ 32 ->
  exists T, Report.uptime (report ls) = Some (Num.point1 T) /\ 0 <= T <= 995.
Proof.
  intros Hlen.
  pose proof (count_status_total ls) as Ht.
  pose proof (count_status_nonneg Healthy ls) as Hh.
  pose proof (count_status_nonneg Fault ls) as Hf.
  pose proof (count_status_nonneg Shutoff ls) as Hs.
  destruct (report_uptime_tenths ls Hlen) as (T & HT & Hcase).
  exists T. split; [exact HT|].
  set (n := if Z.of_nat (length ls) =? 0 then 1 else Z.of_nat (length ls)) in *.
  set (N := 199 * count_status Healthy ls + 140 * count_status Fault ls) in *.
  assert (Hn : 0 < n) by (subst n; destruct (Z.eqb_spec (Z.of_nat (length ls)) 0); lia).
  assert (HN : 0 <= N <= 199 * n)
    by (subst n N; destruct (Z.eqb_spec (Z.of_nat (length ls)) 0); lia).
  pose proof (Z.div_mod (10 * N + n) (2 * n) ltac:(lia)) as E.
  pose proof (Z.mod_pos_bound (10 * N + n) (2 * n) ltac:(lia)) as HR.
  set (K := (10 * N + n) / (2 * n)) in *.
  set (R := (10 * N + n) mod (2 * n)) in *.
  assert (HK : 0 <= K <= 995) by nia.
  destruct Hcase as [->|[HR0 ->]]; [exact HK|].
  assert (0 < K) by nia. lia.
Qed.

Lemma report_uptime_range_witness :
  exists T, Report.uptime (report initialLines) = Some (Num.point1 T)
            /\ 0 <= T <= 995.
Proof. apply (report_uptime_range initialLines). simpl. lia. Defined.

Section Uniform.

Lemma count_status_all s ls :
  (forall l, l ∈ ls -> LTLine.status l = s) ->
  count_status s ls = Z.of_nat (length ls).
Proof.
  intros Hall. induction ls as [|l ls IH]; [reflexivity|].
  rewrite count_status_cons, IH, length_cons.
  - rewrite decide_True by (apply Hall; left). lia.
  - intros l' Hl'. apply Hall. now right.
Qed.

Lemma count_status_none s ls :
  (forall l, l ∈ ls -> LTLine.status l <> s) -> count_status s ls = 0.
Proof.
  intros Hall. induction ls as [|l ls IH]; [reflexivity|].
  rewrite count_status_cons, IH.
  - rewrite decide_False by (apply Hall; left). lia.
  - intros l' Hl'. apply Hall. now right.
Qed.

(** The card for given counts whose exact quotient has one decimal. *)
Lemma report_uptime_exact ls (K : Z) :
  0 < Z.of_nat (length ls) < 2 ^ 32 ->
  199 * count_status Healthy ls + 140 * count_status Fault ls
  = K * Z.of_nat (length ls) ->
  Report.uptime (report ls) = Some (Num.point1 (5 * K)).
Proof.
  intros Hn HN.
  destruct (report_uptime_tenths ls ltac:(lia)) as (T & -> & Hcase).
  destruct (Z.eqb_spec (Z.of_nat (length ls)) 0) as [|_]; [lia|].
  rewrite HN in Hcase. set (n := Z.of_nat (length ls)) in *.
  assert (E : 10 * (K * n) + n = (5 * K) * (2 * n) + n) by ring.
  rewrite E in Hcase.
  assert (Hdiv : ((5 * K) * (2 * n) + n) / (2 * n) = 5 * K).
  { rewrite Z.div_add_l by lia. rewrite Z.div_small by lia. lia. }
  assert (Hmod : ((5 * K) * (2 * n) + n) mod (2 * n) = n).
  { rewrite Z.add_comm, Z.mod_add by lia. apply Z.mod_small. lia. }
  rewrite Hdiv, Hmod in Hcase. destruct Hcase as [->|[? _]]; [reflexivity|lia].
Qed.

End Uniform.

(** X3.  For a list of 1 to [2^32 - 1] lines that are all Healthy the card
    reads 99.5%, all in Fault 70.0%, and with no Healthy and no Fault line
    (all shut off) 0.0%. *)
Theorem report_uptime_uniform (ls : list LTLine) :
  0 < Z.of_nat (length ls) < 2 ^ 32 ->
  ((forall l, l ∈ ls -> LTLine.status l = Healthy) ->
   uptime_card (report ls) = Some "99.5%"%string)
  /\ ((forall l, l ∈ ls -> LTLine.status l = Fault) ->
      uptime_card (report ls) = Some "70.0%"%string)
  /\ ((forall l, l ∈ ls -> LTLine.status l = Shutoff) ->
      uptime_card (report ls) = Some "0.0%"%string).
Proof.
  intros Hn. unfold uptime_card. repeat split; intros Hall.
  - rewrite (report_uptime_exact ls 199 Hn); [reflexivity|].
    rewrite (count_status_all Healthy ls Hall), (count_status_none Fault ls); [lia|].
    intros l Hl. rewrite (Hall l Hl). discriminate.
  - rewrite (report_uptime_exact ls 140 Hn); [reflexivity|].
    rewrite (count_status_all Fault ls Hall), (count_status_none Healthy ls); [lia|].
    intros l Hl. rewrite (Hall l Hl). discriminate.
  - rewrite (report_uptime_exact ls 0 Hn); [reflexivity|].
    rewrite (count_status_none Healthy ls), (count_status_none Fault ls); [lia| |];
      intros l Hl; rewrite (Hall l Hl); discriminate.
Qed.

Lemma report_uptime_uniform_witness :
  uptime_card (report (lines all_fault_state)) = Some "70.0%"%string.
Proof.
  apply (proj1 (proj2 (report_uptime_uniform (lines all_fault_state)
                         ltac:(simpl; lia)))).
  intros l Hl. apply list_elem_of_lookup in Hl as [i Hi].
  do 3 (destruct i as [|i]; [injection Hi as <-; reflexivity|]).
  discriminate Hi.
Defined.

(** ** Update status, continued *)

Section UpdateMore.

(** With unique identifiers the update rewrites one position. *)
Lemma set_status_insert lineId status ls i l :
  NoDup (LTLine.id <$> ls) -> ls !! i = Some l -> LTLine.id l = lineId ->
  set_status lineId status ls = <[i := LTLine.with_status l status]> ls.
Proof.
  intros Hnd Hi Hid. apply list_eq. intros j.
  rewrite set_status_lookup.
  destruct (decide (j = i)) as [->|Hne].
  - rewrite Hi, list_lookup_insert_eq by (eapply lookup_lt_Some; eauto).
    simpl. now rewrite decide_True.
  - rewrite list_lookup_insert_ne by congruence.
    destruct (ls !! j) as [l'|] eqn:Hj; [|reflexivity]. simpl.
    rewrite decide_False; [reflexivity|]. intros Hid'. apply Hne.
    apply (NoDup_lookup _ j i lineId Hnd).
    + now rewrite list_lookup_fmap, Hj, <- Hid'.
    + now rewrite list_lookup_fmap, Hi, <- Hid.
Qed.

Lemma count_status_insert t ls i l x :
  ls !! i = Some l ->
  count_status t (<[i := x]> ls)
  = count_status t ls
    - (if decide (LTLine.status l = t) then 1 else 0)
    + (if decide (LTLine.status x = t) then 1 else 0).
Proof.
  intros Hi.
  rewrite insert_take_drop by (eapply lookup_lt_Some; eauto).
  rewrite <- (take_drop_middle ls i l Hi) at 3.
  rewrite !count_status_app, !count_status_cons. lia.
Qed.

(** The name an identifier stands for does not depend on statuses. *)
Lemma lineName_set_status lineId status ls lineId' :
  lineName (set_status lineId status ls) lineId' = lineName ls lineId'.
Proof.
  unfold lineName, set_status.
  induction ls as [|l ls IH]; [reflexivity|].
  rewrite fmap_cons. cbn [list_find].
  destruct (decide (LTLine.id l = lineId)) as [E|E].
  - change (LTLine.id (LTLine.with_status l status)) with (LTLine.id l).
    destruct (decide (LTLine.id l = lineId')); [reflexivity|].
    destruct (list_find _ (_ <$> ls)) as [[? ?]|],
             (list_find _ ls) as [[? ?]|]; simpl in *; congruence.
  - destruct (decide (LTLine.id l = lineId')); [reflexivity|].
    destruct (list_find _ (_ <$> ls)) as [[? ?]|],
             (list_find _ ls) as [[? ?]|]; simpl in *; congruence.
Qed.

End UpdateMore.

Section TitleMore.

(** Looking an identifier up after a status update finds the same position,
    with the line as the update left it. *)
Lemma list_find_set_status x lineId status ls :
  list_find (fun l => LTLine.id l = x) (set_status lineId status ls)
  = prod_map id (fun l => if decide (LTLine.id l = lineId)
                          then LTLine.with_status l status else l)
      <$> list_find (fun l => LTLine.id l = x) ls.
Proof.
  unfold set_status. rewrite list_find_fmap. f_equal.
  apply list_find_ext. intros l. simpl.
  now destruct (decide (LTLine.id l = lineId)).
Qed.

Lemma notificationTitle_set_status lineId status ls n :
  notificationTitle (set_status lineId status ls) n = notificationTitle ls n.
Proof.
  unfold notificationTitle. rewrite list_find_set_status.
  destruct (list_find _ ls) as [[i l]|]; [|reflexivity]. simpl.
  now destruct (decide (LTLine.id l = lineId)).
Qed.

Lemma take_cons_cons {A} (x y : A) (xs : list A) :
  take 20 (x :: take 20 (y :: xs)) = take 20 (x :: y :: xs).
Proof. apply (take_app_take 20 [x] (y :: xs)). Qed.

End TitleMore.

(** The seed lines have identifiers of their own. *)
Lemma initialLines_ids : NoDup (LTLine.id <$> lines seed_state).
Proof. apply (bool_decide_unpack _). vm_compute. exact I. Qed.



(** X5.  Two status updates in a row.  On the lines the later one wins for
    the same identifier, updates of different identifiers commute, and an
    update repeated changes no line; in the log both entries are kept,
    the later one first, each naming its line as before the updates. *)
Theorem updateLineStatus_twice (e1 e2 : Stamp) (a b : string)
    (s1 s2 : LineStatus) (st : State) :
  lines (updateLineStatus e2 a s2 (updateLineStatus e1 a s1 st))
  = lines (updateLineStatus e2 a s2 st)
  /\ (a <> b ->
      lines (updateLineStatus e2 a s2 (updateLineStatus e1 b s1 st))
      = lines (updateLineStatus e1 b s1 (updateLineStatus e2 a s2 st)))
  /\ lines (updateLineStatus e2 a s1 (updateLineStatus e1 a s1 st))
     = lines (updateLineStatus e1 a s1 st)
  /\ notifications (updateLineStatus e2 a s2 (updateLineStatus e1 b s1 st))
     = take 20
         (new_item e2 a (change_message (lineName (lines st) a) s2) s2
          :: new_item e1 b (change_message (lineName (lines st) b) s1) s1
          :: notifications st).
Proof.
  rewrite !updateLineStatus_lines.
  assert (Hsame : forall s s', set_status a s' (set_status a s (lines st))
                               = set_status a s' (lines st)).
  { intros s s'. unfold set_status. rewrite <- list_fmap_compose.
    apply list_fmap_ext. intros i l _. simpl.
    destruct (decide (LTLine.id l = a)); simpl;
      [rewrite decide_True by assumption | rewrite decide_False by assumption];
      reflexivity. }
  split; [apply Hsame|]. split; [|split; [apply Hsame|]].
  - intros Hab. unfold set_status. rewrite <- !list_fmap_compose.
    apply list_fmap_ext. intros i l _. simpl.
    destruct (decide (LTLine.id l = a)) as [Ea|Ea],
             (decide (LTLine.id l = b)) as [Eb|Eb]; simpl;
      try congruence;
      repeat first [rewrite decide_True by assumption
                   |rewrite decide_False by assumption]; reflexivity.
  - rewrite !updateLineStatus_notifications, updateLineStatus_lines.
    rewrite lineName_set_status. apply take_cons_cons.
Qed.

Lemma updateLineStatus_twice_witness :
  lines (updateLineStatus sample_stamp "lt-1" Fault
           (updateLineStatus sample_stamp "lt-2" Shutoff seed_state))
  = lines (updateLineStatus sample_stamp "lt-2" Shutoff
             (updateLineStatus sample_stamp "lt-1" Fault seed_state)).
Proof.
  refine (proj1 (proj2 (updateLineStatus_twice sample_stamp sample_stamp
                          "lt-1" "lt-2" Shutoff Fault seed_state)) _).
  discriminate.
Defined.

(** X6.  The heading shown for a log entry (the name of the line its
    identifier stands for, or System) is not changed by status updates or
    simulated faults.  The entry a status update logs is headed by the
    line's name when a line with a non-empty name carries the identifier,
    and by System when no line does, while its message then says Line. *)
Theorem notificationTitle_update (e : Stamp) (lineId : string)
    (status : LineStatus) (st : State) :
  (forall n, notificationTitle (lines (updateLineStatus e lineId status st)) n
             = notificationTitle (lines st) n)
  /\ (forall r n, notificationTitle (lines (simulateFault r e st)) n
                  = notificationTitle (lines st) n)
  /\ (forall i l,
        lines st !! i = Some l -> LTLine.id l = lineId ->
        (forall j l', (j < i)%nat -> lines st !! j = Some l' ->
                      LTLine.id l' <> lineId) ->
        LTLine.name l <> EmptyString ->
        exists item,
          head (notifications (updateLineStatus e lineId status st)) = Some item
          /\ notificationTitle (lines (updateLineStatus e lineId status st)) item
             = LTLine.name l
          /\ NotificationItem.message item
             = LTLine.name l +:+ " status changed to " +:+ status_text status)
  /\ ((forall l, l ∈ lines st -> LTLine.id l <> lineId) ->
      exists item,
        head (notifications (updateLineStatus e lineId status st)) = Some item
        /\ notificationTitle (lines (updateLineStatus e lineId status st)) item
           = "System"%string
        /\ NotificationItem.message item
           = "Line status changed to " +:+ status_text status).
Proof.
  assert (Hstable : forall a s n,
            notificationTitle (lines (updateLineStatus e a s st)) n
            = notificationTitle (lines st) n).
  { intros a s n. rewrite updateLineStatus_lines.
    apply notificationTitle_set_status. }
  split; [apply Hstable|]. split; [|split].
  - intros r n. unfold simulateFault.
    destruct (pick r (lines st)); [apply Hstable | reflexivity].
  - intros i l Hi Hid Hfirst Hname.
    exists (new_item e lineId (change_message (LTLine.name l) status) status).
    rewrite Hstable, updateLineStatus_notifications,
      (lineName_first lineId (lines st) i l Hi Hid Hfirst).
    split; [reflexivity|]. split; [|reflexivity].
    unfold notificationTitle. cbn [new_item NotificationItem.lineId].
    assert (list_find (fun l => LTLine.id l = lineId) (lines st) = Some (i, l))
      as ->.
    { apply list_find_Some. split; [exact Hi|]. split; [exact Hid|].
      intros j y Hj Hlt. now apply (Hfirst j y). }
    now rewrite decide_False.
  - intros Habs.
    exists (new_item e lineId (change_message "Line" status) status).
    rewrite Hstable, updateLineStatus_notifications,
      (lineName_absent lineId (lines st) Habs).
    split; [reflexivity|]. split; [|reflexivity].
    unfold notificationTitle. cbn [new_item NotificationItem.lineId].
    assert (list_find (fun l => LTLine.id l = lineId) (lines st) = None) as ->;
      [|reflexivity].
    apply list_find_None, Forall_forall. exact Habs.
Qed.

Lemma notificationTitle_update_witness :
  exists item,
    head (notifications (updateLineStatus sample_stamp "lt-9" Fault seed_state))
    = Some item
    /\ notificationTitle
         (lines (updateLineStatus sample_stamp "lt-9" Fault seed_state)) item
       = "System"%string
    /\ NotificationItem.message item
       = "Line status changed to " +:+ status_text Fault.
Proof.
  apply (proj2 (proj2 (proj2
           (notificationTitle_update sample_stamp "lt-9" Fault seed_state)))).
  intros l Hl. apply list_elem_of_lookup in Hl as [i Hi].
  do 3 (destruct i as [|i]; [injection Hi as <-; discriminate|]).
  discriminate Hi.
Defined.

(** ** Notifications, continued *)

(** X7.  Starting from a log of at most 20 entries, after [k] calls of
    [addNotification] the log holds [min 20 (k + old length)] entries: no
    entry is lost below the cap.  After 20 calls or more nothing of the old
    log is left: the log is the last 20 calls, newest first. *)
Theorem addNotifications_length (cs : list Call) (st : State) :
  (length (notifications st) <= 20)%nat ->
  length (notifications (addNotifications cs st))
  = ((length cs + length (notifications st)) `min` 20)%nat
  /\ ((20 <= length cs)%nat ->
      notifications (addNotifications cs st)
      = take 20 (reverse (call_item <$> cs))).
Proof.
  intros Hst. rewrite addNotifications_notifications by exact Hst. split.
  - rewrite length_take, length_app, length_reverse, length_fmap. lia.
  - intros Hcs. rewrite take_app_le; [reflexivity|].
    rewrite length_reverse, length_fmap. exact Hcs.
Qed.

Lemma addNotifications_length_witness :
  length (notifications (addNotifications sample_calls seed_state)) = 20%nat.
Proof.
  apply (proj1 (addNotifications_length sample_calls seed_state
                  ltac:(simpl; lia))).
Defined.

(** ** Simulate a random fault, continued *)

Section FaultMore.

Lemma candidates_cons l ls :
  candidates (l :: ls)
  = if decide (LTLine.status l <> Fault) then l :: candidates ls
    else candidates ls.
Proof. unfold candidates. now rewrite filter_cons. Qed.

(** A line is a candidate or in Fault. *)
Lemma candidates_length ls :
  Z.of_nat (length (candidates ls))
  = Z.of_nat (length ls) - count_status Fault ls.
Proof.
  induction ls as [|l ls IH]; [reflexivity|].
  rewrite candidates_cons, count_status_cons, length_cons.
  destruct (decide (LTLine.status l = Fault)) as [Hs|Hs].
  - rewrite decide_False by (intros H; now apply H). lia.
  - rewrite decide_True by exact Hs. rewrite length_cons. lia.
Qed.

Lemma set_status_cons lineId status l ls :
  set_status lineId status (l :: ls)
  = (if decide (LTLine.id l = lineId) then LTLine.with_status l status else l)
    :: set_status lineId status ls.
Proof. reflexivity. Qed.

(** Setting Fault never lowers the number of lines in Fault, and raises it
    when a line that is not in Fault carries the identifier. *)
Lemma count_fault_set_status lineId ls :
  count_status Fault ls <= count_status Fault (set_status lineId Fault ls).
Proof.
  induction ls as [|l ls IH]; [reflexivity|].
  rewrite set_status_cons, !count_status_cons.
  destruct (decide (LTLine.id l = lineId)); [|lia].
  cbn [LTLine.with_status LTLine.status].
  repeat case_decide; try congruence; lia.
Qed.

Lemma count_fault_set_status_lt p ls :
  p ∈ ls -> LTLine.status p <> Fault ->
  count_status Fault ls < count_status Fault (set_status (LTLine.id p) Fault ls).
Proof.
  intros Hin Hs. induction ls as [|l ls IH]; [now apply elem_of_nil in Hin|].
  rewrite set_status_cons, !count_status_cons.
  pose proof (count_fault_set_status (LTLine.id p) ls) as Hle.
  apply elem_of_cons in Hin as [<-|Hin].
  - destruct (decide (LTLine.id p = LTLine.id p)); [|congruence].
    cbn [LTLine.with_status LTLine.status].
    repeat case_decide; try congruence; lia.
  - specialize (IH Hin).
    destruct (decide (LTLine.id l = LTLine.id p)); [|lia].
    cbn [LTLine.with_status LTLine.status].
    repeat case_decide; try congruence; lia.
Qed.

End FaultMore.

(** X8.  A simulated fault that selects a line puts at least one more line
    in Fault and leaves fewer candidates than before; with unique
    identifiers it is exactly one line, and the log grows by one entry
    below the cap. *)
Theorem simulateFault_progress (r : number) (e : Stamp) (st : State)
    (p : LTLine) :
  pick r (lines st) = Some p ->
  let st' := simulateFault r e st in
  count_status Fault (lines st) + 1 <= count_status Fault (lines st')
  /\ (length (candidates (lines st')) < length (candidates (lines st)))%nat
  /\ (NoDup (LTLine.id <$> lines st) ->
      count_status Fault (lines st') = count_status Fault (lines st) + 1
      /\ S (length (candidates (lines st'))) = length (candidates (lines st)))
  /\ length (notifications st') = (S (length (notifications st)) `min` 20)%nat.
Proof.
  intros Hp st'. subst st'. unfold simulateFault. rewrite Hp.
  destruct (pick_candidate _ _ _ Hp) as [Hin Hs].
  rewrite updateLineStatus_lines, updateLineStatus_notifications.
  pose proof (count_fault_set_status_lt p (lines st) Hin Hs) as Hlt.
  pose proof (candidates_length (lines st)) as Hc.
  pose proof (candidates_length (set_status (LTLine.id p) Fault (lines st))) as Hc'.
  rewrite set_status_length in Hc'.
  split; [lia|]. split; [lia|]. split.
  - intros Hnd. apply list_elem_of_lookup in Hin as [i Hi].
    assert (E : count_status Fault (set_status (LTLine.id p) Fault (lines st))
                = count_status Fault (lines st) + 1).
    { rewrite (set_status_insert _ Fault _ i p Hnd Hi eq_refl).
      rewrite (count_status_insert Fault _ i p _ Hi).
      cbn [LTLine.with_status LTLine.status].
      repeat case_decide; try congruence; lia. }
    split; [exact E|lia].
  - rewrite length_take, length_cons. lia.
Qed.

Lemma simulateFault_progress_witness :
  count_status Fault (lines seed_state) + 1
  <= count_status Fault (lines (simulateFault (Num.lit 5 1) sample_stamp seed_state)).
Proof.
  destruct (pick (Num.lit 5 1) (lines seed_state)) as [p|] eqn:Hp;
    [|vm_compute in Hp; discriminate Hp].
  apply (proj1 (simulateFault_progress (Num.lit 5 1) sample_stamp seed_state p Hp)).
Defined.

(** ** Where a line's marker sits *)

(** X9.  The marker index [floor(length / 2)] is within the coordinate
    sequence whenever the sequence is not empty, so a line with at least
    one point always has a marker position; it is the point after the
    first half.  A line without points has none. *)
Theorem mid_in_bounds (line : LTLine) :
  (LTLine.coords line <> [] ->
   (midIdx line < length (LTLine.coords line))%nat
   /\ exists c, mid line = Some c
        /\ LTLine.coords line
           = take (midIdx line) (LTLine.coords line) ++ c
             :: drop (S (midIdx line)) (LTLine.coords line)
        /\ (length (take (midIdx line) (LTLine.coords line))
            <= S (length (drop (S (midIdx line)) (LTLine.coords line))))%nat
        /\ (length (drop (S (midIdx line)) (LTLine.coords line))
            <= length (take (midIdx line) (LTLine.coords line)))%nat)
  /\ (LTLine.coords line = [] -> mid line = None).
Proof.
  unfold mid, midIdx. split.
  - intros Hne. set (cs := LTLine.coords line) in *.
    assert (Hlen : (0 < length cs)%nat) by (destruct cs; [congruence|simpl; lia]).
    assert (Hlt : (length cs / 2 < length cs)%nat)
      by (apply Nat.div_lt; lia).
    split; [exact Hlt|].
    destruct (lookup_lt_is_Some_2 cs _ Hlt) as [c Hc].
    exists c. split; [exact Hc|]. split; [now rewrite take_drop_middle|].
    rewrite length_take, length_drop.
    pose proof (Nat.div_mod_eq (length cs) 2) as E.
    pose proof (Nat.mod_upper_bound (length cs) 2 ltac:(lia)). lia.
  - intros ->. reflexivity.
Qed.

Lemma mid_in_bounds_witness :
  Forall (fun line => (midIdx line < length (LTLine.coords line))%nat)
         initialLines.
Proof.
  constructor; [|constructor; [|constructor; [|constructor]]];
    (refine (proj1 (proj1 (mid_in_bounds _) _)); discriminate).
Defined.

(** ** Download CSV, continued *)

Section CsvMore.

Lemma plain_no_newline s : plain s = true -> no_newline s = true.
Proof.
  induction s as [|c s IH]; [reflexivity|]. simpl.
  destruct (Ascii.eqb c "010"); simpl; [discriminate|].
  destruct (Ascii.eqb c "034"); simpl; [discriminate|]. exact IH.
Qed.

(** The first double quote of a text is where a plain prefix ends. *)
Lemma plain_prefix_inj (a b x y : string) :
  plain a = true -> plain b = true ->
  a +:+ String "034" x = b +:+ String "034" y -> a = b /\ x = y.
Proof.
  revert b. induction a as [|c a IH]; intros [|c' b] Ha Hb E.
  - now injection E as <-.
  - exfalso. injection E as <- _. discriminate Hb.
  - exfalso. injection E as -> _. discriminate Ha.
  - injection E as <- E. simpl in Ha, Hb.
    apply andb_true_iff in Ha as [_ Ha]. apply andb_true_iff in Hb as [_ Hb].
    destruct (IH b Ha Hb E) as [-> ->]. now split.
Qed.

(** A row, character by character. *)
Lemma line_row_chars l :
  line_row l
  = String "034" (LTLine.id l +:+ String "034" (String "," (String "034"
      (LTLine.name l +:+ String "034" (String "," (String "034"
         (status_text (LTLine.status l) +:+ String "034" EmptyString))))))).
Proof. unfold line_row, quoted, dquote. now rewrite !append_assoc. Qed.

Lemma status_text_inj s s' : status_text s = status_text s' -> s = s'.
Proof. destruct s, s'; simpl; intros E; congruence. Qed.

Lemma status_text_plain s : plain (status_text s) = true.
Proof. now destruct s. Qed.

Lemma line_row_inj l l' :
  plain (LTLine.id l) = true -> plain (LTLine.name l) = true ->
  plain (LTLine.id l') = true -> plain (LTLine.name l') = true ->
  line_row l = line_row l' -> exported l = exported l'.
Proof.
  intros Hi Hn Hi' Hn' E. rewrite !line_row_chars in E.
  injection E as E.
  apply plain_prefix_inj in E as [Eid E]; [|assumption..].
  injection E as E.
  apply plain_prefix_inj in E as [Ename E]; [|assumption..].
  injection E as E.
  apply plain_prefix_inj in E as [Est _]; [|apply status_text_plain..].
  unfold exported. now rewrite Eid, Ename, (status_text_inj _ _ Est).
Qed.

End CsvMore.

(** X10.  The export loses nothing of what it writes: when no identifier
    and no name contains a newline or a double quote, two line lists with
    the same CSV text have the same identifiers, names and statuses, line
    by line.  (Fields are not escaped, so this needs the restriction.) *)
Theorem csv_injective (ls ls' : list LTLine) :
  Forall (fun l => plain (LTLine.id l) = true /\ plain (LTLine.name l) = true) ls ->
  Forall (fun l => plain (LTLine.id l) = true /\ plain (LTLine.name l) = true) ls' ->
  csv ls = csv ls' -> exported <$> ls = exported <$> ls'.
Proof.
  intros Hls Hls' E.
  assert (Hrows : forall xs,
            Forall (fun l => plain (LTLine.id l) = true
                             /\ plain (LTLine.name l) = true) xs ->
            split_rows (csv xs) = header_row :: (line_row <$> xs)).
  { intros xs Hxs. rewrite csv_rows. apply split_rows_concat; [reflexivity|].
    apply Forall_fmap. eapply Forall_impl; [exact Hxs|].
    intros l [Hi Hn]. apply no_newline_line_row; now apply plain_no_newline. }
  assert (Erows : line_row <$> ls = line_row <$> ls').
  { pose proof (Hrows ls Hls) as H1. rewrite E, (Hrows ls' Hls') in H1.
    now injection H1. }
  clear E Hrows. revert ls' Hls' Erows.
  induction Hls as [|l ls [Hi Hn] _ IH]; intros [|l' ls'] Hls' Erows;
    try discriminate Erows; [reflexivity|].
  apply Forall_cons in Hls' as [[Hi' Hn'] Hls'].
  rewrite !fmap_cons in Erows.
  pose proof (f_equal (fun xs => default EmptyString (head xs)) Erows) as El.
  apply (f_equal tail) in Erows. cbn [head tail default] in El, Erows.
  rewrite !fmap_cons, (line_row_inj l l' Hi Hn Hi' Hn' El), (IH ls' Hls' Erows).
  reflexivity.
Qed.

Lemma csv_injective_witness :
  exported <$> lines seed_state = exported <$> initialLines.
Proof.
  apply (csv_injective (lines seed_state) initialLines);
    [repeat constructor.. | reflexivity].
Defined.

(** ** Map refs, continued *)

Section InStep.

Implicit Types (r : Refs).

#[local] Set Warnings "-clear-no-such-hyp".

Local Ltac sets := set_unfold; naive_solver.

Local Abbreviation draw := (fun r l => after (addOrUpdateLineLayer r l)).

Lemma slot_other (table : gmap string LineLayers) (key : string) :
  key ∉ inherited ->
  slot table key = match table !! key with
                   | Some layers => Own layers
                   | None => Undefined
                   end.
Proof.
  intros Hk. unfold slot. destruct (table !! key); [reflexivity|].
  now rewrite decide_False.
Qed.

Lemma drawable_spec line :
  drawable line = true ->
  (LTLine.id line ∉ inherited) /\ is_Some (mid line)
  /\ forallb Leaflet.latLng (LTLine.coords line) = true.
Proof.
  unfold drawable. rewrite !andb_true_iff, !bool_decide_eq_true. tauto.
Qed.

(** What drawing a drawable line leaves. *)
Lemma addOrUpdateLineLayer_returns r line map :
  drawable line = true -> leafletRef r = true -> mapRef r = Some map ->
  addOrUpdateLineLayer r line
  = Returns
      (mkRefs
         (Some (if decide (LTLine.id line ∈ hiddenLinesRef r)
                then match layersRef r !! LTLine.id line with
                     | Some existing =>
                         Leaflet.removeLayer
                           (Leaflet.removeLayer map (polyline existing))
                           (marker existing)
                     | None => map
                     end
                else Leaflet.addTo (S (created r))
                       (Leaflet.addTo (created r)
                          match layersRef r !! LTLine.id line with
                          | Some existing =>
                              Leaflet.removeLayer
                                (Leaflet.removeLayer map (polyline existing))
                                (marker existing)
                          | None => map
                          end)))
         true
         (<[LTLine.id line := mkLayers (created r) (S (created r)) true]>
            (layersRef r))
         (hiddenLinesRef r) (S (S (created r)))).
Proof.
  intros Hd HL Hm. destruct (drawable_spec _ Hd) as (Hid & Hmid & Hnan).
  unfold addOrUpdateLineLayer.
  rewrite HL, Hm, (slot_other _ _ Hid), Hnan, (bool_decide_eq_true_2 _ Hmid).
  destruct (layersRef r !! LTLine.id line);
    cbn [positioned polyline marker];
    destruct (decide (LTLine.id line ∈ hiddenLinesRef r)); reflexivity.
Qed.

Lemma addOrUpdateLineLayer_idle r line :
  leafletRef r = false \/ mapRef r = None ->
  addOrUpdateLineLayer r line = Returns r.
Proof.
  unfold addOrUpdateLineLayer. intros [->| ->]; [reflexivity|].
  now destruct (leafletRef r).
Qed.

Lemma addOrUpdateLineLayer_drawable r line :
  drawable line = true -> throws (addOrUpdateLineLayer r line) = false.
Proof.
  intros Hd. destruct (leafletRef r) eqn:HL;
    [|now rewrite addOrUpdateLineLayer_idle by auto].
  destruct (mapRef r) as [map|] eqn:Hm;
    [|now rewrite addOrUpdateLineLayer_idle by auto].
  now rewrite (addOrUpdateLineLayer_returns r line map).
Qed.

Lemma forEach_app {S A} (f : S -> A -> Outcome S) (xs ys : list A) :
  forall s,
    forEach f s (xs ++ ys)
    = match forEach f s xs with
      | Returns s' => forEach f s' ys
      | Throws s' => Throws s'
      end.
Proof.
  induction xs as [|x xs IH]; intros s; [reflexivity|].
  cbn [app forEach]. destruct (f s x); [apply IH|reflexivity].
Qed.

(** Drawable lines are all drawn, one after the other. *)
Lemma forEach_drawable ls : forall r,
  Forall (fun l => drawable l = true) ls ->
  forEach addOrUpdateLineLayer r ls = Returns (foldl draw r ls).
Proof.
  induction ls as [|l ls IH]; intros r Hls; [reflexivity|].
  apply Forall_cons in Hls as [Hl Hls]. cbn [forEach foldl].
  pose proof (addOrUpdateLineLayer_drawable r l Hl) as Ht.
  destruct (addOrUpdateLineLayer r l) as [r'|r']; [|discriminate].
  now apply IH.
Qed.

Lemma in_step_initial : in_step initialRefs.
Proof.
  repeat split; try (intros; simplify_map_eq; fail); try discriminate.
Qed.

Lemma in_step_below r map x :
  in_step r -> mapRef r = Some map -> x ∈ map -> (x < created r)%nat.
Proof.
  intros (Hfresh & _ & _ & Hmap & _) Hm Hx.
  destruct (Hmap map Hm) as [_ Horph].
  destruct (Horph x Hx) as (id & ly & Hl & Hin). eauto.
Qed.

Lemma addOrUpdateLineLayer_in_step r line :
  drawable line = true -> in_step r ->
  in_step (after (addOrUpdateLineLayer r line)).
Proof.
  intros Hd Hr.
  destruct (leafletRef r) eqn:HL;
    [|now rewrite addOrUpdateLineLayer_idle by auto].
  destruct (mapRef r) as [map|] eqn:Hm;
    [|now rewrite addOrUpdateLineLayer_idle by auto].
  rewrite (addOrUpdateLineLayer_returns r line map Hd HL Hm). cbn [after].
  destruct (drawable_spec _ Hd) as (Hid & _ & _).
  pose proof (fun x => in_step_below r map x Hr Hm) as Hbelow.
  destruct Hr as (Hfresh & Hdisj & _ & Hmap & Hkeys).
  destruct (Hmap map Hm) as [Hshown Horph].
  set (id0 := LTLine.id line) in *. set (c := created r) in *.
  set (map1 := match layersRef r !! id0 with
               | Some existing =>
                   Leaflet.removeLayer
                     (Leaflet.removeLayer map (polyline existing))
                     (marker existing)
               | None => map
               end).
  assert (Hmap1 : forall x, x ∈ map1 <->
            x ∈ map /\ forall ex, layersRef r !! id0 = Some ex -> x ∉ layer_set ex).
  { intros x. unfold map1, Leaflet.removeLayer, layer_set.
    destruct (layersRef r !! id0) as [ex|].
    - split.
      + intros Hx. split; [sets|]. intros ex' [= <-]. sets.
      + intros [Hx Hex]. specialize (Hex ex eq_refl). sets.
    - split; [intros Hx; split; [exact Hx|discriminate] | tauto]. }
  clearbody map1.
  set (map2 := if decide (id0 ∈ hiddenLinesRef r) then map1
               else Leaflet.addTo (S c) (Leaflet.addTo c map1)).
  assert (Hmap2 : forall x, x ∈ map2 <->
            x ∈ map1 \/ ((id0 ∉ hiddenLinesRef r) /\ (x = c \/ x = S c))).
  { intros x. unfold map2, Leaflet.addTo.
    destruct (decide (id0 ∈ hiddenLinesRef r)); sets. }
  clearbody map2.
  assert (Hnew : forall x, x ∈ layer_set (mkLayers c (S c) true)
                           <-> x = c \/ x = S c).
  { intros x. unfold layer_set. cbn [polyline marker]. sets. }
  split; [|split; [|split; [|split]]];
    cbn [layersRef created mapRef hiddenLinesRef].
  - intros id ly x Hl Hx. destruct (decide (id = id0)) as [->|Hne].
    + rewrite lookup_insert_eq in Hl. injection Hl as <-.
      apply Hnew in Hx. lia.
    + rewrite lookup_insert_ne in Hl by congruence.
      specialize (Hfresh id ly x Hl Hx). lia.
  - intros id id' ly ly' Hl Hl' Hne.
    apply elem_of_disjoint. intros x Hx Hx'.
    destruct (decide (id = id0)) as [->|Hn1], (decide (id' = id0)) as [->|Hn2];
      try congruence.
    + rewrite lookup_insert_eq in Hl. injection Hl as <-.
      rewrite lookup_insert_ne in Hl' by congruence.
      apply Hnew in Hx. specialize (Hfresh id' ly' x Hl' Hx'). lia.
    + rewrite lookup_insert_eq in Hl'. injection Hl' as <-.
      rewrite lookup_insert_ne in Hl by congruence.
      apply Hnew in Hx'. specialize (Hfresh id ly x Hl Hx). lia.
    + rewrite lookup_insert_ne in Hl, Hl' by congruence.
      pose proof (Hdisj id id' ly ly' Hl Hl' Hne) as Hd'.
      apply elem_of_disjoint in Hd'. now apply (Hd' x).
  - discriminate.
  - intros map' [= <-]. split.
    + intros id ly x Hl Hx. rewrite Hmap2, Hmap1.
      destruct (decide (id = id0)) as [->|Hne].
      * rewrite lookup_insert_eq in Hl. injection Hl as <-.
        apply Hnew in Hx. split.
        -- intros [[Hin _]|[Hh _]]; [|exact Hh].
           specialize (Hbelow x Hin). lia.
        -- intros Hh. right. now split.
      * rewrite lookup_insert_ne in Hl by congruence.
        pose proof (Hfresh id ly x Hl Hx) as Hlt.
        rewrite <- (Hshown id ly x Hl Hx). split.
        -- intros [[Hin _]|[_ Hc]]; [exact Hin|lia].
        -- intros Hin. left. split; [exact Hin|].
           intros ex Hex Hxe.
           pose proof (Hdisj id id0 ly ex Hl Hex Hne) as Hd'.
           apply elem_of_disjoint in Hd'. now apply (Hd' x).
    + intros x Hx. apply Hmap2 in Hx as [Hx|[_ Hc]].
      * apply Hmap1 in Hx as [Hin Hex].
        destruct (Horph x Hin) as (id & ly & Hl & Hxl).
        destruct (decide (id = id0)) as [->|Hne].
        -- exfalso. now apply (Hex ly Hl).
        -- exists id, ly. now rewrite lookup_insert_ne by congruence.
      * exists id0, (mkLayers c (S c) true).
        rewrite lookup_insert_eq. split; [reflexivity|]. now apply Hnew.
  - intros id ly Hl. destruct (decide (id = id0)) as [->|Hne].
    + rewrite lookup_insert_eq in Hl. injection Hl as <-. now split.
    + rewrite lookup_insert_ne in Hl by congruence. now apply Hkeys.
Qed.

Lemma foldl_in_step ls : forall r,
  Forall (fun l => drawable l = true) ls ->
  in_step r -> in_step (foldl draw r ls).
Proof.
  induction ls as [|l ls IH]; intros r Hls H; [exact H|].
  apply Forall_cons in Hls as [Hl Hls].
  cbn [foldl]. apply IH; [exact Hls|].
  now apply addOrUpdateLineLayer_in_step.
Qed.

Lemma toggleLineVisibility_in_step lineId visible r :
  in_step r -> in_step (after (toggleLineVisibility lineId visible r)).
Proof.
  intros Hr. unfold toggleLineVisibility.
  destruct (mapRef r) as [map|] eqn:Hm; [|exact Hr].
  pose proof Hr as (Hfresh & Hdisj & Hnone & Hmap & Hkeys).
  destruct (Hmap map Hm) as [Hshown Horph].
  unfold slot.
  destruct (layersRef r !! lineId) as [ly0|] eqn:Hl0.
  - assert (Hother : forall id ly x, layersRef r !! id = Some ly ->
              x ∈ layer_set ly -> id <> lineId -> x ∉ layer_set ly0).
    { intros id ly x Hl Hx Hne Hx0.
      pose proof (Hdisj id lineId ly ly0 Hl Hl0 Hne) as Hd.
      apply elem_of_disjoint in Hd. now apply (Hd x). }
    assert (Hset : forall x, x ∈ layer_set ly0
                             <-> x = polyline ly0 \/ x = marker ly0).
    { intros x. unfold layer_set. sets. }
    destruct visible;
      [destruct (positioned ly0 || _)|]; cbn [after];
      (split; [|split; [|split; [|split]]]);
      cbn [layersRef created mapRef hiddenLinesRef];
      try assumption; try discriminate;
      intros map' [= <-]; unfold Leaflet.addTo, Leaflet.removeLayer; split.
    + clear Hr Hfresh Hdisj Hnone Hmap Hkeys Horph.
      intros id ly x Hl Hx. destruct (decide (id = lineId)) as [->|Hne].
      * rewrite Hl0 in Hl. injection Hl as <-. apply Hset in Hx. sets.
      * pose proof (Hother id ly x Hl Hx Hne) as Hno. rewrite Hset in Hno.
        pose proof (Hshown id ly x Hl Hx). sets.
    + clear Hr Hfresh Hdisj Hnone Hmap Hkeys Hshown Hother.
      intros x Hx.
      destruct (decide (x ∈ layer_set ly0)) as [Hin|Hnin].
      * now exists lineId, ly0.
      * rewrite Hset in Hnin. apply Horph. sets.
    + clear Hr Hfresh Hdisj Hnone Hmap Hkeys Horph.
      intros id ly x Hl Hx. destruct (decide (id = lineId)) as [->|Hne].
      * rewrite Hl0 in Hl. injection Hl as <-. apply Hset in Hx. sets.
      * pose proof (Hother id ly x Hl Hx Hne) as Hno. rewrite Hset in Hno.
        pose proof (Hshown id ly x Hl Hx). sets.
    + clear Hr Hfresh Hdisj Hnone Hmap Hkeys Hshown Hother.
      intros x Hx.
      destruct (decide (x ∈ layer_set ly0)) as [Hin|Hnin].
      * now exists lineId, ly0.
      * rewrite Hset in Hnin. apply Horph. sets.
    + clear Hr Hfresh Hdisj Hnone Hmap Hkeys Horph.
      intros id ly x Hl Hx. destruct (decide (id = lineId)) as [->|Hne].
      * rewrite Hl0 in Hl. injection Hl as <-. apply Hset in Hx. sets.
      * pose proof (Hother id ly x Hl Hx Hne) as Hno. rewrite Hset in Hno.
        pose proof (Hshown id ly x Hl Hx). sets.
    + clear Hr Hfresh Hdisj Hnone Hmap Hkeys Hshown Hother.
      intros x Hx. apply Horph. sets.
  - destruct (decide (lineId ∈ inherited)) as [Hin|Hnin]; cbn [after];
      [|exact Hr].
    split; [|split; [|split; [|split]]];
      cbn [layersRef created mapRef hiddenLinesRef];
      try assumption; try discriminate.
    intros map' [= <-]. split; [|exact Horph].
    intros id ly x Hl Hx. rewrite (Hshown id ly x Hl Hx).
    assert (id <> lineId) by (intros ->; now apply (Hkeys _ _ Hl)).
    clear - H. destruct visible; sets.
Qed.

Lemma reachable_in_step r : reachable r -> in_step r.
Proof.
  induction 1 as [|r _ IH|ls r Hls _ IH|ls r Hls _ IH|lineId visible r _ IH].
  - apply in_step_initial.
  - exact IH.
  - unfold initMap. destruct (mapRef r) as [map|] eqn:Hm; [exact IH|].
    rewrite (forEach_drawable ls _ Hls). cbn [after].
    apply foldl_in_step; [exact Hls|].
    destruct IH as (_ & _ & Hnone & _). specialize (Hnone Hm).
    split; [|split; [|split; [|split]]];
      cbn [layersRef created mapRef hiddenLinesRef];
      rewrite ?Hnone.
    + intros id ly x Hl. now rewrite lookup_empty in Hl.
    + intros id id' ly ly' Hl. now rewrite lookup_empty in Hl.
    + discriminate.
    + intros map [= <-]. split.
      * intros id ly x Hl. now rewrite lookup_empty in Hl.
      * intros x Hx. now apply not_elem_of_empty in Hx.
    + intros id ly Hl. now rewrite lookup_empty in Hl.
  - unfold syncLayers.
    destruct (mapRef r) as [map|]; [|exact IH].
    destruct (leafletRef r); [|exact IH].
    rewrite (forEach_drawable ls _ Hls). cbn [after].
    now apply foldl_in_step.
  - now apply toggleLineVisibility_in_step.
Qed.

End InStep.

Section Drawing.

Implicit Types (r : Refs).

#[local] Set Warnings "-clear-no-such-hyp".

Local Ltac sets := set_unfold; naive_solver.

Local Abbreviation draw := (fun r l => after (addOrUpdateLineLayer r l)).

Lemma initialLines_drawable :
  Forall (fun l => drawable l = true) initialLines.
Proof. repeat constructor. Qed.

Lemma foldl_draws ls : forall r,
  Forall (fun l => drawable l = true) ls ->
  leafletRef r = true -> is_Some (mapRef r) ->
  let r' := foldl draw r ls in
  leafletRef r' = true
  /\ is_Some (mapRef r')
  /\ created r' = (created r + 2 * length ls)%nat
  /\ hiddenLinesRef r' = hiddenLinesRef r
  /\ (forall id, id ∈ LTLine.id <$> ls ->
        exists p, layersRef r' !! id = Some (mkLayers p (S p) true)
                  /\ (created r <= p)%nat /\ (S p < created r')%nat)
  /\ (forall id, id ∉ LTLine.id <$> ls ->
        layersRef r' !! id = layersRef r !! id).
Proof.
  induction ls as [|l ls IH]; intros r Hls HL [map Hm]; cbn zeta.
  - cbn [foldl length]. split; [exact HL|]. split; [eauto|]. split; [lia|].
    split; [reflexivity|]. split; [|reflexivity].
    intros id Hid. cbn in Hid. now apply elem_of_nil in Hid.
  - apply Forall_cons in Hls as [Hl Hls]. cbn [foldl].
    assert (E : after (addOrUpdateLineLayer r l)
                = mkRefs (mapRef (after (addOrUpdateLineLayer r l))) true
                    (<[LTLine.id l := mkLayers (created r) (S (created r)) true]>
                       (layersRef r))
                    (hiddenLinesRef r) (S (S (created r)))).
    { now rewrite (addOrUpdateLineLayer_returns r l map Hl HL Hm). }
    assert (Hm' : is_Some (mapRef (after (addOrUpdateLineLayer r l)))).
    { rewrite (addOrUpdateLineLayer_returns r l map Hl HL Hm). cbn. eauto. }
    destruct (IH (after (addOrUpdateLineLayer r l)) Hls)
      as (IL & IM & IC & IH' & Inew & Iold);
      [now rewrite E | exact Hm' |].
    rewrite E in IC, IH', Inew, Iold.
    cbn [created hiddenLinesRef layersRef] in IC, IH', Inew, Iold.
    rewrite <- E in IC, IH', Inew, Iold.
    split; [exact IL|]. split; [exact IM|].
    split; [cbn [length]; lia|]. split; [exact IH'|].
    split.
    + intros id Hid. rewrite fmap_cons in Hid.
      destruct (decide (id ∈ LTLine.id <$> ls)) as [Hin|Hnin].
      * destruct (Inew id Hin) as (p & Hp & Hge & Hlt).
        exists p. repeat split; [exact Hp|lia|exact Hlt].
      * apply elem_of_cons in Hid as [->|Hin]; [|contradiction].
        exists (created r). rewrite (Iold _ Hnin), lookup_insert_eq.
        repeat split; lia.
    + intros id Hid. rewrite fmap_cons in Hid.
      apply not_elem_of_cons in Hid as [Hne Hnin].
      rewrite (Iold _ Hnin). now rewrite lookup_insert_ne by congruence.
Qed.


Lemma addOrUpdateLineLayer_inherited r line :
  leafletRef r = true -> is_Some (mapRef r) ->
  slot (layersRef r) (LTLine.id line) = Inherited ->
  addOrUpdateLineLayer r line = Throws r.
Proof.
  intros HL [map Hm] Hs. unfold addOrUpdateLineLayer. now rewrite HL, Hm, Hs.
Qed.

(** A line stored under no name of its own and bearing an inherited one
    stops the loop where it stands. *)
Lemma forEach_inherited ls bad rest r :
  Forall (fun l => drawable l = true) ls ->
  leafletRef r = true -> is_Some (mapRef r) ->
  LTLine.id bad ∈ inherited -> layersRef r !! LTLine.id bad = None ->
  forEach addOrUpdateLineLayer r (ls ++ bad :: rest)
  = Throws (foldl draw r ls).
Proof.
  intros Hls HL Hm Hbad Hnone.
  rewrite forEach_app, (forEach_drawable ls r Hls). cbn [forEach].
  destruct (foldl_draws ls r Hls HL Hm) as (HL' & [map' Hm'] & _ & _ & _ & Hold).
  assert (Hs : slot (layersRef (foldl draw r ls)) (LTLine.id bad) = Inherited).
  { unfold slot. rewrite Hold, Hnone; [now rewrite decide_True|].
    intros Hin. apply list_elem_of_fmap in Hin as (l & El & Hl).
    rewrite Forall_forall in Hls.
    destruct (drawable_spec l (Hls l Hl)) as [Hk _]. congruence. }
  rewrite addOrUpdateLineLayer_inherited; eauto.
Qed.

(** A line without points that is not hidden stops the loop too, with
    its two new layers on the map and no entry written. *)
Lemma forEach_pointless ls bad rest r :
  Forall (fun l => drawable l = true) ls ->
  leafletRef r = true -> is_Some (mapRef r) ->
  LTLine.id bad ∉ inherited -> LTLine.coords bad = [] ->
  LTLine.id bad ∉ hiddenLinesRef r ->
  exists r' map',
    forEach addOrUpdateLineLayer r (ls ++ bad :: rest) = Throws r'
    /\ layersRef r' = layersRef (foldl draw r ls)
    /\ created r' = S (S (created (foldl draw r ls)))
    /\ mapRef r' = Some map'
    /\ created (foldl draw r ls) ∈ map'
    /\ S (created (foldl draw r ls)) ∈ map'.
Proof.
  intros Hls HL Hm Hbad Hc Hh.
  rewrite forEach_app, (forEach_drawable ls r Hls). cbn [forEach].
  destruct (foldl_draws ls r Hls HL Hm) as (HL' & [map1 Hm'] & _ & HH & _).
  set (r1 := foldl draw r ls) in *.
  assert (E : exists map2,
            addOrUpdateLineLayer r1 bad
            = Throws (mkRefs (Some (Leaflet.addTo (S (created r1))
                                      (Leaflet.addTo (created r1) map2)))
                        true (layersRef r1) (hiddenLinesRef r1)
                        (S (S (created r1))))).
  { unfold addOrUpdateLineLayer, mid, midIdx.
    rewrite HL', Hm', (slot_other _ _ Hbad), Hc, HH.
    cbn.
    destruct (layersRef r1 !! LTLine.id bad);
      (destruct (decide (LTLine.id bad ∈ hiddenLinesRef r));
       [contradiction|]); eauto. }
  destruct E as [map2 ->]. eexists. eexists.
  split; [reflexivity|]. cbn [layersRef created mapRef].
  split; [reflexivity|]. split; [reflexivity|]. split; [reflexivity|].
  unfold Leaflet.addTo. clear. split; sets.
Qed.

Lemma toggleLineVisibility_no_map lineId visible r :
  mapRef r = None -> toggleLineVisibility lineId visible r = Returns r.
Proof. unfold toggleLineVisibility. now intros ->. Qed.

Lemma toggleLineVisibility_undefined lineId visible r :
  layersRef r !! lineId = None -> lineId ∉ inherited ->
  toggleLineVisibility lineId visible r = Returns r.
Proof.
  intros Hl Hk. unfold toggleLineVisibility, slot.
  rewrite Hl, (decide_False _ _ Hk). now destruct (mapRef r).
Qed.

Lemma toggleLineVisibility_own lineId visible r map ly :
  mapRef r = Some map -> layersRef r !! lineId = Some ly ->
  after (toggleLineVisibility lineId visible r) = turned lineId visible ly map r.
Proof.
  intros Hm Hl. unfold toggleLineVisibility, slot, turned. rewrite Hm, Hl.
  destruct visible; [|reflexivity].
  now destruct (positioned ly || _).
Qed.

Lemma toggle_inherited_name lineId visible r map :
  mapRef r = Some map -> layersRef r !! lineId = None ->
  lineId ∈ inherited ->
  toggleLineVisibility lineId visible r
  = Throws (mkRefs (Some map) (leafletRef r) (layersRef r)
              (if visible then hiddenLinesRef r ∖ {[lineId]}
               else {[lineId]} ∪ hiddenLinesRef r)
              (created r)).
Proof.
  intros Hm Hl Hk. unfold toggleLineVisibility, slot.
  now rewrite Hm, Hl, (decide_True _ _ Hk).
Qed.

Lemma back_on (p m : Leaflet.layer) (map : Leaflet.map) :
  p ∈ map -> m ∈ map -> {[m]} ∪ ({[p]} ∪ (map ∖ {[p]}) ∖ {[m]}) = map.
Proof.
  intros Hp Hk. apply set_eq. intros x. set_unfold.
  destruct (decide (x = p)), (decide (x = m)); subst; tauto.
Qed.

Lemma back_off (p m : Leaflet.layer) (map : Leaflet.map) :
  p ∉ map -> m ∉ map -> (({[m]} ∪ ({[p]} ∪ map)) ∖ {[p]}) ∖ {[m]} = map.
Proof.
  intros Hp Hk. apply set_eq. intros x. set_unfold.
  destruct (decide (x = p)), (decide (x = m)); subst; tauto.
Qed.

Lemma back_out (k : string) (hidden : gset string) :
  k ∉ hidden -> ({[k]} ∪ hidden) ∖ {[k]} = hidden.
Proof.
  intros Hk. apply set_eq. intros x. set_unfold.
  destruct (decide (x = k)); subst; tauto.
Qed.

Lemma back_in (k : string) (hidden : gset string) :
  k ∈ hidden -> {[k]} ∪ hidden ∖ {[k]} = hidden.
Proof.
  intros Hk. apply set_eq. intros x. set_unfold.
  destruct (decide (x = k)); subst; tauto.
Qed.

End Drawing.

(** X11.  In every state the refs can reach while the lines drawn are
    drawable (an identifier that is no inherited name, at least one point,
    no NaN), calls of [toggleLineVisibility] that throw included, the map
    shows the polyline and the marker of a line exactly when the line is
    not hidden, every line layer on the map is the current polyline or
    marker of some line (a replaced layer never stays behind), two lines
    never share a layer object, and no entry is stored under an inherited
    name. *)
Theorem map_shows_visible_lines (r : Refs) (map : Leaflet.map) :
  reachable r -> mapRef r = Some map ->
  (forall id ly, layersRef r !! id = Some ly ->
     (polyline ly ∈ map <-> id ∉ hiddenLinesRef r)
     /\ (marker ly ∈ map <-> id ∉ hiddenLinesRef r))
  /\ (forall x, x ∈ map ->
        exists id ly, layersRef r !! id = Some ly
                      /\ (x = polyline ly \/ x = marker ly))
  /\ (forall id id' ly ly',
        layersRef r !! id = Some ly -> layersRef r !! id' = Some ly' ->
        id <> id' ->
        polyline ly <> polyline ly' /\ polyline ly <> marker ly'
        /\ marker ly <> polyline ly' /\ marker ly <> marker ly')
  /\ (forall id ly, layersRef r !! id = Some ly ->
        (id ∉ inherited) /\ positioned ly = true).
Proof.
  intros Hr Hm.
  destruct (reachable_in_step r Hr) as (_ & Hdisj & _ & Hmap & Hkeys).
  destruct (Hmap map Hm) as [Hshown Horph].
  split; [|split; [|split; [|exact Hkeys]]].
  - intros id ly Hl. split; apply (Hshown id ly _ Hl); unfold layer_set;
      set_unfold; tauto.
  - intros x Hx. destruct (Horph x Hx) as (id & ly & Hl & Hin).
    exists id, ly. split; [exact Hl|]. unfold layer_set in Hin.
    set_unfold. tauto.
  - intros id id' ly ly' Hl Hl' Hne.
    pose proof (Hdisj id id' ly ly' Hl Hl' Hne) as Hd.
    unfold layer_set in Hd. set_unfold.
    repeat split; intros E;
      [apply (Hd (polyline ly)) | apply (Hd (polyline ly))
       | apply (Hd (marker ly)) | apply (Hd (marker ly))];
      intuition congruence.
Qed.

Lemma map_shows_visible_lines_witness :
  match mapRef (after (toggleLineVisibility "constructor" false
                         (after (toggleLineVisibility "lt-2" false
                                   drawn_refs)))) with
  | Some map =>
      (2%nat ∈ map
       <-> "lt-2"%string
           ∉ hiddenLinesRef
               (after (toggleLineVisibility "constructor" false
                         (after (toggleLineVisibility "lt-2" false
                                   drawn_refs)))))
      /\ ("lt-2"%string ∉ inherited)
  | None => False
  end.
Proof.
  assert (Hr : reachable
                 (after (toggleLineVisibility "constructor" false
                           (after (toggleLineVisibility "lt-2" false
                                     drawn_refs))))).
  { apply reach_toggle, reach_toggle, reach_initMap;
      [exact initialLines_drawable | apply reach_leaflet, reach_init]. }
  assert (Hl : layersRef
                 (after (toggleLineVisibility "constructor" false
                           (after (toggleLineVisibility "lt-2" false
                                     drawn_refs))))
                 !! "lt-2"%string
               = Some (mkLayers 2%nat 3%nat true))
    by (vm_compute; reflexivity).
  destruct (mapRef (after (toggleLineVisibility "constructor" false
                             (after (toggleLineVisibility "lt-2" false
                                       drawn_refs)))))
    as [map|] eqn:Hm.
  - split.
    + exact (proj1 (proj1 (map_shows_visible_lines _ map Hr Hm) _ _ Hl)).
    + exact (proj1 (proj2 (proj2 (proj2 (map_shows_visible_lines _ map Hr Hm)))
                      _ _ Hl)).
  - vm_compute in Hm. discriminate Hm.
Defined.

(** X12.  In those states, hiding a visible line and showing it again
    brings the refs back to what they were, and so does showing and
    hiding a hidden line; doing either twice is the same as doing it
    once.  This holds for every name, the inherited ones, for which the
    calls throw, included. *)
Theorem toggleLineVisibility_round_trip (lineId : string) (r : Refs) :
  reachable r ->
  (lineId ∉ hiddenLinesRef r ->
   after (toggleLineVisibility lineId true
            (after (toggleLineVisibility lineId false r))) = r)
  /\ (lineId ∈ hiddenLinesRef r ->
      after (toggleLineVisibility lineId false
               (after (toggleLineVisibility lineId true r))) = r)
  /\ (forall visible,
        after (toggleLineVisibility lineId visible
                 (after (toggleLineVisibility lineId visible r)))
        = after (toggleLineVisibility lineId visible r)).
Proof.
  intros Hr. pose proof (reachable_in_step r Hr) as (_ & _ & _ & Hmap & _).
  destruct (mapRef r) as [map|] eqn:Hm;
    [|assert (E : forall v, after (toggleLineVisibility lineId v r) = r)
        by (intros v; now rewrite toggleLineVisibility_no_map);
      repeat split; intros; now rewrite !E].
  destruct (Hmap map eq_refl) as [Hshown _]. clear Hmap Hr.
  destruct (layersRef r !! lineId) as [ly|] eqn:Hl.
  - assert (Hp : polyline ly ∈ map <-> lineId ∉ hiddenLinesRef r)
      by (apply (Hshown lineId ly _ Hl); unfold layer_set; set_unfold; tauto).
    assert (Hk : marker ly ∈ map <-> lineId ∉ hiddenLinesRef r)
      by (apply (Hshown lineId ly _ Hl); unfold layer_set; set_unfold; tauto).
    clear Hshown.
    assert (E : forall v v',
      after (toggleLineVisibility lineId v'
               (after (toggleLineVisibility lineId v r)))
      = turned lineId v' ly
          (if v then Leaflet.addTo (marker ly) (Leaflet.addTo (polyline ly) map)
           else Leaflet.removeLayer (Leaflet.removeLayer map (polyline ly))
                                    (marker ly))
          (turned lineId v ly map r)).
    { intros v v'. rewrite (toggleLineVisibility_own lineId v r map ly Hm Hl).
      exact (toggleLineVisibility_own lineId v' (turned lineId v ly map r) _ ly
               eq_refl Hl). }
    split; [|split].
    + intros Hv. rewrite E. unfold turned, Leaflet.addTo, Leaflet.removeLayer.
      destruct r as [mp lf ls hd c].
      cbn [mapRef leafletRef layersRef hiddenLinesRef created] in *.
      rewrite Hm. f_equal; [f_equal|].
      * apply back_on; tauto.
      * now apply back_out.
    + intros Hv. rewrite E. unfold turned, Leaflet.addTo, Leaflet.removeLayer.
      destruct r as [mp lf ls hd c].
      cbn [mapRef leafletRef layersRef hiddenLinesRef created] in *.
      rewrite Hm. f_equal; [f_equal|].
      * apply back_off; tauto.
      * now apply back_in.
    + intros v. rewrite E, (toggleLineVisibility_own lineId v r map ly Hm Hl).
      unfold turned, Leaflet.addTo, Leaflet.removeLayer.
      cbn [mapRef leafletRef layersRef hiddenLinesRef created].
      destruct v; (f_equal; [f_equal|]); apply set_eq; intros x;
        clear; set_unfold; tauto.
  - destruct (decide (lineId ∈ inherited)) as [Hin|Hnin];
      [|assert (E : forall v, after (toggleLineVisibility lineId v r) = r)
          by (intros v; now rewrite toggleLineVisibility_undefined);
        repeat split; intros; now rewrite !E].
    clear Hshown.
    assert (E : forall v v',
      after (toggleLineVisibility lineId v'
               (after (toggleLineVisibility lineId v r)))
      = mkRefs (Some map) (leafletRef r) (layersRef r)
          (if v' then (if v then hiddenLinesRef r ∖ {[lineId]}
                       else {[lineId]} ∪ hiddenLinesRef r) ∖ {[lineId]}
           else {[lineId]} ∪ (if v then hiddenLinesRef r ∖ {[lineId]}
                              else {[lineId]} ∪ hiddenLinesRef r))
          (created r)).
    { intros v v'.
      rewrite (toggle_inherited_name lineId v r map Hm Hl Hin).
      now rewrite (toggle_inherited_name lineId v' _ map). }
    split; [|split].
    + intros Hv. rewrite E. destruct r as [mp lf ls hd c].
      cbn [mapRef leafletRef layersRef hiddenLinesRef created] in *.
      rewrite Hm. f_equal. now apply back_out.
    + intros Hv. rewrite E. destruct r as [mp lf ls hd c].
      cbn [mapRef leafletRef layersRef hiddenLinesRef created] in *.
      rewrite Hm. f_equal. now apply back_in.
    + intros v. rewrite E,
        (toggle_inherited_name lineId v r map Hm Hl Hin).
      cbn [after].
      destruct v; f_equal; apply set_eq; intros x; clear; set_unfold; tauto.
Qed.

Lemma toggleLineVisibility_round_trip_witness :
  after (toggleLineVisibility "lt-2" true
           (after (toggleLineVisibility "lt-2" false drawn_refs)))
  = drawn_refs.
Proof.
  refine (proj1 (toggleLineVisibility_round_trip "lt-2" drawn_refs _) _).
  - apply reach_initMap;
      [exact initialLines_drawable | apply reach_leaflet, reach_init].
  - assert (E : hiddenLinesRef drawn_refs = ∅) by (vm_compute; reflexivity).
    rewrite E. apply not_elem_of_empty.
Defined.

(** X13.  When the library and the map are there, the effect that follows
    a change of the lines makes two new layer objects for every drawable
    line it is given, without throwing: the counter of layer objects grows
    by two per line, every line of the list ends with a polyline and a
    marker that did not exist before, the layers of the other lines are
    untouched, and nothing is hidden or shown.  A line with an inherited
    name, behind such lines, makes the effect throw: the lines before it
    are redrawn, the line itself and the lines after it are not.  So does
    a line without points that is not hidden, which also leaves its two
    new layers on the map without an entry in the table. *)
Theorem syncLayers_redraws (ls : list LTLine) (r : Refs) :
  Forall (fun l => drawable l = true) ls ->
  leafletRef r = true -> is_Some (mapRef r) ->
  throws (syncLayers ls r) = false
  /\ created (after (syncLayers ls r)) = (created r + 2 * length ls)%nat
  /\ hiddenLinesRef (after (syncLayers ls r)) = hiddenLinesRef r
  /\ (forall id, id ∈ LTLine.id <$> ls ->
        exists p,
          layersRef (after (syncLayers ls r)) !! id
          = Some (mkLayers p (S p) true)
          /\ (created r <= p)%nat
          /\ (S p < created (after (syncLayers ls r)))%nat)
  /\ (forall id, id ∉ LTLine.id <$> ls ->
        layersRef (after (syncLayers ls r)) !! id = layersRef r !! id)
  /\ (forall bad rest,
        LTLine.id bad ∈ inherited -> layersRef r !! LTLine.id bad = None ->
        syncLayers (ls ++ bad :: rest) r = Throws (after (syncLayers ls r)))
  /\ (forall bad rest,
        LTLine.id bad ∉ inherited -> LTLine.coords bad = [] ->
        LTLine.id bad ∉ hiddenLinesRef r ->
        exists r' map',
          syncLayers (ls ++ bad :: rest) r = Throws r'
          /\ layersRef r' = layersRef (after (syncLayers ls r))
          /\ created r' = S (S (created (after (syncLayers ls r))))
          /\ mapRef r' = Some map'
          /\ created (after (syncLayers ls r)) ∈ map'
          /\ S (created (after (syncLayers ls r))) ∈ map').
Proof.
  intros Hls HL Hm.
  assert (E : forall ls', syncLayers ls' r = forEach addOrUpdateLineLayer r ls').
  { intros ls'. unfold syncLayers. destruct Hm as [map ->]. now rewrite HL. }
  rewrite !E, (forEach_drawable ls r Hls). cbn [after throws].
  destruct (foldl_draws ls r Hls HL Hm) as (_ & _ & HC & HH & Hnew & Hold).
  split; [reflexivity|]. split; [exact HC|]. split; [exact HH|].
  split; [exact Hnew|]. split; [exact Hold|]. split.
  - intros bad rest Hbad Hnone. rewrite E.
    now apply forEach_inherited.
  - intros bad rest Hbad Hc Hh. rewrite E.
    now apply forEach_pointless.
Qed.

Lemma syncLayers_redraws_witness :
  created (after (syncLayers initialLines drawn_refs)) = 12%nat.
Proof.
  refine (proj1 (proj2 (syncLayers_redraws initialLines drawn_refs _ _ _))).
  - exact initialLines_drawable.
  - vm_compute. reflexivity.
  - vm_compute. eauto.
Defined.



(** X21.  What [toggleLineVisibility] does in the states above, name by
    name.  For a line whose layers exist the call returns, updates the
    hidden set (the identifier leaves it when [visible], joins it when
    not; other identifiers stay as they are) and at once puts the line's
    polyline and marker on the map, or takes them off; the layer table is
    not touched.  For a name without layers that is not inherited, and
    whenever there is no map, the call changes nothing.  For an inherited
    name on an existing map the call throws, with the hidden set written
    and nothing else changed. *)
Theorem toggleLineVisibility_by_name (lineId : string) (visible : bool)
    (r : Refs) :
  reachable r ->
  (forall layers, layersRef r !! lineId = Some layers ->
     exists map r',
       mapRef r = Some map
       /\ toggleLineVisibility lineId visible r = Returns r'
       /\ hiddenLinesRef r'
          = (if visible then hiddenLinesRef r ∖ {[lineId]}
             else {[lineId]} ∪ hiddenLinesRef r)
       /\ (lineId ∈ hiddenLinesRef r' <-> visible = false)
       /\ (forall other, other <> lineId ->
             (other ∈ hiddenLinesRef r' <-> other ∈ hiddenLinesRef r))
       /\ mapRef r'
          = Some (if visible
                  then {[marker layers]} ∪ ({[polyline layers]} ∪ map)
                  else (map ∖ {[polyline layers]}) ∖ {[marker layers]})
       /\ (forall map', mapRef r' = Some map' ->
             (polyline layers ∈ map' <-> visible = true)
             /\ (marker layers ∈ map' <-> visible = true))
       /\ layersRef r' = layersRef r)
  /\ (layersRef r !! lineId = None -> lineId ∉ inherited ->
      toggleLineVisibility lineId visible r = Returns r)
  /\ (mapRef r = None -> toggleLineVisibility lineId visible r = Returns r)
  /\ (lineId ∈ inherited ->
      layersRef r !! lineId = None
      /\ forall map, mapRef r = Some map ->
           toggleLineVisibility lineId visible r
           = Throws (mkRefs (Some map) (leafletRef r) (layersRef r)
                       (if visible then hiddenLinesRef r ∖ {[lineId]}
                        else {[lineId]} ∪ hiddenLinesRef r)
                       (created r))).
Proof.
  intros Hr.
  destruct (reachable_in_step r Hr) as (_ & _ & Hnone & _ & Hkeys).
  split; [|split; [|split]].
  - intros layers Hl.
    destruct (mapRef r) as [map|] eqn:Hm;
      [|rewrite (Hnone eq_refl) in Hl; now rewrite lookup_empty in Hl].
    destruct (Hkeys lineId layers Hl) as [_ Hpos].
    exists map, (turned lineId visible layers map r).
    split; [reflexivity|]. split.
    { unfold toggleLineVisibility, slot, turned. rewrite Hm, Hl, Hpos.
      now destruct visible. }
    unfold turned, Leaflet.addTo, Leaflet.removeLayer.
    cbn [mapRef leafletRef layersRef hiddenLinesRef created].
    clear. destruct visible.
    + split; [reflexivity|]. split; [set_unfold; intuition congruence|].
      split; [intros other Hne; set_unfold; intuition congruence|].
      split; [reflexivity|]. split; [|reflexivity].
      intros map' [= <-]. set_unfold. intuition congruence.
    + split; [reflexivity|]. split; [set_unfold; intuition congruence|].
      split; [intros other Hne; set_unfold; intuition congruence|].
      split; [reflexivity|]. split; [|reflexivity].
      intros map' [= <-]. set_unfold. intuition congruence.
  - intros Hl Hk. now apply toggleLineVisibility_undefined.
  - apply toggleLineVisibility_no_map.
  - intros Hk.
    assert (Hl : layersRef r !! lineId = None).
    { destruct (layersRef r !! lineId) as [ly|] eqn:Hl; [|reflexivity].
      now destruct (Hkeys lineId ly Hl). }
    split; [exact Hl|]. intros map Hm.
    now apply toggle_inherited_name.
Qed.

Lemma toggleLineVisibility_by_name_witness :
  toggleLineVisibility "lt-2" false initialRefs = Returns initialRefs
  /\ toggleLineVisibility "constructor" true initialRefs
     = Returns initialRefs.
Proof.
  split.
  - apply (proj1 (proj2 (toggleLineVisibility_by_name "lt-2" false
                           initialRefs reach_init))).
    + reflexivity.
    + apply (bool_decide_unpack _). vm_compute. exact I.
  - apply (proj1 (proj2 (proj2 (toggleLineVisibility_by_name "constructor"
                                  true initialRefs reach_init)))).
    reflexivity.
Defined.

(** ** The component as a whole *)

Section Whole.

Implicit Types (a : App) (r : Refs) (n : NotificationItem).

Lemma fields_ids ls ls' :
  fields <$> ls = fields <$> ls' -> LTLine.id <$> ls = LTLine.id <$> ls'.
Proof.
  intros H. apply (f_equal (fmap (fun t => fst (fst t)))) in H.
  now rewrite <- !list_fmap_compose in H.
Qed.

Lemma fields_lineName ls : forall ls' x,
  fields <$> ls = fields <$> ls' -> lineName ls x = lineName ls' x.
Proof.
  induction ls as [|l ls IH]; intros [|l' ls'] x H; try discriminate;
    [reflexivity|].
  rewrite !fmap_cons in H. injection H as Hi Hn _ Ht.
  specialize (IH ls' x Ht). unfold lineName in *. cbn [list_find].
  rewrite Hi. destruct (decide (LTLine.id l' = x)); [exact Hn|].
  destruct (list_find _ ls) as [[? ?]|], (list_find _ ls') as [[? ?]|];
    exact IH.
Qed.

Lemma fields_set_status x s ls :
  fields <$> set_status x s ls = fields <$> ls.
Proof. apply set_status_frame. reflexivity. Qed.

Lemma list_find_take {A} (P : A -> Prop) `{!forall x, Decision (P x)}
    (k : nat) (xs : list A) (i : nat) (x : A) :
  list_find P (take k xs) = Some (i, x) -> list_find P xs = Some (i, x).
Proof.
  rewrite !list_find_Some. intros (Hi & HP & Hlt).
  apply lookup_take_Some in Hi as [Hi Hik].
  split; [exact Hi|]. split; [exact HP|].
  intros j y Hj Hji. apply (Hlt j y); [|exact Hji].
  apply lookup_take_Some. split; [exact Hj|lia].
Qed.

Lemma hints_take k ns : (hints (take k ns) <= hints ns)%nat.
Proof.
  unfold hints. revert k. induction ns as [|n ns IH]; intros k.
  - rewrite take_nil. lia.
  - destruct k as [|k]; [cbn; lia|]. cbn [take]. rewrite !filter_cons.
    specialize (IH k).
    destruct (decide (NotificationItem.lineId n = "system"%string));
      cbn [length]; lia.
Qed.

Lemma system_not_a_line x :
  x ∈ LTLine.id <$> initialLines -> x <> "system"%string.
Proof.
  intros Hx ->. revert Hx. apply (bool_decide_unpack _). vm_compute. exact I.
Qed.

Lemma after_lift {A B} (f : A -> B) (o : Outcome A) :
  after (lift f o) = f (after o).
Proof. now destruct o. Qed.

Lemma throws_lift {A B} (f : A -> B) (o : Outcome A) :
  throws (lift f o) = throws o.
Proof. now destruct o. Qed.

Lemma fields_drawable ls : forall ls',
  fields <$> ls = fields <$> ls' ->
  Forall (fun l => drawable l = true) ls' ->
  Forall (fun l => drawable l = true) ls.
Proof.
  induction ls as [|l ls IH]; intros [|l' ls'] H Hd; try discriminate;
    [constructor|].
  rewrite !fmap_cons in H. injection H as Hi _ Hc Ht.
  apply Forall_cons in Hd as [Hl' Hd].
  constructor; [|now apply (IH ls')].
  unfold drawable, mid, midIdx in *. now rewrite Hi, Hc.
Qed.

Lemma syncLayers_drawable ls r :
  Forall (fun l => drawable l = true) ls ->
  syncLayers ls r
  = Returns (match mapRef r, leafletRef r with
             | Some _, true =>
                 foldl (fun r l => after (addOrUpdateLineLayer r l)) r ls
             | _, _ => r
             end).
Proof.
  intros Hls. unfold syncLayers.
  destruct (mapRef r); [|reflexivity].
  destruct (leafletRef r); [|reflexivity].
  now apply forEach_drawable.
Qed.

Lemma initMap_drawable ls r :
  Forall (fun l => drawable l = true) ls ->
  initMap ls r
  = Returns (match mapRef r with
             | Some _ => r
             | None =>
                 foldl (fun r l => after (addOrUpdateLineLayer r l))
                   (mkRefs (Some ∅) (leafletRef r) (layersRef r)
                           (hiddenLinesRef r) (created r)) ls
             end).
Proof.
  intros Hls. unfold initMap. destruct (mapRef r); [reflexivity|].
  now apply forEach_drawable.
Qed.

Lemma syncLayers_mapRef ls r :
  Forall (fun l => drawable l = true) ls ->
  (is_Some (mapRef r) -> is_Some (mapRef (after (syncLayers ls r))))
  /\ (mapRef r = None -> after (syncLayers ls r) = r).
Proof.
  intros Hls. rewrite (syncLayers_drawable ls r Hls). cbn [after]. split.
  - intros [m Hm]. rewrite Hm. destruct (leafletRef r) eqn:HL;
      [|now rewrite Hm].
    apply (foldl_draws ls r Hls HL). rewrite Hm. eauto.
  - now intros ->.
Qed.

(** Writers of the refs that keep the layer table's keys. *)
Lemma refs_ok_sync ls r :
  Forall (fun l => drawable l = true) ls ->
  LTLine.id <$> ls = LTLine.id <$> initialLines ->
  (is_Some (mapRef r) ->
   leafletRef r = true
   /\ forall id, id ∈ LTLine.id <$> initialLines -> is_Some (layersRef r !! id)) ->
  is_Some (mapRef (after (syncLayers ls r))) ->
  leafletRef (after (syncLayers ls r)) = true
  /\ forall id, id ∈ LTLine.id <$> initialLines ->
                is_Some (layersRef (after (syncLayers ls r)) !! id).
Proof.
  intros Hls Hids Hr Hm'.
  destruct (mapRef r) as [m|] eqn:Hm.
  - destruct Hr as [HL Hly]; [eauto|].
    rewrite (syncLayers_drawable ls r Hls), Hm, HL. cbn [after].
    destruct (foldl_draws ls r Hls HL) as (HL' & _ & _ & _ & Hnew & _);
      [rewrite Hm; eauto|].
    split; [exact HL'|]. intros id Hid. rewrite <- Hids in Hid.
    destruct (Hnew id Hid) as (p & Hp & _). rewrite Hp. eauto.
  - rewrite (proj2 (syncLayers_mapRef ls r Hls) Hm) in Hm'.
    rewrite Hm in Hm'. now destruct Hm'.
Qed.

Lemma app_ok_initial : app_ok initialApp.
Proof.
  unfold app_ok, initialApp. cbn [app_state app_refs lines notifications
    selectedLineId focus_waiting].
  split; [reflexivity|]. split; [apply (bool_decide_unpack _); vm_compute; exact I|].
  split; [cbn; lia|]. split; [constructor|].
  split; [intros l i n _ H; discriminate|].
  split; [constructor|].
  split; [intros [m Hm]; discriminate|].
  split; [cbn; lia|]. intros _. split; reflexivity.
Qed.

Lemma load_map_ok ls a :
  Forall (fun l => drawable l = true) ls ->
  LTLine.id <$> ls = LTLine.id <$> initialLines ->
  app_ok a -> app_ok (load_map ls a).
Proof.
  intros Hls Hids
    (Hf & Hs & Hlen & Hall & Hagree & Hreach & Hmap & Hh & Hnone).
  unfold app_ok, load_map.
  cbn [app_state app_refs selectedLineId focus_waiting].
  repeat (split; [assumption|]).
  split; [apply reach_initMap; [exact Hls|apply reach_leaflet, Hreach]|].
  rewrite (initMap_drawable ls _ Hls). cbn [after].
  unfold setLeaflet. cbn [mapRef leafletRef layersRef hiddenLinesRef created].
  destruct (mapRef (app_refs a)) as [m|] eqn:Hm.
  - cbn [mapRef leafletRef layersRef].
    split; [|split; [exact Hh|discriminate]].
    intros _. split; [reflexivity|]. apply Hmap. eauto.
  - destruct (Hnone eq_refl) as [H0 Hfw].
    set (r0 := mkRefs (Some ∅) true (layersRef (app_refs a))
                      (hiddenLinesRef (app_refs a)) (created (app_refs a))).
    destruct (foldl_draws ls r0 Hls eq_refl) as (HL' & Hm' & _ & _ & Hnew & _);
      [cbn; eauto|].
    split; [|split].
    + intros _. split; [exact HL'|]. intros id Hid. rewrite <- Hids in Hid.
      destruct (Hnew id Hid) as (p & Hp & _). rewrite Hp. eauto.
    + rewrite H0. cbn. lia.
    + intros E. rewrite E in Hm'. now destruct Hm'.
Qed.

Lemma update_ok a x s e :
  x ∈ LTLine.id <$> initialLines ->
  app_ok a ->
  throws (after_lines a (updateLineStatus e x s (app_state a))) = false
  /\ app_ok (after (after_lines a (updateLineStatus e x s (app_state a)))).
Proof.
  intros Hx (Hf & Hs & Hlen & Hall & Hagree & Hreach & Hmap & Hh & Hnone).
  unfold after_lines. rewrite throws_lift, after_lift.
  rewrite updateLineStatus_lines.
  assert (Hls : Forall (fun l => drawable l = true)
                  (set_status x s (lines (app_state a)))).
  { apply (fields_drawable _ initialLines); [|exact initialLines_drawable].
    now rewrite fields_set_status. }
  split; [now rewrite (syncLayers_drawable _ _ Hls)|].
  unfold app_ok.
  cbn [app_state app_refs selectedLineId focus_waiting].
  rewrite updateLineStatus_lines, updateLineStatus_notifications.
  set (item := new_item e x (change_message (lineName (lines (app_state a)) x) s) s).
  assert (Hitem : NotificationItem.lineId item = x) by reflexivity.
  assert (Hst : NotificationItem.status item = s) by reflexivity.
  assert (Hhints : (hints (take 20 (item :: notifications (app_state a)))
                    <= hints (notifications (app_state a)))%nat).
  { etransitivity; [apply hints_take|]. unfold hints. rewrite filter_cons.
    rewrite decide_False; [lia|]. rewrite Hitem.
    now apply system_not_a_line. }
  split; [now rewrite fields_set_status|]. split; [exact Hs|].
  split; [rewrite length_take; lia|].
  split.
  { apply Forall_take. constructor; [|exact Hall]. right. split.
    - now rewrite Hitem.
    - cbn. f_equal. now apply fields_lineName. }
  split.
  { intros l' i n Hl' Hfind. apply list_find_take in Hfind.
    unfold set_status in Hl'. apply list_elem_of_fmap in Hl' as (l & -> & Hl).
    cbn [list_find] in Hfind. rewrite Hitem in Hfind.
    destruct (decide (LTLine.id l = x)) as [El|El]; cbn [LTLine.id LTLine.with_status LTLine.status] in *.
    - rewrite decide_True in Hfind by congruence.
      injection Hfind as _ <-. exact Hst.
    - rewrite decide_False in Hfind by congruence.
      destruct (list_find _ (notifications (app_state a))) as [[j m]|] eqn:Ej;
        [|discriminate].
      cbn in Hfind. injection Hfind as _ <-. now apply (Hagree l j m). }
  split; [now apply reach_sync|].
  split.
  { apply refs_ok_sync; [exact Hls| |exact Hmap].
    apply fields_ids. now rewrite fields_set_status. }
  split; [lia|].
  intros E.
  destruct (mapRef (app_refs a)) as [m|] eqn:Hm.
  - destruct (proj1 (syncLayers_mapRef (set_status x s (lines (app_state a)))
                       (app_refs a) Hls)) as [m' Hm']; [rewrite Hm; eauto|].
    congruence.
  - destruct (Hnone eq_refl) as [H0 Hfw]. split; [lia|exact Hfw].
Qed.

Lemma toggle_ok a v :
  app_ok a ->
  throws (toggle_selected v a) = false
  /\ app_ok (after (toggle_selected v a)).
Proof.
  intros (Hf & Hs & Hlen & Hall & Hagree & Hreach & Hmap & Hh & Hnone).
  unfold toggle_selected. rewrite throws_lift, after_lift.
  assert (E : throws (toggleLineVisibility (selectedLineId a) v (app_refs a))
              = false
              /\ leafletRef (after (toggleLineVisibility (selectedLineId a) v
                                      (app_refs a)))
                 = leafletRef (app_refs a)
              /\ layersRef (after (toggleLineVisibility (selectedLineId a) v
                                     (app_refs a)))
                 = layersRef (app_refs a)
              /\ (is_Some (mapRef (after (toggleLineVisibility
                                            (selectedLineId a) v (app_refs a))))
                  <-> is_Some (mapRef (app_refs a)))).
  { destruct (mapRef (app_refs a)) as [m|] eqn:Hm.
    - destruct Hmap as [HL Hly]; [eauto|].
      destruct (Hly _ Hs) as [ly Hl].
      destruct (reachable_in_step _ Hreach) as (_ & _ & _ & _ & Hkeys).
      destruct (Hkeys _ _ Hl) as [_ Hpos].
      unfold toggleLineVisibility, slot. rewrite Hm, Hl, Hpos.
      destruct v; cbn; repeat split; eauto.
    - rewrite toggleLineVisibility_no_map by exact Hm. cbn. now rewrite Hm. }
  destruct E as (E0 & E1 & E2 & E3).
  split; [exact E0|].
  unfold app_ok. cbn [app_state app_refs selectedLineId focus_waiting].
  repeat (split; [assumption|]).
  split; [now apply reach_toggle|].
  rewrite E1, E2.
  split; [intros Hm'; apply Hmap, E3, Hm'|].
  split; [exact Hh|].
  intros Hm'. apply Hnone.
  destruct (mapRef (app_refs a)) as [m|] eqn:Hm; [|reflexivity].
  assert (Hs' : is_Some (mapRef (after (toggleLineVisibility (selectedLineId a)
                                          v (app_refs a)))))
    by (apply E3; eauto).
  rewrite Hm' in Hs'. now destruct Hs'.
Qed.

Lemma step_ok a ev :
  app_ok a -> throws (step a ev) = false /\ app_ok (handle a ev).
Proof.
  intros Ha. unfold handle.
  destruct ev as [| |e|i|s e| | |r e|]; cbn [step].
  - split; [reflexivity|]. cbn [after].
    apply load_map_ok; [exact initialLines_drawable|reflexivity|exact Ha].
  - assert (Hls : Forall (fun l => drawable l = true) (lines (app_state a)))
      by (apply (fields_drawable _ initialLines);
          [apply Ha|exact initialLines_drawable]).
    destruct (leafletRef (app_refs a)), (mapRef (app_refs a)) eqn:Hm;
      (split; [reflexivity|]); cbn [after];
      try exact Ha; (apply load_map_ok; [exact Hls| |exact Ha]);
      apply fields_ids, Ha.
  - destruct (focus_waiting a) eqn:Hfw; (split; [reflexivity|]); cbn [after];
      [|exact Ha].
    destruct Ha as (Hf & Hs & Hlen & Hall & Hagree & Hreach & Hmap & Hh & Hnone).
    unfold app_ok. cbn [app_state app_refs selectedLineId focus_waiting].
    unfold addNotification. cbn [lines notifications].
    set (item := new_item e "system" hint_message Healthy).
    split; [exact Hf|]. split; [exact Hs|].
    split; [rewrite length_take; lia|].
    split; [apply Forall_take; constructor; [left; repeat split|exact Hall]|].
    split.
    { intros l i n Hl Hfind. apply list_find_take in Hfind.
      cbn [list_find] in Hfind.
      rewrite decide_False in Hfind.
      - destruct (list_find _ (notifications (app_state a))) as [[j m]|] eqn:Ej;
          [|discriminate].
        cbn in Hfind. injection Hfind as _ <-. now apply (Hagree l j m).
      - cbn. intros E. symmetry in E. revert E. apply system_not_a_line.
        rewrite <- (fields_ids _ _ Hf). now apply list_elem_of_fmap_2. }
    split; [exact Hreach|]. split; [exact Hmap|].
    rewrite Hfw in Hh.
    assert (H0 : hints (notifications (app_state a)) = 0%nat) by lia.
    split.
    + pose proof (hints_take 20 (item :: notifications (app_state a))) as Ht.
      unfold hints in Ht, H0 |- *. rewrite filter_cons in Ht.
      rewrite decide_True in Ht by reflexivity. cbn [length] in Ht. lia.
    + intros E. destruct (Hnone E) as [_ E']. congruence.
  - destruct (lines (app_state a) !! i) as [l|] eqn:Hl;
      (split; [reflexivity|]); cbn [after]; [|exact Ha].
    destruct Ha as (Hf & Hs & Hrest).
    split; [exact Hf|]. split; [|exact Hrest].
    cbn [selectedLineId]. rewrite <- (fields_ids _ _ Hf).
    apply list_elem_of_fmap_2. eapply list_elem_of_lookup_2, Hl.
  - apply update_ok; [apply Ha|exact Ha].
  - now apply toggle_ok.
  - now apply toggle_ok.
  - destruct (pick r (lines (app_state a))) as [p|] eqn:Hp;
      [|split; [reflexivity|exact Ha]].
    unfold simulateFault. rewrite Hp. apply update_ok; [|exact Ha].
    destruct Ha as (Hf & _). rewrite <- (fields_ids _ _ Hf).
    apply list_elem_of_fmap_2. now apply (pick_candidate r).
  - split; [reflexivity|]. cbn [after].
    destruct Ha as (Hf & Hs & Hlen & Hall & Hagree & Hreach & Hmap & Hh & Hnone).
    unfold app_ok. cbn [app_state app_refs selectedLineId focus_waiting
                        clearNotifications lines notifications].
    split; [exact Hf|]. split; [exact Hs|]. split; [cbn; lia|].
    split; [constructor|]. split; [intros l i n _ H; discriminate|].
    split; [exact Hreach|]. split; [exact Hmap|].
    split; [cbn; destruct (focus_waiting a); lia|].
    intros E. split; [reflexivity|apply (Hnone E)].
Qed.

Lemma run_snoc evs ev : run (evs ++ [ev]) = handle (run evs) ev.
Proof. unfold run. now rewrite foldl_app. Qed.

Lemma run_ok evs : app_ok (run evs).
Proof.
  induction evs as [|ev evs IH] using rev_ind.
  - apply app_ok_initial.
  - rewrite run_snoc. now apply step_ok.
Qed.

End Whole.

Section WholeMore.

Implicit Types (a : App) (r : Refs) (n : NotificationItem).

Lemma fields_title ls : forall ls' n,
  fields <$> ls = fields <$> ls' ->
  notificationTitle ls n = notificationTitle ls' n.
Proof.
  induction ls as [|l ls IH]; intros [|l' ls'] n H; try discriminate;
    [reflexivity|].
  rewrite !fmap_cons in H. injection H as Hi Hn _ Ht.
  specialize (IH ls' n Ht). unfold notificationTitle in *. cbn [list_find].
  rewrite Hi. destruct (decide (LTLine.id l' = NotificationItem.lineId n));
    [cbn; now rewrite Hn|].
  destruct (list_find _ ls) as [[? ?]|], (list_find _ ls') as [[? ?]|];
    exact IH.
Qed.

Lemma fields_names ls ls' :
  fields <$> ls = fields <$> ls' -> LTLine.name <$> ls = LTLine.name <$> ls'.
Proof.
  intros H. apply (f_equal (fmap (fun t => snd (fst t)))) in H.
  now rewrite <- !list_fmap_compose in H.
Qed.

Lemma initialLines_named :
  Forall (fun s => s <> EmptyString) (LTLine.name <$> initialLines).
Proof. repeat constructor; discriminate. Qed.

(** With unique identifiers every line is the first with its identifier. *)
Lemma own_name ls l :
  NoDup (LTLine.id <$> ls) -> l ∈ ls ->
  exists i, list_find (fun l' => LTLine.id l' = LTLine.id l) ls = Some (i, l).
Proof.
  intros Hnd Hl. apply list_elem_of_lookup in Hl as [i Hi].
  exists i. apply list_find_Some. split; [exact Hi|]. split; [reflexivity|].
  intros j l' Hj Hji E.
  assert (j = i); [|lia].
  apply (NoDup_lookup _ j i (LTLine.id l) Hnd);
    rewrite list_lookup_fmap; [rewrite Hj; cbn; now f_equal | now rewrite Hi].
Qed.

Lemma draw_fields ls : forall ls' r,
  fields <$> ls = fields <$> ls' ->
  forEach addOrUpdateLineLayer r ls = forEach addOrUpdateLineLayer r ls'.
Proof.
  induction ls as [|l ls IH]; intros [|l' ls'] r H; try discriminate;
    [reflexivity|].
  rewrite !fmap_cons in H. injection H as Hi _ Hc Ht. cbn [forEach].
  assert (E : addOrUpdateLineLayer r l = addOrUpdateLineLayer r l')
    by (unfold addOrUpdateLineLayer, mid, midIdx; now rewrite Hi, Hc).
  rewrite E. destruct (addOrUpdateLineLayer r l'); [now apply IH|reflexivity].
Qed.

End WholeMore.

(** X15.  After every sequence of events the lines have the identifiers,
    names and coordinates of the mock lines, in their order; the selected
    identifier is that of a line; the log holds at most 20 entries, at
    most one of them the map hint; and every entry is either the map
    hint, headed System, or the record of a status change of one of the
    lines, headed by that line's name and saying
    [<name> status changed to <status>]: the fallback name is never
    logged. *)
Theorem run_log_entries (evs : list Event) :
  fields <$> lines (app_state (run evs)) = fields <$> initialLines
  /\ selectedLineId (run evs) ∈ LTLine.id <$> lines (app_state (run evs))
  /\ (length (notifications (app_state (run evs))) <= 20)%nat
  /\ (hints (notifications (app_state (run evs))) <= 1)%nat
  /\ forall n, n ∈ notifications (app_state (run evs)) ->
       (is_hint n
        /\ notificationTitle (lines (app_state (run evs))) n = "System"%string)
       \/ exists l, l ∈ lines (app_state (run evs))
            /\ NotificationItem.lineId n = LTLine.id l
            /\ notificationTitle (lines (app_state (run evs))) n
               = LTLine.name l
            /\ NotificationItem.message n
               = change_message (LTLine.name l) (NotificationItem.status n).
Proof.
  destruct (run_ok evs) as (Hf & Hs & Hlen & Hall & _ & _ & _ & Hh & _).
  set (a := run evs) in *. set (ls := lines (app_state a)) in *.
  pose proof (fields_ids _ _ Hf) as Hids.
  split; [exact Hf|]. split; [now rewrite Hids|]. split; [exact Hlen|].
  split; [destruct (focus_waiting a); lia|].
  intros n Hn. rewrite Forall_forall in Hall.
  destruct (Hall n Hn) as [Hhint|[Hin Hmsg]].
  - left. split; [exact Hhint|]. rewrite (fields_title _ _ n Hf).
    unfold notificationTitle. destruct Hhint as [-> _]. reflexivity.
  - right. rewrite <- Hids in Hin.
    apply list_elem_of_fmap in Hin as (l & El & Hl).
    assert (Hnd : NoDup (LTLine.id <$> ls))
      by (rewrite Hids; exact initialLines_ids).
    destruct (own_name ls l Hnd Hl) as [i Hfind].
    exists l. split; [exact Hl|]. split; [exact El|].
    assert (Hname : LTLine.name l <> EmptyString).
    { pose proof initialLines_named as Hall'.
      rewrite <- (fields_names _ _ Hf) in Hall'.
      rewrite Forall_forall in Hall'. apply Hall'.
      now apply list_elem_of_fmap_2. }
    split.
    + unfold notificationTitle. rewrite El, Hfind. now rewrite decide_False.
    + rewrite Hmsg. f_equal. rewrite <- (fields_lineName _ _ _ Hf).
      unfold lineName. fold ls. now rewrite El, Hfind.
Qed.

(** X16.  After every sequence of events the log agrees with the lines:
    the newest entry about a line carries the line's present status and
    the message [<name> status changed to <status>] for it. *)
Theorem run_log_agrees (evs : list Event) (l : LTLine) (i : nat)
    (n : NotificationItem) :
  l ∈ lines (app_state (run evs)) ->
  list_find (fun n => NotificationItem.lineId n = LTLine.id l)
            (notifications (app_state (run evs))) = Some (i, n) ->
  NotificationItem.status n = LTLine.status l
  /\ NotificationItem.message n
     = change_message (LTLine.name l) (LTLine.status l).
Proof.
  intros Hl Hfind.
  destruct (run_ok evs) as (Hf & _ & _ & Hall & Hagree & _).
  pose proof (Hagree l i n Hl Hfind) as Hst. split; [exact Hst|].
  pose proof (fields_ids _ _ Hf) as Hids.
  apply list_find_Some in Hfind as (Hi & Hid & _).
  rewrite Forall_forall in Hall.
  destruct (Hall n (list_elem_of_lookup_2 _ _ _ Hi)) as [[Hsys _]|[_ Hmsg]].
  - exfalso. apply (system_not_a_line (LTLine.id l)); [|congruence].
    rewrite <- Hids. now apply list_elem_of_fmap_2.
  - rewrite Hmsg, Hst, Hid. f_equal.
    rewrite <- (fields_lineName _ _ _ Hf).
    assert (Hnd : NoDup (LTLine.id <$> lines (app_state (run evs))))
      by (rewrite Hids; exact initialLines_ids).
    destruct (own_name _ l Hnd Hl) as [j Hj].
    unfold lineName. now rewrite Hj.
Qed.

Lemma run_log_agrees_witness :
  exists l n,
    l ∈ lines (app_state (run [SetStatus Fault sample_stamp]))
    /\ NotificationItem.status n = LTLine.status l
    /\ NotificationItem.message n
       = change_message (LTLine.name l) (LTLine.status l).
Proof.
  set (evs := [SetStatus Fault sample_stamp]).
  assert (Hl : exists l, head (lines (app_state (run evs))) = Some l)
    by (eexists; reflexivity).
  destruct Hl as [l Hl].
  assert (Hn : exists n, head (notifications (app_state (run evs))) = Some n)
    by (eexists; reflexivity).
  destruct Hn as [n Hn].
  exists l, n.
  assert (Hin : l ∈ lines (app_state (run evs))).
  { destruct (lines (app_state (run evs))) as [|l' ls']; [discriminate|].
    injection Hl as ->. apply list_elem_of_here. }
  split; [exact Hin|].
  apply (run_log_agrees evs l 0 n Hin).
  revert Hl Hn. vm_compute. intros [= <-] [= <-]. reflexivity.
Defined.

(** X17.  Once the map is there, the library is loaded and every line
    has its two layers, so the Show and Hide buttons always act on the
    selected line: after Hide its polyline and marker are off the map
    and its identifier is in the hidden set, after Show they are on the
    map and the identifier is not in the set. *)
Theorem run_map_ready (evs : list Event) :
  is_Some (mapRef (app_refs (run evs))) ->
  leafletRef (app_refs (run evs)) = true
  /\ (forall l, l ∈ lines (app_state (run evs)) ->
        is_Some (layersRef (app_refs (run evs)) !! LTLine.id l))
  /\ (exists ly map,
        layersRef (app_refs (run evs)) !! selectedLineId (run evs) = Some ly
        /\ mapRef (app_refs (handle (run evs) HideLine)) = Some map
        /\ (polyline ly ∉ map) /\ (marker ly ∉ map)
        /\ selectedLineId (run evs)
           ∈ hiddenLinesRef (app_refs (handle (run evs) HideLine)))
  /\ (exists ly map,
        layersRef (app_refs (run evs)) !! selectedLineId (run evs) = Some ly
        /\ mapRef (app_refs (handle (run evs) ShowLine)) = Some map
        /\ polyline ly ∈ map /\ marker ly ∈ map
        /\ selectedLineId (run evs)
           ∉ hiddenLinesRef (app_refs (handle (run evs) ShowLine))).
Proof.
  intros Hm.
  destruct (run_ok evs) as (Hf & Hs & _ & _ & _ & _ & Hmap & _).
  destruct (Hmap Hm) as [HL Hly].
  pose proof (fields_ids _ _ Hf) as Hids.
  split; [exact HL|]. split.
  { intros l Hl. apply Hly. rewrite <- Hids. now apply list_elem_of_fmap_2. }
  destruct (Hly _ Hs) as [ly Hsel]. destruct Hm as [m Hm].
  unfold handle. cbn [step]. unfold toggle_selected.
  rewrite !after_lift. cbn [app_refs].
  rewrite (toggleLineVisibility_own _ false _ m ly Hm Hsel),
    (toggleLineVisibility_own _ true _ m ly Hm Hsel).
  unfold turned, Leaflet.addTo, Leaflet.removeLayer.
  cbn [mapRef hiddenLinesRef].
  split; exists ly; eexists; (split; [exact Hsel|]); (split; [reflexivity|]);
    clear; set_unfold; tauto.
Qed.

Lemma run_map_ready_witness :
  leafletRef (app_refs (run [LibraryLoaded; HideLine])) = true.
Proof.
  refine (proj1 (run_map_ready [LibraryLoaded; HideLine] _)).
  vm_compute. eauto.
Defined.

(** X18.  Until the library has loaded, no event touches the refs: a
    Show or Hide pressed before the map is there is lost.  When the map
    then arrives, by the lazy import or by Retry, it is drawn as on a
    fresh start, with every line shown. *)
Theorem run_before_load (evs : list Event) :
  Forall (fun ev => ev <> LibraryLoaded /\ ev <> RetryMap) evs ->
  app_refs (run evs) = initialRefs
  /\ app_refs (handle (run evs) LibraryLoaded)
     = after (initMap initialLines (setLeaflet initialRefs))
  /\ app_refs (handle (run evs) RetryMap)
     = after (initMap initialLines (setLeaflet initialRefs)).
Proof.
  intros Hevs.
  assert (H0 : app_refs (run evs) = initialRefs).
  { induction evs as [|ev evs IH] using rev_ind; [reflexivity|].
    apply Forall_app in Hevs as [Hevs Hev]. specialize (IH Hevs).
    apply Forall_singleton in Hev as [Hev1 Hev2].
    rewrite run_snoc. unfold handle.
    destruct ev as [| |e|i|s e| | |r e|]; try congruence; cbn [step].
    - now destruct (focus_waiting (run evs)).
    - now destruct (lines (app_state (run evs)) !! i).
    - unfold after_lines. rewrite after_lift. cbn [app_refs]. now rewrite IH.
    - unfold toggle_selected. rewrite after_lift. cbn [app_refs].
      now rewrite IH.
    - unfold toggle_selected. rewrite after_lift. cbn [app_refs].
      now rewrite IH.
    - destruct (pick r (lines (app_state (run evs)))); [|exact IH].
      unfold after_lines. rewrite after_lift. cbn [app_refs]. now rewrite IH.
    - exact IH. }
  split; [exact H0|]. unfold handle. cbn [step]. rewrite H0.
  cbn [leafletRef initialRefs after]. unfold load_map. cbn [app_refs].
  rewrite H0. split; [reflexivity|].
  unfold initMap. cbn [mapRef setLeaflet initialRefs]. f_equal.
  apply draw_fields. apply (run_ok evs).
Qed.

Lemma run_before_load_witness :
  app_refs (run [HideLine; SetStatus Fault sample_stamp]) = initialRefs.
Proof.
  refine (proj1 (run_before_load [HideLine; SetStatus Fault sample_stamp] _)).
  repeat constructor; discriminate.
Defined.

(** X22.  No event makes a handler or the effect behind it throw: along
    every sequence of events the selected line is one of the mock lines,
    which are drawable and, once the map exists, have their layers. *)
Theorem run_never_throws (evs : list Event) (ev : Event) :
  throws (step (run evs) ev) = false.
Proof. apply step_ok, run_ok. Qed.

(** ** The random index *)

Section RandomIndex.

Lemma shr_1_step (rec : shr_record) (x D : Z) :
  0 < D -> 0 <= x ->
  shr_m rec = x / D -> (shr_r rec = true -> D <= 2 * (x mod D)) ->
  shr_m (shr_1 rec) = x / (2 * D)
  /\ (shr_r (shr_1 rec) = true -> 2 * D <= 2 * (x mod (2 * D))).
Proof.
  intros HD Hx Hm _. destruct rec as [m r s]. cbn [shr_m shr_r] in *.
  pose proof (Z.div_mod x D ltac:(lia)) as Hdm.
  pose proof (Z.mod_pos_bound x D HD) as Hb.
  pose proof (Z.div_pos x D Hx HD) as Hq.
  rewrite <- Hm in Hdm, Hq.
  assert (Hhalf : forall p c, 0 <= c < 2 -> m = 2 * p + c ->
            x / (2 * D) = p /\ x mod (2 * D) = c * D + x mod D).
  { intros p c Hc Ep.
    assert (E : x = (2 * D) * p + (c * D + x mod D)) by (subst m; lia).
    split.
    - symmetry. apply (Z.div_unique_pos x (2 * D) p (c * D + x mod D));
        [nia|exact E].
    - symmetry. apply (Z.mod_unique_pos x (2 * D) p (c * D + x mod D));
        [nia|exact E]. }
  unfold shr_1.
  destruct m as [|[p|p|]|p]; cbn [shr_m shr_r]; try lia.
  - destruct (Hhalf 0 0) as [E1 E2]; [lia|lia|]. split; [now rewrite E1|].
    discriminate.
  - destruct (Hhalf (Z.pos p) 1) as [E1 E2]; [lia|lia|].
    split; [now rewrite E1|]. intros _. rewrite E2. lia.
  - destruct (Hhalf (Z.pos p) 0) as [E1 E2]; [lia|lia|].
    split; [now rewrite E1|]. discriminate.
  - destruct (Hhalf 0 1) as [E1 E2]; [lia|lia|].
    split; [now rewrite E1|]. intros _. rewrite E2. lia.
Qed.

Lemma shr_iter k : forall (rec : shr_record) (x D : Z),
  0 < D -> 0 <= x ->
  shr_m rec = x / D -> (shr_r rec = true -> D <= 2 * (x mod D)) ->
  shr_m (SpecFloat.iter_pos shr_1 k rec) = x / (D * 2 ^ Z.pos k)
  /\ (shr_r (SpecFloat.iter_pos shr_1 k rec) = true ->
      D * 2 ^ Z.pos k <= 2 * (x mod (D * 2 ^ Z.pos k))).
Proof.
  induction k as [k IH|k IH|]; intros rec x D HD Hx Hm Hr.
  - change (SpecFloat.iter_pos shr_1 k~1 rec)
      with (SpecFloat.iter_pos shr_1 k (SpecFloat.iter_pos shr_1 k (shr_1 rec))).
    assert (Hp : 0 < 2 ^ Z.pos k) by (apply Z.pow_pos_nonneg; lia).
    replace (D * 2 ^ Z.pos k~1) with (2 * D * 2 ^ Z.pos k * 2 ^ Z.pos k)
      by (rewrite pow2_xI; ring).
    destruct (shr_1_step rec x D HD Hx Hm Hr) as [H1 H2].
    destruct (IH _ x (2 * D) ltac:(lia) Hx H1 H2) as [H3 H4].
    apply (IH _ x (2 * D * 2 ^ Z.pos k)); [nia|exact Hx|exact H3|exact H4].
  - change (SpecFloat.iter_pos shr_1 k~0 rec)
      with (SpecFloat.iter_pos shr_1 k (SpecFloat.iter_pos shr_1 k rec)).
    assert (Hp : 0 < 2 ^ Z.pos k) by (apply Z.pow_pos_nonneg; lia).
    replace (D * 2 ^ Z.pos k~0) with (D * 2 ^ Z.pos k * 2 ^ Z.pos k)
      by (rewrite pow2_xO; ring).
    destruct (IH _ x D HD Hx Hm Hr) as [H3 H4].
    apply (IH _ x (D * 2 ^ Z.pos k)); [nia|exact Hx|exact H3|exact H4].
  - change (SpecFloat.iter_pos shr_1 1 rec) with (shr_1 rec).
    change (2 ^ 1) with 2. rewrite (Z.mul_comm D 2).
    now apply shr_1_step.
Qed.

Lemma round_nearest_even_up (rec : shr_record) :
  let q := round_nearest_even (shr_m rec) (loc_of_shr_record rec) in
  (q = shr_m rec \/ (q = shr_m rec + 1 /\ shr_r rec = true)).
Proof.
  destruct rec as [m [|] [|]]; cbn; try destruct (Z.even m); auto.
Qed.

(** The value a positive product is rounded to is at most half a unit in
    the last place above it. *)
Lemma round_shift (P : positive) (k : positive) :
  let rec := SpecFloat.iter_pos shr_1 k (Build_shr_record (Z.pos P) false false) in
  let q := round_nearest_even (shr_m rec) (loc_of_shr_record rec) in
  0 <= q /\ 2 * (q * 2 ^ Z.pos k) <= 2 * Z.pos P + 2 ^ Z.pos k
  /\ q <= Z.pos P / 2 ^ Z.pos k + 1.
Proof.
  cbn zeta.
  assert (Hp : 0 < 2 ^ Z.pos k) by (apply Z.pow_pos_nonneg; lia).
  destruct (shr_iter k (Build_shr_record (Z.pos P) false false) (Z.pos P) 1)
    as [Hm Hr];
    [lia | lia | cbn [shr_m]; now rewrite Z.div_1_r | discriminate |].
  rewrite Z.mul_1_l in Hm, Hr.
  pose proof (Z.div_mod (Z.pos P) (2 ^ Z.pos k) ltac:(lia)) as Hdm.
  pose proof (Z.mod_pos_bound (Z.pos P) (2 ^ Z.pos k) Hp) as Hb.
  pose proof (Z.div_pos (Z.pos P) (2 ^ Z.pos k) ltac:(lia) Hp) as Hq.
  destruct (round_nearest_even_up
              (SpecFloat.iter_pos shr_1 k
                 (Build_shr_record (Z.pos P) false false)))
    as [E|[E Hup]]; rewrite E, Hm.
  - split; [lia|]. split; [nia|lia].
  - specialize (Hr Hup). split; [lia|]. split; [nia|lia].
Qed.


Lemma no_shift (q e : Z) :
  fexp Num.prec Num.emax (Zdigits2 q + e) - e <= 0 ->
  shr_fexp Num.prec Num.emax q e loc_Exact
  = (Build_shr_record q false false, e).
Proof.
  intros H. unfold shr_fexp, shr. cbn [shr_record_of_loc].
  destruct (fexp Num.prec Num.emax (Zdigits2 q + e) - e); try reflexivity.
  lia.
Qed.

(** The second normalisation of [binary_round_aux]: a zero, or the same
    value with a mantissa of at most 53 bits. *)
Lemma finish_value (q e : Z) :
  0 <= q <= 2 ^ 53 -> -1074 <= e <= 970 ->
  let res :=
    (let '(mrs, e2) := shr_fexp Num.prec Num.emax q e loc_Exact in
     match shr_m mrs with
     | Z0 => S754_zero false
     | Zpos m => if e2 <=? Num.emax - Num.prec then S754_finite false m e2
                 else S754_infinity false
     | Zneg _ => S754_nan
     end) in
  (q = 0 /\ res = S754_zero false)
  \/ exists m2 e2, res = S754_finite false m2 e2
                   /\ e <= e2 <= e + 1 /\ Z.pos m2 * 2 ^ (e2 - e) = q.
Proof.
  intros Hq He. cbn zeta.
  destruct (Z_lt_le_dec q (2 ^ 52)) as [Hlt|Hge].
  - rewrite no_shift.
    + cbn [shr_m]. destruct q as [|p|p]; [left; now split| |lia].
      right. exists p, e.
      destruct (Z.leb_spec e (Num.emax - Num.prec)) as [_|Hbad];
        [|unfold Num.emax, Num.prec in Hbad; lia].
      split; [reflexivity|]. split; [lia|].
      now rewrite Z.sub_diag, Z.mul_1_r.
    + unfold fexp, emin, Num.prec, Num.emax.
      destruct q as [|p|p]; cbn [Zdigits2]; [lia| |lia].
      pose proof (digits_upper p 52 ltac:(lia) Hlt). lia.
  - destruct (round_finish q e ltac:(lia) He) as (m2 & e2 & E & He2 & _ & Hv).
    right. exists m2, e2. split; [exact E|]. split; [exact He2|exact Hv].
Qed.

(** A product that stays a margin below a bound keeps its integer part
    below the bound when it is rounded. *)
Lemma round_index_below (P : positive) (E B M : Z) :
  -1126 <= E <= 0 -> B <= 2 ^ 53 -> 2 ^ 52 <= M ->
  Z.pos P < 2 ^ 53 * M -> Z.pos P + M <= B * 2 ^ (- E) ->
  exists idx,
    floor_index (binary_round_aux Num.prec Num.emax false (Z.pos P) E loc_Exact)
    = Some idx
    /\ Z.of_nat idx < B.
Proof.
  intros HE HB HM HPM Hmargin.
  set (dP := Z.pos (digits2_pos P)).
  pose proof (digits_spec P) as HdP. fold dP in HdP.
  assert (Hs : 0 < 2 ^ (- E)) by (apply Z.pow_pos_nonneg; lia).
  assert (HB0 : 0 < B) by nia.
  assert (HdE : dP + E <= 53).
  { assert (2 ^ (dP - 1) < 2 ^ (53 - E)).
    { replace (53 - E) with (53 + - E) by lia. rewrite Z.pow_add_r by lia.
      nia. }
    apply Z.pow_lt_mono_r_iff in H; lia. }
  assert (Hidx : forall (m2 : positive) (e2 : Z),
            Z.pos m2 * 2 ^ (e2 + - E) < B * 2 ^ (- E) -> 0 <= e2 + - E ->
            Z.of_nat (Z.to_nat (if 0 <=? e2 then Z.pos m2 * 2 ^ e2
                                else Z.pos m2 / 2 ^ (- e2))) < B).
  { intros m2 e2 Hlt Hnn.
    destruct (Z.leb_spec 0 e2) as [H0|H0].
    - rewrite Z.pow_add_r in Hlt by lia.
      assert (0 < 2 ^ e2) by (apply Z.pow_pos_nonneg; lia).
      rewrite Z2Nat.id by nia. nia.
    - assert (Ht : 0 < 2 ^ (- e2)) by (apply Z.pow_pos_nonneg; lia).
      replace (- E) with (- e2 + (e2 + - E)) in Hlt at 2 by lia.
      rewrite (Z.pow_add_r 2 (- e2) (e2 + - E)) in Hlt by lia.
      assert (0 < 2 ^ (e2 + - E)) by (apply Z.pow_pos_nonneg; lia).
      assert (Z.pos m2 < B * 2 ^ (- e2)) by nia.
      pose proof (Z.div_pos (Z.pos m2) (2 ^ (- e2)) ltac:(lia) Ht).
      rewrite Z2Nat.id by lia.
      apply Z.div_lt_upper_bound; [exact Ht|lia]. }
  unfold binary_round_aux.
  destruct (fexp Num.prec Num.emax (Zdigits2 (Z.pos P) + E) - E) as [|kp|kp] eqn:Ek.
  1,3: rewrite (no_shift (Z.pos P) E) by lia; cbn [shr_m loc_of_shr_record
         round_nearest_even]; rewrite (no_shift (Z.pos P) E) by lia;
       cbn [shr_m];
       destruct (Z.leb_spec E (Num.emax - Num.prec)) as [_|Hbad];
         [|unfold Num.emax, Num.prec in Hbad; lia];
       eexists; (split; [reflexivity|]);
       apply Hidx; [rewrite Z.add_opp_diag_r, Z.mul_1_r; lia | lia].
  unfold shr_fexp at 1. rewrite Ek. cbn [shr_record_of_loc shr].
  cbn [Zdigits2] in Ek. fold dP in Ek.
  unfold fexp, emin, Num.prec, Num.emax in Ek.
  destruct (round_shift P kp) as (Hq0 & Hq & Hqd).
  set (q := round_nearest_even _ _) in *.
  assert (Hk : 0 < 2 ^ Z.pos kp) by (apply Z.pow_pos_nonneg; lia).
  assert (Hq53 : q <= 2 ^ 53).
  { assert (Z.pos P / 2 ^ Z.pos kp < 2 ^ 53); [|lia].
    apply Z.div_lt_upper_bound; [exact Hk|].
    rewrite <- Z.pow_add_r by lia.
    eapply Z.lt_le_trans; [apply HdP|]. apply Z.pow_le_mono_r; lia. }
  assert (Hhalf : 2 ^ Z.pos kp < 2 * M).
  { destruct (Z_le_gt_dec (-1074) (dP + E - 53)) as [Hn|Hsub].
    - assert (Ekp : Z.pos kp = dP - 53) by lia.
      assert (2 ^ Z.pos kp * 2 ^ 52 = 2 ^ (dP - 1)).
      { rewrite <- Z.pow_add_r by lia. f_equal. lia. }
      nia.
    - assert (Z.pos kp <= 52) by lia.
      assert (2 ^ Z.pos kp <= 2 ^ 52) by (apply Z.pow_le_mono_r; lia).
      lia. }
  assert (Hlt : q * 2 ^ Z.pos kp < B * 2 ^ (- E)) by lia.
  destruct (finish_value q (E + Z.pos kp) ltac:(lia) ltac:(lia))
    as [[_ ->]|(m2 & e2 & -> & He2 & Hv)].
  - exists 0%nat. split; [reflexivity|]. cbn. lia.
  - eexists. split; [reflexivity|]. apply Hidx; [|lia].
    replace (e2 + - E) with (e2 - (E + Z.pos kp) + Z.pos kp) by lia.
    rewrite Z.pow_add_r by lia. rewrite Z.mul_assoc, Hv. exact Hlt.
Qed.

(** [Math.floor(Math.random() * n)] is an index below [n]. *)
Lemma random_index (r : number) (n : positive) :
  unit_interval r = true -> Z.pos n < 2 ^ 53 ->
  exists idx, floor_index (Num.mul r (Num.ofZ (Z.pos n))) = Some idx
              /\ Z.of_nat idx < Z.pos n.
Proof.
  intros Hr Hn.
  pose proof (digits_upper n 53 ltac:(lia) Hn) as Hd.
  rewrite (ofZ_canon n Hd).
  destruct (canon_pos_mantissa n 0 Hd) as (mn & -> & Emn & Hmn).
  set (d := Z.pos (digits2_pos n)) in *.
  pose proof (Pos2Z.is_pos (digits2_pos n)) as Hdpos. fold d in Hdpos.
  destruct r as [sg| | |[|] mr er]; try discriminate.
  - exists 0%nat. split; [reflexivity|]. cbn. lia.
  - cbn [unit_interval] in Hr.
    apply andb_prop in Hr as [Hr H3]. apply andb_prop in Hr as [H1 H2].
    apply Z.ltb_lt in H1, H3. apply Z.leb_le in H2.
    assert (Her : er < 0).
    { destruct (Z_lt_le_dec er 0) as [?|Hge]; [assumption|].
      destruct (Z.eq_dec er 0) as [->|Hne]; [cbn in H3; lia|].
      rewrite Z.pow_neg_r in H3 by lia. lia. }
    unfold Num.mul, SFmul. cbn [xorb].
    assert (Hp : 0 < 2 ^ (- er)) by (apply Z.pow_pos_nonneg; lia).
    assert (Hp2 : 0 < 2 ^ (53 - d)) by (apply Z.pow_pos_nonneg; lia).
    apply (round_index_below (mr * mn) (er + (0 + d - 53)) (Z.pos n) (Z.pos mn));
      try lia.
    + rewrite Pos2Z.inj_mul. nia.
    + rewrite Pos2Z.inj_mul.
      replace (- (er + (0 + d - 53))) with (- er + (53 - d)) by lia.
      rewrite Z.pow_add_r by lia. rewrite Emn. nia.
Qed.

End RandomIndex.

Section Exhaust.

Lemma pick_some (r : number) ls :
  unit_interval r = true -> Z.of_nat (length ls) < 2 ^ 32 ->
  candidates ls <> [] -> exists p, pick r ls = Some p.
Proof.
  intros Hr Hlen Hc. unfold pick. cbv zeta.
  pose proof (candidates_length ls) as Hcl.
  pose proof (count_status_nonneg Fault ls) as Hnn.
  destruct (candidates ls) as [|c cs] eqn:E; [congruence|].
  assert (Hn : 0 < Z.of_nat (length (c :: cs)) < 2 ^ 53).
  { split; [cbn [length]; lia|].
    assert (2 ^ 32 < 2 ^ 53) by reflexivity. lia. }
  destruct (Z.of_nat (length (c :: cs))) as [|pn|pn] eqn:En; try lia.
  destruct (random_index r pn Hr ltac:(lia)) as (idx & Hi & Hidx).
  rewrite Hi. cbn [mbind option_bind]. apply lookup_lt_is_Some. lia.
Qed.

Lemma candidates_nil ls :
  candidates ls = [] -> forall l, l ∈ ls -> LTLine.status l = Fault.
Proof.
  intros E l Hl. destruct (decide (LTLine.status l = Fault)) as [|Hne];
    [assumption|].
  assert (Hin : l ∈ candidates ls)
    by (unfold candidates; apply list_elem_of_filter; now split).
  rewrite E in Hin. now apply elem_of_nil in Hin.
Qed.

End Exhaust.

(** X19.  The button never misses: whatever value in [0, 1) the random
    generator returns, a simulated fault selects a line as long as some
    line is not in Fault, and puts it in Fault.  (The rounded product of
    a binary64 below 1 and a length stays below the length.) *)
Theorem simulateFault_live (r : number) (e : Stamp) (st : State) :
  unit_interval r = true ->
  Z.of_nat (length (lines st)) < 2 ^ 32 ->
  (exists l, l ∈ lines st /\ LTLine.status l <> Fault) ->
  exists p,
    pick r (lines st) = Some p
    /\ simulateFault r e st = updateLineStatus e (LTLine.id p) Fault st
    /\ count_status Fault (lines st)
       < count_status Fault (lines (simulateFault r e st)).
Proof.
  intros Hr Hlen (l & Hl & Hs).
  destruct (pick_some r (lines st) Hr Hlen) as [p Hp].
  { intros E. apply Hs. now apply (candidates_nil (lines st)). }
  exists p. split; [exact Hp|]. unfold simulateFault. rewrite Hp.
  split; [reflexivity|]. rewrite updateLineStatus_lines.
  destruct (pick_candidate _ _ _ Hp) as [Hin Hst].
  now apply count_fault_set_status_lt.
Qed.

Lemma simulateFault_live_witness :
  exists p, pick (Num.lit 999 3) (lines seed_state) = Some p.
Proof.
  destruct (simulateFault_live (Num.lit 999 3) sample_stamp seed_state)
    as (p & Hp & _).
  - reflexivity.
  - reflexivity.
  - exists (LTLine.mk "lt-3" "LT Line - Kozhikode Rural"
              [ (Num.lit 1124 2, Num.lit 7577 2);
                (Num.lit 1128 2, Num.lit 758 1);
                (Num.lit 1131 2, Num.lit 7583 2) ] Shutoff).
    split; [|discriminate]. do 2 apply list_elem_of_further.
    apply list_elem_of_here.
  - exists p. exact Hp.
Defined.

(** X20.  Pressed as often as there are lines not in Fault, with random
    values in [0, 1), the button leaves every line in Fault; from then on
    it changes nothing, and the uptime card of a non-empty list reads
    70.0%. *)
Theorem simulateFaults_exhaust (rs : list (number * Stamp)) (st : State) :
  Forall (fun p => unit_interval p.1 = true) rs ->
  Z.of_nat (length (lines st)) < 2 ^ 32 ->
  (length (candidates (lines st)) <= length rs)%nat ->
  (forall l, l ∈ lines (simulateFaults rs st) -> LTLine.status l = Fault)
  /\ (forall r e, simulateFault r e (simulateFaults rs st)
                  = simulateFaults rs st)
  /\ (lines st <> [] ->
      uptime_card (report (lines (simulateFaults rs st)))
      = Some "70.0%"%string).
Proof.
  intros Hrs Hlen Hc.
  assert (Hall : (forall l, l ∈ lines (simulateFaults rs st) ->
                            LTLine.status l = Fault)
                 /\ length (lines (simulateFaults rs st)) = length (lines st)).
  { revert st Hlen Hc. induction Hrs as [|[r e] rs Hr _ IH]; intros st Hlen Hc.
    - unfold simulateFaults. cbn [foldl].
      split; [|reflexivity]. apply candidates_nil.
      destruct (candidates (lines st)); [reflexivity|cbn in Hc; lia].
    - unfold simulateFaults. cbn [foldl fst snd].
      fold (simulateFaults rs (simulateFault r e st)).
      destruct (candidates (lines st)) as [|c cs] eqn:Ec.
      + assert (E : simulateFault r e st = st).
        { unfold simulateFault, pick. rewrite Ec. cbn [length].
          destruct (floor_index _) as [[|i]|]; reflexivity. }
        rewrite E. apply IH; [exact Hlen|]. rewrite Ec. cbn. lia.
      + destruct (pick_some r (lines st) Hr Hlen) as [p Hp]; [congruence|].
        destruct (pick_candidate _ _ _ Hp) as [Hin Hst].
        assert (E : lines (simulateFault r e st)
                    = set_status (LTLine.id p) Fault (lines st)).
        { unfold simulateFault. rewrite Hp. apply updateLineStatus_lines. }
        pose proof (count_fault_set_status_lt p (lines st) Hin Hst) as Hlt.
        pose proof (candidates_length (lines st)) as H1.
        pose proof (candidates_length
                      (set_status (LTLine.id p) Fault (lines st))) as H2.
        rewrite set_status_length in H2.
        destruct (IH (simulateFault r e st)) as [A B].
        * now rewrite E, set_status_length.
        * rewrite E. rewrite Ec in *. cbn [length] in *. lia.
        * split; [exact A|]. now rewrite B, E, set_status_length. }
  destruct Hall as [Hall Hsame].
  split; [exact Hall|]. split.
  - intros r e. unfold simulateFault. now rewrite (pick_none r _ Hall).
  - intros Hne. unfold uptime_card.
    rewrite (report_uptime_exact _ 140); [reflexivity| |].
    + rewrite Hsame. destruct (lines st); [congruence|cbn [length] in *; lia].
    + rewrite (count_status_all Fault _ Hall), (count_status_none Healthy); [lia|].
      intros l Hl. rewrite (Hall l Hl). discriminate.
Qed.

Lemma simulateFaults_exhaust_witness :
  uptime_card
    (report (lines (simulateFaults
                      [(Num.lit 999 3, sample_stamp); (Num.lit 0 1, sample_stamp);
                       (Num.lit 5 1, sample_stamp)] seed_state)))
  = Some "70.0%"%string.
Proof.
  refine (proj2 (proj2 (simulateFaults_exhaust
                          [(Num.lit 999 3, sample_stamp);
                           (Num.lit 0 1, sample_stamp);
                           (Num.lit 5 1, sample_stamp)] seed_state _ _ _)) _).
  - repeat constructor.
  - reflexivity.
  - vm_compute. lia.
  - discriminate.
Defined.

